(** * virtio-video utilities: scatter-gather copies and completion pipeline

    A shallow embedding of [hw/virtio/virtio-video-util.c]:

    - the copy engine ([virtio_video_memcpy], [virtio_video_memcpy_r],
      [virtio_video_memdump], [virtio_video_memcpy_byline]) over a flat
      byte-addressed memory, pointers being addresses;
    - the completion pipeline ([virtio_video_inflight_cmd_done],
      [virtio_video_cmd_others_complete], [virtio_video_event_bh],
      [virtio_video_report_event]) as state passing over a device record
      that carries the reference count, the bottom-half queue, the event
      backlog and a log of what was handed to the transport. *)

From Stdlib Require Import ZArith List Bool Lia.
From Stdlib.Strings Require Import Byte.
Import ListNotations.
Local Open Scope Z_scope.

(** ** Machine integers *)

(** [uint32_t] arithmetic: results are reduced modulo 2^32. *)
Definition u32 (x : Z) : Z := x mod 2 ^ 32.

Definition UINT32_MAX : Z := 2 ^ 32 - 1.

(** The C type of [slice->page.len] is declared in virtio-video.h and is
    not fixed here.  It is an unsigned integer at least as wide as
    [uint32_t]; its width decides in which width the mixed
    expressions [base + slice->page.len] and [slice->page.len - diff] are
    evaluated, so the width is kept as a parameter of the functions that
    contain such expressions. *)
Inductive len_width : Type := Len32 | Len64.

Definition len_bits (w : len_width) : Z :=
  match w with Len32 => 32 | Len64 => 64 end.

(** Arithmetic in the common type of a [uint32_t] and a slice length. *)
Definition ulen (w : len_width) (x : Z) : Z := x mod 2 ^ len_bits w.

(** ** Memory *)

(** Host memory is a total map from addresses to bytes; a [void *] is an
    address and pointer arithmetic on it is byte-wise (GNU C). *)
Definition mem : Type := Z -> byte.

Definition NULL : Z := 0.

(** [memcpy dst src n]: the [n] bytes at [src] are stored at [dst]; the
    source is read in the memory as it was before the call. *)
Definition memcpy (m : mem) (dst src n : Z) : mem :=
  fun a => if (dst <=? a) && (a <? dst + n) then m (src + (a - dst)) else m a.

(** Modelled from the spec: [MEMCPY_S (dst, src, dst_size, src_size)] is a
    macro of virtio-video-util.h, which is missing; it is the bounded copy
    of the copy engine.  Every call site passes the same count for both
    bounds, so the call copies exactly that many bytes. *)
Definition MEMCPY_S (m : mem) (dst src dmax n : Z) : mem :=
  memcpy m dst src (Z.min dmax n).

(** ** Slice store *)

Record VirtIOVideoResourceSlice : Type := mkSlice {
  page_base : Z;   (* slice->page.base *)
  page_len  : Z    (* slice->page.len  *)
}.

(** Modelled from the spec: the two layout tags are enumerators of
    virtio_video.h (bit 0 and bit 1); only their being distinct is used. *)
Definition VIRTIO_VIDEO_PLANES_LAYOUT_SINGLE_BUFFER : Z := 1.
Definition VIRTIO_VIDEO_PLANES_LAYOUT_PER_PLANE : Z := 2.

(** [slices] holds, for each plane [p], the array [slices[p]]; the array
    has [num_entries[p]] elements, so [num_entries] is its length. *)
Record VirtIOVideoResource : Type := mkResource {
  planes_layout : Z;
  plane_offsets : list Z;
  slices        : list (list VirtIOVideoResourceSlice);
  remapped_base : Z;
  remapped_size : Z
}.

Definition plane_slices (res : VirtIOVideoResource) (p : nat)
  : list VirtIOVideoResourceSlice := nth p (slices res) [].

Definition num_entries (res : VirtIOVideoResource) (p : nat) : Z :=
  Z.of_nat (length (plane_slices res p)).

Definition plane_offset (res : VirtIOVideoResource) (p : nat) : Z :=
  nth p (plane_offsets res) 0.

(** Summed length of a slice sequence. *)
Fixpoint total_len (ss : list VirtIOVideoResourceSlice) : Z :=
  match ss with
  | [] => 0
  | s :: rest => page_len s + total_len rest
  end.

(** Address of the byte at cumulative offset [off] of a slice sequence. *)
Fixpoint slice_addr (ss : list VirtIOVideoResourceSlice) (off : Z) : Z :=
  match ss with
  | [] => NULL
  | s :: rest =>
      if off <? page_len s then page_base s + off
      else slice_addr rest (off - page_len s)
  end.

(** Does address [a] lie in one of the slices? *)
Definition in_slice (s : VirtIOVideoResourceSlice) (a : Z) : bool :=
  (page_base s <=? a) && (a <? page_base s + page_len s).

Definition in_slices (ss : list VirtIOVideoResourceSlice) (a : Z) : bool :=
  existsb (fun s => in_slice s a) ss.

(** Two address ranges share no byte. *)
Definition ranges_apart (b1 n1 b2 n2 : Z) : bool :=
  (n1 <=? 0) || (n2 <=? 0) || (b1 + n1 <=? b2) || (b2 + n2 <=? b1).

Definition slice_apart (s t : VirtIOVideoResourceSlice) : bool :=
  ranges_apart (page_base s) (page_len s) (page_base t) (page_len t).

(** The slices are distinct memory fragments: no two of them overlap. *)
Fixpoint slices_disjoint (ss : list VirtIOVideoResourceSlice) : bool :=
  match ss with
  | [] => true
  | s :: rest => forallb (slice_apart s) rest && slices_disjoint rest
  end.

(** The buffer [[p, p + n)] overlaps none of the slices. *)
Definition buffer_apart (p n : Z) (ss : list VirtIOVideoResourceSlice) : bool :=
  forallb (fun s => ranges_apart p n (page_base s) (page_len s)) ss.

Definition lens_nonneg (ss : list VirtIOVideoResourceSlice) : bool :=
  forallb (fun s => 0 <=? page_len s) ss.

(** ** Copy engine *)

(** What a call of a copy function leaves behind: the memory, the [int] it
    returns, and whether it called [error_report] ("output buffer
    insufficient to contain the frame"). *)
Record copy_result : Type := mkCopy {
  cr_mem      : mem;
  cr_ret      : Z;
  cr_reported : bool
}.

(** *** Per-plane layout, write *)

(** The [for] loop of [virtio_video_memcpy_perplane] over
    [slices[idx][0 .. num_entries[idx])], followed by the check after it. *)
Fixpoint memcpy_perplane_loop (ss : list VirtIOVideoResourceSlice)
    (m : mem) (src size : Z) : copy_result :=
  match ss with
  | [] => if 0 <? size then mkCopy m (-1) true else mkCopy m 0 false
  | slice :: rest =>
      if size <=? page_len slice then
        mkCopy (MEMCPY_S m (page_base slice) src size size) 0 false
      else
        memcpy_perplane_loop rest
          (MEMCPY_S m (page_base slice) src (page_len slice) (page_len slice))
          (src + page_len slice)
          (u32 (size - page_len slice))
  end.

Definition virtio_video_memcpy_perplane (m : mem) (res : VirtIOVideoResource)
    (idx : nat) (src size : Z) : copy_result :=
  memcpy_perplane_loop (plane_slices res idx) m src size.

(** *** Per-plane layout, read *)

(** The loop of [virtio_video_memcpy_perplane_r]: every slice is visited,
    [cur_len] is the smaller of what is left and the slice length. *)
Fixpoint memcpy_perplane_r_loop (ss : list VirtIOVideoResourceSlice)
    (m : mem) (dst dst_pos size : Z) : copy_result :=
  match ss with
  | [] => if 0 <? size then mkCopy m (-1) true else mkCopy m 0 false
  | slice :: rest =>
      let cur_len := if page_len slice <=? size then u32 (page_len slice)
                     else size in
      memcpy_perplane_r_loop rest
        (MEMCPY_S m (dst + dst_pos) (page_base slice) cur_len cur_len)
        dst (u32 (dst_pos + cur_len)) (u32 (size - cur_len))
  end.

Definition virtio_video_memcpy_perplane_r (m : mem) (res : VirtIOVideoResource)
    (idx : nat) (dst size : Z) : copy_result :=
  memcpy_perplane_r_loop (plane_slices res idx) m dst 0 size.

(** *** Per-plane layout, dump *)

(** [virtio_video_memdump_perplane]: the loop of the write with the copy
    reversed; the [return -1] after the loop is commented out in the
    source, so the shortfall is only logged. *)
Fixpoint memdump_perplane_loop (ss : list VirtIOVideoResourceSlice)
    (m : mem) (dst size : Z) : copy_result :=
  match ss with
  | [] => if 0 <? size then mkCopy m 0 true else mkCopy m 0 false
  | slice :: rest =>
      if size <=? page_len slice then
        mkCopy (MEMCPY_S m dst (page_base slice) size size) 0 false
      else
        memdump_perplane_loop rest
          (MEMCPY_S m dst (page_base slice) (page_len slice) (page_len slice))
          (dst + page_len slice)
          (u32 (size - page_len slice))
  end.

Definition virtio_video_memdump_perplane (m : mem) (res : VirtIOVideoResource)
    (idx : nat) (dst size : Z) : copy_result :=
  memdump_perplane_loop (plane_slices res idx) m dst size.

(** *** Single-buffer layout, read *)

(** [virtio_video_memcpy_singlebuffer_r].  The resource is passed by value
    here, so of the two NULL tests only the one on [pDst] remains.  The
    function has no check after its loop: it ends in [return 0]. *)
Fixpoint memcpy_singlebuffer_r_loop (w : len_width)
    (ss : list VirtIOVideoResourceSlice)
    (m : mem) (pDst size begin pos : Z) : copy_result :=
  match ss with
  | [] => mkCopy m 0 false
  | pSlice :: rest =>
      let pos' := u32 (pos + page_len pSlice) in
      if ulen w (pos + page_len pSlice) <=? begin then
        memcpy_singlebuffer_r_loop w rest m pDst size begin pos'
      else
        let diff := u32 (begin - pos) in
        let avail := ulen w (page_len pSlice - diff) in
        let cur_len := if avail <? size then u32 avail else size in
        memcpy_singlebuffer_r_loop w rest
          (MEMCPY_S m pDst (page_base pSlice + diff) cur_len cur_len)
          (pDst + cur_len) (u32 (size - cur_len)) (u32 (begin + cur_len)) pos'
  end.

Definition virtio_video_memcpy_singlebuffer_r (w : len_width) (m : mem)
    (pRes : VirtIOVideoResource) (idx : nat) (pDst size : Z) : copy_result :=
  if pDst =? NULL then mkCopy m (-1) false
  else memcpy_singlebuffer_r_loop w (plane_slices pRes 0) m pDst size
         (plane_offset pRes idx) 0.

(** *** Single-buffer layout, write *)

(** The slice walk of [virtio_video_memcpy_singlebuffer] (the [else] arm of
    the test on [remapped_base]) with the check after it; [end_] is the
    variable [end], [base] the running cumulative offset. *)
Fixpoint memcpy_singlebuffer_loop (w : len_width)
    (ss : list VirtIOVideoResourceSlice)
    (m : mem) (src size begin end_ base : Z) : copy_result :=
  match ss with
  | [] => if 0 <? size then mkCopy m (-1) true else mkCopy m 0 false
  | slice :: rest =>
      let base' := u32 (base + page_len slice) in
      if ulen w (base + page_len slice) <=? begin then
        memcpy_singlebuffer_loop w rest m src size begin end_ base'
      else
        let diff := u32 (begin - base) in
        let len := u32 (ulen w (page_len slice - diff)) in
        if end_ <=? ulen w (base + page_len slice) then
          mkCopy (MEMCPY_S m (page_base slice + diff) src size size) 0 false
        else
          memcpy_singlebuffer_loop w rest
            (MEMCPY_S m (page_base slice + diff) src len len)
            (src + len) (u32 (size - len)) (u32 (begin + len)) end_ base'
  end.

Definition virtio_video_memcpy_singlebuffer (w : len_width) (m : mem)
    (res : VirtIOVideoResource) (idx : nat) (src size : Z) : copy_result :=
  let begin := plane_offset res idx in
  let end_ := u32 (begin + size) in
  if negb (remapped_base res =? NULL) then
    (* memcpy(res->remapped_base, src, size); size = 0; *)
    let m' := memcpy m (remapped_base res) src size in
    let size := 0 in
    if 0 <? size then mkCopy m' (-1) true else mkCopy m' 0 false
  else
    memcpy_singlebuffer_loop w (plane_slices res 0) m src size begin end_ 0.

(** *** Single-buffer layout, dump *)

Fixpoint memdump_singlebuffer_loop (w : len_width)
    (ss : list VirtIOVideoResourceSlice)
    (m : mem) (dst size begin end_ base : Z) : copy_result :=
  match ss with
  | [] => if 0 <? size then mkCopy m (-1) true else mkCopy m 0 false
  | slice :: rest =>
      let base' := u32 (base + page_len slice) in
      if ulen w (base + page_len slice) <=? begin then
        memdump_singlebuffer_loop w rest m dst size begin end_ base'
      else
        let diff := u32 (begin - base) in
        let len := u32 (ulen w (page_len slice - diff)) in
        if end_ <=? ulen w (base + page_len slice) then
          mkCopy (MEMCPY_S m dst (page_base slice + diff) size size) 0 false
        else
          memdump_singlebuffer_loop w rest
            (MEMCPY_S m dst (page_base slice + diff) len len)
            (dst + len) (u32 (size - len)) (u32 (begin + len)) end_ base'
  end.

Definition virtio_video_memdump_singlebuffer (w : len_width) (m : mem)
    (res : VirtIOVideoResource) (idx : nat) (dst size : Z) : copy_result :=
  let begin := plane_offset res idx in
  memdump_singlebuffer_loop w (plane_slices res 0) m dst size begin
    (u32 (begin + size)) 0.

(** *** Dispatch on the layout tag *)

Definition virtio_video_memdump (w : len_width) (m : mem)
    (res : VirtIOVideoResource) (idx : nat) (dst size : Z) : copy_result :=
  if planes_layout res =? VIRTIO_VIDEO_PLANES_LAYOUT_SINGLE_BUFFER then
    virtio_video_memdump_singlebuffer w m res idx dst size
  else if planes_layout res =? VIRTIO_VIDEO_PLANES_LAYOUT_PER_PLANE then
    virtio_video_memdump_perplane m res idx dst size
  else mkCopy m (-1) false.

Definition virtio_video_memcpy (w : len_width) (m : mem)
    (res : VirtIOVideoResource) (idx : nat) (src size : Z) : copy_result :=
  if planes_layout res =? VIRTIO_VIDEO_PLANES_LAYOUT_SINGLE_BUFFER then
    virtio_video_memcpy_singlebuffer w m res idx src size
  else if planes_layout res =? VIRTIO_VIDEO_PLANES_LAYOUT_PER_PLANE then
    virtio_video_memcpy_perplane m res idx src size
  else mkCopy m (-1) false.

Definition virtio_video_memcpy_r (w : len_width) (m : mem)
    (res : VirtIOVideoResource) (idx : nat) (dst size : Z) : copy_result :=
  if planes_layout res =? VIRTIO_VIDEO_PLANES_LAYOUT_SINGLE_BUFFER then
    virtio_video_memcpy_singlebuffer_r w m res idx dst size
  else if planes_layout res =? VIRTIO_VIDEO_PLANES_LAYOUT_PER_PLANE then
    virtio_video_memcpy_perplane_r m res idx dst size
  else mkCopy m (-1) false.

(** *** Line-strided write *)

(** Result of a function that indexes an array with a computed index. *)
Inductive outcome (A : Type) : Type :=
| Done (a : A)      (* ran to its end *)
| OutOfBounds       (* read [slices[idx][page]] past the end of the array *)
| OutOfFuel.        (* the iteration bound handed to the model ran out *)
Arguments Done {A} a.
Arguments OutOfBounds {A}.
Arguments OutOfFuel {A}.

(** The local variables of [virtio_video_memcpy_byline] that change in its
    loops.  The pointer [slice] is [&res->slices[idx][page]] throughout,
    so it is not kept apart from [page]. *)
Record byline_state : Type := mkByline {
  bl_mem    : mem;
  bl_src    : Z;
  bl_page   : Z;
  bl_diff   : Z;
  bl_len    : Z;
  bl_size   : Z;
  bl_margin : Z
}.

Section Byline.
(** [ss] is [res->slices[idx]], [n0] is [res->num_entries[0]]. *)
Variable ss : list VirtIOVideoResourceSlice.
Variables n0 src_uv width height pitch : Z.

Definition slice_at (page : Z) : option VirtIOVideoResourceSlice :=
  if page <? 0 then None else nth_error ss (Z.to_nat page).

(** The inner [while (margin > 0 && page < res->num_entries[0])]. *)
Fixpoint byline_carry (fuel : nat) (st : byline_state)
  : outcome byline_state :=
  if (0 <? bl_margin st) && (bl_page st <? n0) then
    match fuel with
    | O => OutOfFuel
    | S fuel' =>
        let page := bl_page st + 1 in
        match slice_at page with
        | None => OutOfBounds
        | Some slice =>
            let len := u32 (page_len slice) in
            let margin := bl_margin st in
            if margin <=? len then
              byline_carry fuel'
                {| bl_mem := MEMCPY_S (bl_mem st) (page_base slice)
                               (bl_src st) margin margin;
                   bl_src := bl_src st + u32 (pitch - width + margin);
                   bl_page := page;
                   bl_diff := margin;
                   bl_len := u32 (len - margin);
                   bl_size := u32 (bl_size st - margin);
                   bl_margin := 0 |}
            else
              byline_carry fuel'
                {| bl_mem := MEMCPY_S (bl_mem st) (page_base slice)
                               (bl_src st) len len;
                   bl_src := bl_src st + len;
                   bl_page := page;
                   bl_diff := 0;
                   bl_len := len;
                   bl_size := u32 (bl_size st - len);
                   bl_margin := u32 (margin - len) |}
        end
    end
  else Done st.

(** The outer [for (i = 0; i < cp_height && page < num_entries[0]; i++)];
    [rows] counts the iterations that [i < cp_height] still allows. *)
Fixpoint byline_rows (rows : nat) (i : Z) (st : byline_state)
  : outcome byline_state :=
  match rows with
  | O => Done st
  | S rows' =>
      if bl_page st <? n0 then
        let src := if i =? height then src_uv else bl_src st in
        match slice_at (bl_page st) with
        | None => OutOfBounds
        | Some slice =>
            let diff := bl_diff st in
            let len := bl_len st in
            if width <=? len then
              byline_rows rows' (i + 1)
                {| bl_mem := MEMCPY_S (bl_mem st) (page_base slice + diff)
                               src width width;
                   bl_src := src + pitch;
                   bl_page := bl_page st;
                   bl_diff := u32 (diff + width);
                   bl_len := u32 (len - width);
                   bl_size := u32 (bl_size st - width);
                   bl_margin := bl_margin st |}
            else
              match
                byline_carry (Z.to_nat (n0 - bl_page st))
                  {| bl_mem := MEMCPY_S (bl_mem st) (page_base slice + diff)
                                 src len len;
                     bl_src := src + len;
                     bl_page := bl_page st;
                     bl_diff := u32 (diff + len);
                     bl_len := len;
                     bl_size := u32 (bl_size st - len);
                     bl_margin := u32 (width - len) |}
              with
              | Done st' => byline_rows rows' (i + 1) st'
              | OutOfBounds => OutOfBounds
              | OutOfFuel => OutOfFuel
              end
        end
      else Done st
  end.
End Byline.

Definition virtio_video_memcpy_byline (w : len_width) (m : mem)
    (res : VirtIOVideoResource) (idx : nat)
    (src_begin src_uv width height pitch cp_size cp_height : Z)
  : outcome copy_result :=
  let ss := plane_slices res idx in
  let begin := plane_offset res idx in
  let base := 0 in
  match slice_at ss 0 with
  | None => OutOfBounds
  | Some slice =>
      let diff := u32 (begin - base) in
      let len := u32 (ulen w (page_len slice - diff)) in
      match
        byline_rows ss (num_entries res 0) src_uv width height pitch
          (Z.to_nat cp_height) 0
          {| bl_mem := m; bl_src := src_begin; bl_page := 0;
             bl_diff := diff; bl_len := len; bl_size := cp_size;
             bl_margin := 0 |}
      with
      | Done st =>
          if 0 <? bl_size st then Done (mkCopy (bl_mem st) (-1) true)
          else Done (mkCopy (bl_mem st) 0 false)
      | OutOfBounds => OutOfBounds
      | OutOfFuel => OutOfFuel
      end
  end.

Definition virtio_video_memcpy_NV12_byline (w : len_width) (m : mem)
    (res : VirtIOVideoResource) (Y UV width height pitch : Z)
  : outcome copy_result :=
  let cp_size := u32 (u32 (u32 (width * height) * 3) / 2) in
  let cp_height := u32 (u32 (height * 3) / 2) in
  virtio_video_memcpy_byline w m res 0 Y UV width height pitch cp_size
    cp_height.

(** ** Completion and notification pipeline *)

(** A virtqueue element: the identity of its allocation and the lengths of
    its device-writable entries [in_sg[0 .. in_num)]. *)
Record VirtQueueElement : Type := mkElem {
  elem_id : Z;
  in_sg   : list N     (* in_sg[i].iov_len, a size_t *)
}.

Definition in_num (e : VirtQueueElement) : Z := Z.of_nat (length (in_sg e)).

Inductive virtqueue : Type := cmd_vq | event_vq.

Inductive virtio_video_resp_type : Type :=
| VIRTIO_VIDEO_RESP_OK_NODATA
| VIRTIO_VIDEO_RESP_ERR_INVALID_OPERATION.

(** What is written into a reply region. *)
Inductive response : Type :=
| virtio_video_cmd_hdr (type : virtio_video_resp_type) (stream_id : Z)
| virtio_video_event (event_type stream_id : Z).

(** Modelled from the spec: the wire records are fixed-layout; both the
    command header and the event record are two 32-bit fields. *)
Definition sizeof_virtio_video_cmd_hdr : Z := 8.
Definition sizeof_virtio_video_event : Z := 8.

Record VirtIOVideoCmd : Type := mkCmd {
  cmd_elem : VirtQueueElement;
  cmd_type : Z
}.

Record VirtIOVideoEvent : Type := mkEvent {
  ev_elem       : option VirtQueueElement;
  ev_event_type : Z;
  ev_stream_id  : Z
}.

Record VirtIOVideoStream : Type := mkStream {
  stream_ident : Z;                (* stream->id *)
  inflight_cmd : VirtIOVideoCmd
}.

Record virtio_video_cmd_bh_arg : Type := mkCmdArg {
  arg_cmd       : VirtIOVideoCmd;
  arg_stream_id : Z
}.

Record virtio_video_event_bh_arg : Type := mkEventArg {
  arg_event_type      : Z;
  arg_event_stream_id : Z
}.

(** A one-shot bottom half: the callback with its [opaque] argument. *)
Inductive bottom_half : Type :=
| cmd_done_bh (s : virtio_video_cmd_bh_arg)
| cmd_cancel_bh (s : virtio_video_cmd_bh_arg)
| event_bh (s : virtio_video_event_bh_arg).

(** Calls into the transport, in the order they were made.  [op_free e]
    records the call [g_free (e)]; the log says which calls are made and
    in which order, not what an access to an element does after it was
    freed. *)
Inductive transport_op : Type :=
| op_push (vq : virtqueue) (e : VirtQueueElement) (r : response) (len : Z)
| op_notify (vq : virtqueue)
| op_detach (vq : virtqueue) (e : VirtQueueElement)
| op_error
| op_free (e : VirtQueueElement).

(** The device: reference count of the object, pending-event backlog,
    elements the guest has made available on the event queue, bottom
    halves scheduled on [v->ctx] (oldest first), and the transport log. *)
Record VirtIOVideo : Type := mkDevice {
  refcount    : Z;
  event_queue : list VirtIOVideoEvent;
  event_avail : list VirtQueueElement;
  bh_list     : list bottom_half;
  transport   : list transport_op
}.

(** State passing over the device. *)
Definition dev (A : Type) : Type := VirtIOVideo -> A * VirtIOVideo.

Definition ret {A : Type} (a : A) : dev A := fun v => (a, v).

Definition bind {A B : Type} (c : dev A) (k : A -> dev B) : dev B :=
  fun v => let (a, v') := c v in k a v'.

Declare Scope dev_scope.
Delimit Scope dev_scope with dev.
Notation "x <- c ;; k" := (bind c (fun x => k))
  (at level 61, c at next level, right associativity) : dev_scope.
Notation "c ;; k" := (bind c (fun _ => k))
  (at level 61, right associativity) : dev_scope.
Local Open Scope dev_scope.

Definition exec {A : Type} (c : dev A) (v : VirtIOVideo) : VirtIOVideo :=
  snd (c v).

Definition log (op : transport_op) : dev unit :=
  fun v => (tt, mkDevice (refcount v) (event_queue v) (event_avail v)
                  (bh_list v) (transport v ++ [op])).

Definition object_ref : dev unit :=
  fun v => (tt, mkDevice (refcount v + 1) (event_queue v) (event_avail v)
                  (bh_list v) (transport v)).

Definition object_unref : dev unit :=
  fun v => (tt, mkDevice (refcount v - 1) (event_queue v) (event_avail v)
                  (bh_list v) (transport v)).

(** Modelled from the spec: [aio_bh_schedule_oneshot (v->ctx, cb, opaque)]
    of the QEMU main loop appends the task to a FIFO that a single worker
    serves; a task is not run before the call returns. *)
Definition aio_bh_schedule_oneshot (b : bottom_half) : dev unit :=
  fun v => (tt, mkDevice (refcount v) (event_queue v) (event_avail v)
                  (bh_list v ++ [b]) (transport v)).

Definition QTAILQ_INSERT_TAIL (event : VirtIOVideoEvent) : dev unit :=
  fun v => (tt, mkDevice (refcount v) (event_queue v ++ [event])
                  (event_avail v) (bh_list v) (transport v)).

(** [virtqueue_pop (v->event_vq, ...)]: the oldest available element, or
    NULL when the guest has supplied none. *)
Definition virtqueue_pop_event : dev (option VirtQueueElement) :=
  fun v => match event_avail v with
           | [] => (None, v)
           | e :: rest =>
               (Some e, mkDevice (refcount v) (event_queue v) rest
                          (bh_list v) (transport v))
           end.

Definition iov_size (sg : list N) : Z :=
  fold_right (fun n acc => Z.of_N n + acc) 0 sg.

(** Modelled from the spec: [iov_from_buf (iov, cnt, 0, buf, bytes)] of
    qemu/iov.h writes the response into the reply region and returns the
    number of bytes the region accepted. *)
Definition iov_from_buf (sg : list N) (bytes : Z) : Z :=
  Z.min bytes (iov_size sg).

Definition virtio_video_event_complete (event : VirtIOVideoEvent)
    (elem : VirtQueueElement) : dev Z :=
  let resp := virtio_video_event (ev_event_type event) (ev_stream_id event) in
  if negb (iov_from_buf (in_sg elem) sizeof_virtio_video_event
             =? sizeof_virtio_video_event) then
    log op_error ;;
    log (op_detach event_vq elem) ;;
    log (op_free elem) ;;
    ret (-1)
  else
    log (op_push event_vq elem resp sizeof_virtio_video_event) ;;
    log (op_notify event_vq) ;;
    log (op_free elem) ;;
    ret 0.

Definition virtio_video_cmd_others_complete (s : virtio_video_cmd_bh_arg)
    (success : bool) : dev unit :=
  let elem := cmd_elem (arg_cmd s) in
  let resp := virtio_video_cmd_hdr
                (if success then VIRTIO_VIDEO_RESP_OK_NODATA
                 else VIRTIO_VIDEO_RESP_ERR_INVALID_OPERATION)
                (arg_stream_id s) in
  if negb (iov_from_buf (in_sg elem) sizeof_virtio_video_cmd_hdr
             =? sizeof_virtio_video_cmd_hdr) then
    log op_error ;;
    log (op_detach cmd_vq elem) ;;
    log (op_free elem) ;;
    ret tt
  else
    log (op_push cmd_vq elem resp sizeof_virtio_video_cmd_hdr) ;;
    log (op_notify cmd_vq) ;;
    log (op_free elem) ;;
    object_unref.

Definition virtio_video_cmd_done_bh (s : virtio_video_cmd_bh_arg) : dev unit :=
  virtio_video_cmd_others_complete s true.

Definition virtio_video_cmd_cancel_bh (s : virtio_video_cmd_bh_arg)
  : dev unit :=
  virtio_video_cmd_others_complete s false.

(** [stream->inflight_cmd.cmd_type = 0]; the element pointer stays. *)
Definition clear_cmd_type (stream : VirtIOVideoStream) : VirtIOVideoStream :=
  mkStream (stream_ident stream)
    (mkCmd (cmd_elem (inflight_cmd stream)) 0).

Definition virtio_video_inflight_cmd_done (stream : VirtIOVideoStream)
  : dev VirtIOVideoStream :=
  let s := mkCmdArg (inflight_cmd stream) (stream_ident stream) in
  let stream' := clear_cmd_type stream in
  object_ref ;;
  aio_bh_schedule_oneshot (cmd_done_bh s) ;;
  ret stream'.

Definition virtio_video_inflight_cmd_cancel (stream : VirtIOVideoStream)
  : dev VirtIOVideoStream :=
  let s := mkCmdArg (inflight_cmd stream) (stream_ident stream) in
  let stream' := clear_cmd_type stream in
  object_ref ;;
  aio_bh_schedule_oneshot (cmd_cancel_bh s) ;;
  ret stream'.

Definition virtio_video_event_bh (s : virtio_video_event_bh_arg) : dev unit :=
  let event := mkEvent None (arg_event_type s) (arg_event_stream_id s) in
  elem <- virtqueue_pop_event ;;
  match elem with
  | None => QTAILQ_INSERT_TAIL event
  | Some e =>
      if (in_num e <? 1)
         || (Z.of_N (hd 0%N (in_sg e)) <? sizeof_virtio_video_event) then
        QTAILQ_INSERT_TAIL event ;;
        log op_error ;;
        log (op_detach event_vq e) ;;
        log (op_free e)
      else
        virtio_video_event_complete
          (mkEvent (Some e) (ev_event_type event) (ev_stream_id event)) e ;;
        ret tt
  end ;;
  object_unref.

Definition virtio_video_report_event (event stream_id : Z) : dev unit :=
  let s := mkEventArg event stream_id in
  object_ref ;;
  aio_bh_schedule_oneshot (event_bh s).

(** Running a bottom half calls its callback on its argument. *)
Definition run_bh (b : bottom_half) : dev unit :=
  match b with
  | cmd_done_bh s => virtio_video_cmd_done_bh s
  | cmd_cancel_bh s => virtio_video_cmd_cancel_bh s
  | event_bh s => virtio_video_event_bh s
  end.

(** Modelled from the spec: the worker takes the oldest scheduled bottom
    half and runs it alone, to its end. *)
Definition aio_bh_poll : dev unit :=
  fun v => match bh_list v with
           | [] => (tt, v)
           | b :: rest =>
               run_bh b (mkDevice (refcount v) (event_queue v)
                           (event_avail v) rest (transport v))
           end.

(** The guest makes a buffer available on the event queue. *)
Definition guest_adds_event_buffer (e : VirtQueueElement) : dev unit :=
  fun v => (tt, mkDevice (refcount v) (event_queue v) (event_avail v ++ [e])
                  (bh_list v) (transport v)).

(** Responses handed to a queue, oldest first. *)
Fixpoint pushed (vq : virtqueue) (ops : list transport_op) : list response :=
  match ops with
  | [] => []
  | op_push q _ r _ :: rest =>
      match vq, q with
      | cmd_vq, cmd_vq | event_vq, event_vq => r :: pushed vq rest
      | _, _ => pushed vq rest
      end
  | _ :: rest => pushed vq rest
  end.

(** ** Sample data used by the examples *)

Definition byte_of_Z (z : Z) : byte :=
  match Byte.of_N (Z.to_N (z mod 256)) with
  | Some b => b
  | None => x00
  end.

(** A memory in which every address below 256 holds a different byte. *)
Definition pattern_mem : mem := byte_of_Z.

(** Three slices of lengths 5, 4 and 3 at addresses 100, 200 and 300. *)
Definition slices_5_4_3 : list VirtIOVideoResourceSlice :=
  [mkSlice 100 5; mkSlice 200 4; mkSlice 300 3].

Definition res_perplane : VirtIOVideoResource :=
  mkResource VIRTIO_VIDEO_PLANES_LAYOUT_PER_PLANE [0; 0]
    [slices_5_4_3; [mkSlice 400 6]] NULL 0.

Definition res_single : VirtIOVideoResource :=
  mkResource VIRTIO_VIDEO_PLANES_LAYOUT_SINGLE_BUFFER [0; 6]
    [slices_5_4_3] NULL 0.

Definition res_remapped : VirtIOVideoResource :=
  mkResource VIRTIO_VIDEO_PLANES_LAYOUT_SINGLE_BUFFER [0; 6]
    [slices_5_4_3] 500 12.



(** ** Vocabulary of the statements about the line-strided write *)

(** Source pointer at the start of row [r]: rows below [height] are read
    from [src_begin], the rows from [height] on from [src_uv]; consecutive
    rows are [pitch] bytes apart. *)
Definition row_pointer (src_begin src_uv height pitch r : Z) : Z :=
  if r <? height then src_begin + r * pitch
  else src_uv + (r - height) * pitch.

(** The first [width] bytes of each of the first [rows] source rows lie
    outside the slices. *)
Definition rows_apart (src_begin src_uv width height pitch : Z) (rows : nat)
    (ss : list VirtIOVideoResourceSlice) : bool :=
  forallb
    (fun r => buffer_apart
                (row_pointer src_begin src_uv height pitch (Z.of_nat r))
                width ss)
    (seq 0 rows).

(** The plane offset lies within the first slice of the plane. *)
Definition offset_in_first_slice (begin : Z)
    (ss : list VirtIOVideoResourceSlice) : bool :=
  match ss with
  | [] => false
  | s :: _ => (0 <=? begin) && (begin <=? page_len s)
  end.

(** Cumulative offset at which slice number [p] starts. *)
Definition prefix_len (ss : list VirtIOVideoResourceSlice) (p : nat) : Z :=
  total_len (firstn p ss).

(** [m'] is [m] after the [n] bytes at [q] were stored at the cumulative
    offsets [pos .. pos + n) of the slice sequence, and nothing else. *)
Definition stored (ss : list VirtIOVideoResourceSlice) (m m' : mem)
    (pos n q : Z) : Prop :=
  (forall c, 0 <= c < n -> m' (slice_addr ss (pos + c)) = m (q + c)) /\
  (forall a, (forall c, 0 <= c < n -> a <> slice_addr ss (pos + c)) ->
             m' a = m a).

(** The write cursor of a [byline_state] stands at cumulative offset
    [pos]: [page] names a slice, [diff] bytes of it are used and [len] are
    left. *)
Definition at_cursor (ss : list VirtIOVideoResourceSlice)
    (st : byline_state) (pos : Z) : Prop :=
  exists p s,
    bl_page st = Z.of_nat p /\ nth_error ss p = Some s /\
    0 <= bl_diff st /\ 0 <= bl_len st /\
    bl_diff st + bl_len st = page_len s /\
    prefix_len ss p + bl_diff st = pos.

(** The first [i] rows have been stored from offset [begin] on. *)
Definition rows_done (ss : list VirtIOVideoResourceSlice)
    (src_begin src_uv width height pitch begin : Z) (m0 m : mem) (i : Z)
  : Prop :=
  (forall r c, 0 <= r < i -> 0 <= c < width ->
     m (slice_addr ss (begin + r * width + c))
     = m0 (row_pointer src_begin src_uv height pitch r + c)) /\
  (forall a, (forall off, begin <= off < begin + i * width ->
                          a <> slice_addr ss off) ->
             m a = m0 a).

(** An NV12-like frame of three rows of four bytes, the rows six bytes
    apart in the source: two luma rows at address 10, one chroma row at
    address 40. *)
Definition res_byline : VirtIOVideoResource :=
  mkResource VIRTIO_VIDEO_PLANES_LAYOUT_SINGLE_BUFFER [0]
    [slices_5_4_3] NULL 0.

(** The same slices with the plane offset 6, behind the first slice. *)
Definition res_byline_offset_6 : VirtIOVideoResource :=
  mkResource VIRTIO_VIDEO_PLANES_LAYOUT_SINGLE_BUFFER [6]
    [slices_5_4_3] NULL 0.

(** A per-plane resource whose plane 0 has one slice and whose plane 1
    has the three slices of 12 bytes. *)
Definition res_perplane_1_3 : VirtIOVideoResource :=
  mkResource VIRTIO_VIDEO_PLANES_LAYOUT_PER_PLANE [0; 0]
    [[mkSlice 400 6]; slices_5_4_3] NULL 0.

(** ** Vocabulary of the statements about the pipeline *)

(** Run the oldest [n] scheduled bottom halves. *)
Fixpoint aio_bh_poll_n (n : nat) : dev unit :=
  match n with
  | O => ret tt
  | S n' => aio_bh_poll ;; aio_bh_poll_n n'
  end.

(** Run every bottom half that is scheduled now. *)
Definition run_pending (v : VirtIOVideo) : VirtIOVideo :=
  exec (aio_bh_poll_n (length (bh_list v))) v.

(** [virtio_video_inflight_cmd_done] or [virtio_video_inflight_cmd_cancel],
    with the bottom half and the response type that go with it. *)
Definition resolve_inflight (success : bool) (stream : VirtIOVideoStream)
  : dev VirtIOVideoStream :=
  if success then virtio_video_inflight_cmd_done stream
  else virtio_video_inflight_cmd_cancel stream.

Definition resolution_bh (success : bool) (s : virtio_video_cmd_bh_arg)
  : bottom_half :=
  if success then cmd_done_bh s else cmd_cancel_bh s.

Definition resolution_resp (success : bool) : virtio_video_resp_type :=
  if success then VIRTIO_VIDEO_RESP_OK_NODATA
  else VIRTIO_VIDEO_RESP_ERR_INVALID_OPERATION.

(** The second of two resolutions in a row is turned down: it schedules
    nothing and, once the scheduled work has run, no further response has
    gone out on the command queue. *)
Definition second_resolution_rejected (stream : VirtIOVideoStream)
    (v : VirtIOVideo) : Prop :=
  let (s1, v1) := virtio_video_inflight_cmd_done stream v in
  let (s2, v2) := virtio_video_inflight_cmd_done s1 v1 in
  bh_list v2 = bh_list v1 /\
  pushed cmd_vq (transport (run_pending v2))
  = pushed cmd_vq (transport (run_pending v1)).

(** The event queue has a reply slot that can take an event record. *)
Definition usable_slot (v : VirtIOVideo) : bool :=
  match event_avail v with
  | [] => false
  | e :: _ =>
      negb ((in_num e <? 1)
            || (Z.of_N (hd 0%N (in_sg e)) <? sizeof_virtio_video_event))
  end.

Definition response_of_event (event : VirtIOVideoEvent) : response :=
  virtio_video_event (ev_event_type event) (ev_stream_id event).

(** Delivery in arrival order: what went out on the event queue, followed
    by what still waits in the backlog, is the sequence of reports. *)
Definition fifo_delivery (reports : list (Z * Z)) (v : VirtIOVideo) : Prop :=
  pushed event_vq (transport v) ++ map response_of_event (event_queue v)
  = map (fun r => virtio_video_event (fst r) (snd r)) reports.

(** Sample elements, device and stream. *)
Definition elem_ok : VirtQueueElement := mkElem 1 [8%N].
Definition elem_short : VirtQueueElement := mkElem 2 [4%N].

Definition device0 : VirtIOVideo := mkDevice 1 [] [] [] [].

(** A stream with a pending command of type 0x0103 (stream drain). *)
Definition stream0 : VirtIOVideoStream := mkStream 7 (mkCmd elem_ok 259).

(** An event is reported while the guest has supplied no buffer; the guest
    then supplies one; a second event is reported. *)
Definition late_buffer_scenario : dev unit :=
  virtio_video_report_event 256 7 ;;
  aio_bh_poll ;;
  guest_adds_event_buffer elem_ok ;;
  virtio_video_report_event 512 7 ;;
  aio_bh_poll.

(** ** Further functions of the copy engine *)

(** [virtio_video_memcpy_ARGB_byline]: one source region, rows of
    [width * 4] bytes. *)
Definition virtio_video_memcpy_ARGB_byline (w : len_width) (m : mem)
    (res : VirtIOVideoResource) (src width height pitch : Z)
  : outcome copy_result :=
  let cp_size := u32 (u32 (width * height) * 4) in
  let cp_height := height in
  virtio_video_memcpy_byline w m res 0 src src (u32 (width * 4)) height pitch
    cp_size cp_height.

(** The variables that the body of the loop of [virtio_video_memcpy_NV12]
    changes. *)
Record nv12_vars : Type := mkNV12 {
  nv_mem   : mem;
  nv_src   : Z;
  nv_size  : Z;
  nv_begin : Z;
  nv_diff  : Z;
  nv_len   : Z
}.

(** The loop of [virtio_video_memcpy_NV12] with the check after it.  The
    walk starts with [src = Y] and [size = size_Y]; [end_] is
    [begin + size_Y + size_UV].  After the copy into a slice, the test
    [size == 0 && src <= UV] moves on to the second source and fills the
    [len] bytes left of the slice from it. *)
Fixpoint memcpy_NV12_loop (w : len_width)
    (ss : list VirtIOVideoResourceSlice)
    (m : mem) (src size begin end_ base UV size_UV : Z) : copy_result :=
  match ss with
  | [] => if 0 <? size then mkCopy m (-1) true else mkCopy m 0 false
  | slice :: rest =>
      let base' := u32 (base + page_len slice) in
      if ulen w (base + page_len slice) <=? begin then
        memcpy_NV12_loop w rest m src size begin end_ base' UV size_UV
      else
        let diff := u32 (begin - base) in
        let len := u32 (ulen w (page_len slice - diff)) in
        if end_ <=? ulen w (base + page_len slice) then
          mkCopy (MEMCPY_S m (page_base slice + diff) src size size) 0 false
        else
          let v :=
            if len <=? size then
              {| nv_mem := MEMCPY_S m (page_base slice + diff) src len len;
                 nv_src := src + len;
                 nv_size := u32 (size - len);
                 nv_begin := u32 (begin + len);
                 nv_diff := diff;
                 nv_len := 0 |}
            else
              {| nv_mem := MEMCPY_S m (page_base slice + diff) src size size;
                 nv_src := src + size;
                 nv_size := 0;
                 nv_begin := u32 (begin + size);
                 nv_diff := u32 (diff + size);
                 nv_len := u32 (len - size) |} in
          if (nv_size v =? 0) && (nv_src v <=? UV) then
            memcpy_NV12_loop w rest
              (MEMCPY_S (nv_mem v) (page_base slice + nv_diff v) UV
                 (nv_len v) (nv_len v))
              (UV + nv_len v) (u32 (size_UV - nv_len v))
              (u32 (nv_begin v + nv_len v)) end_ base' UV size_UV
          else
            memcpy_NV12_loop w rest (nv_mem v) (nv_src v) (nv_size v)
              (nv_begin v) end_ base' UV size_UV
  end.

Definition virtio_video_memcpy_NV12 (w : len_width) (m : mem)
    (res : VirtIOVideoResource) (Y size_Y UV size_UV : Z) : copy_result :=
  let begin := plane_offset res 0 in
  let end_ := u32 (u32 (begin + size_Y) + size_UV) in
  memcpy_NV12_loop w (plane_slices res 0) m Y size_Y begin end_ 0 UV size_UV.

(** A resource whose single slice holds a whole small frame. *)
Definition res_one_slice : VirtIOVideoResource :=
  mkResource VIRTIO_VIDEO_PLANES_LAYOUT_SINGLE_BUFFER [0]
    [[mkSlice 100 64]] NULL 0.

(** ** Formats and parameters *)

(** Modelled from the spec: the enumerators of [virtio_video_format] are
    declared in virtio_video.h; a [uint32_t] that is none of them is
    [VIRTIO_VIDEO_FORMAT_other], the [default] arm of every [switch]. *)
Inductive virtio_video_format : Type :=
| VIRTIO_VIDEO_FORMAT_ARGB8888
| VIRTIO_VIDEO_FORMAT_BGRA8888
| VIRTIO_VIDEO_FORMAT_NV12
| VIRTIO_VIDEO_FORMAT_YUV420
| VIRTIO_VIDEO_FORMAT_YVU420
| VIRTIO_VIDEO_FORMAT_MPEG2
| VIRTIO_VIDEO_FORMAT_MPEG4
| VIRTIO_VIDEO_FORMAT_H264
| VIRTIO_VIDEO_FORMAT_HEVC
| VIRTIO_VIDEO_FORMAT_VP8
| VIRTIO_VIDEO_FORMAT_VP9
| VIRTIO_VIDEO_FORMAT_other (raw : Z).

Definition virtio_video_format_is_codec (format : virtio_video_format) : bool :=
  match format with
  | VIRTIO_VIDEO_FORMAT_ARGB8888
  | VIRTIO_VIDEO_FORMAT_BGRA8888
  | VIRTIO_VIDEO_FORMAT_NV12
  | VIRTIO_VIDEO_FORMAT_YUV420
  | VIRTIO_VIDEO_FORMAT_YVU420 => false
  | VIRTIO_VIDEO_FORMAT_MPEG2
  | VIRTIO_VIDEO_FORMAT_MPEG4
  | VIRTIO_VIDEO_FORMAT_H264
  | VIRTIO_VIDEO_FORMAT_HEVC
  | VIRTIO_VIDEO_FORMAT_VP8
  | VIRTIO_VIDEO_FORMAT_VP9 => true
  | VIRTIO_VIDEO_FORMAT_other _ => false
  end.

Definition virtio_video_format_is_valid (format : virtio_video_format)
    (num_planes : Z) : bool :=
  match format with
  | VIRTIO_VIDEO_FORMAT_ARGB8888
  | VIRTIO_VIDEO_FORMAT_BGRA8888 => num_planes =? 1
  | VIRTIO_VIDEO_FORMAT_NV12 => num_planes =? 2
  | VIRTIO_VIDEO_FORMAT_YUV420
  | VIRTIO_VIDEO_FORMAT_YVU420 => num_planes =? 3
  | VIRTIO_VIDEO_FORMAT_MPEG2
  | VIRTIO_VIDEO_FORMAT_MPEG4
  | VIRTIO_VIDEO_FORMAT_H264
  | VIRTIO_VIDEO_FORMAT_HEVC
  | VIRTIO_VIDEO_FORMAT_VP8
  | VIRTIO_VIDEO_FORMAT_VP9 => num_planes =? 1
  | VIRTIO_VIDEO_FORMAT_other _ => false
  end.

Record virtio_video_plane_format : Type := mkPlaneFormat {
  plane_size : Z;
  stride     : Z
}.

Record virtio_video_params : Type := mkParams {
  format        : virtio_video_format;
  frame_width   : Z;
  frame_height  : Z;
  num_planes    : Z;
  plane_formats : list virtio_video_plane_format
}.

(** [plane_formats[i] = pf] in an array of fixed length: an index past the
    end of the list leaves it as it is. *)
Fixpoint set_plane_format (i : nat) (pf : virtio_video_plane_format)
    (l : list virtio_video_plane_format) : list virtio_video_plane_format :=
  match l, i with
  | [], _ => []
  | _ :: rest, O => pf :: rest
  | x :: rest, S i' => x :: set_plane_format i' pf rest
  end.

(** [virtio_video_param_fixup]: the [bool] returned and the parameters as
    the call leaves them. *)
Definition virtio_video_param_fixup (params : virtio_video_params)
  : bool * virtio_video_params :=
  let w := frame_width params in
  let h := frame_height params in
  let with_planes n pfs :=
    mkParams (format params) w h n pfs in
  match format params with
  | VIRTIO_VIDEO_FORMAT_ARGB8888
  | VIRTIO_VIDEO_FORMAT_BGRA8888 =>
      if num_planes params =? 1 then (false, params)
      else
        (true,
         with_planes 1
           (set_plane_format 0
              (mkPlaneFormat (u32 (u32 (w * h) * 4)) (u32 (w * 4)))
              (plane_formats params)))
  | VIRTIO_VIDEO_FORMAT_NV12 =>
      if num_planes params =? 2 then (false, params)
      else
        (true,
         with_planes 2
           (set_plane_format 1 (mkPlaneFormat (u32 (w * h) / 2) w)
              (set_plane_format 0 (mkPlaneFormat (u32 (w * h)) w)
                 (plane_formats params))))
  | VIRTIO_VIDEO_FORMAT_YUV420
  | VIRTIO_VIDEO_FORMAT_YVU420 =>
      if num_planes params =? 3 then (false, params)
      else
        (true,
         with_planes 3
           (set_plane_format 2 (mkPlaneFormat (u32 (w * h) / 4) (w / 2))
              (set_plane_format 1 (mkPlaneFormat (u32 (w * h) / 4) (w / 2))
                 (set_plane_format 0 (mkPlaneFormat (u32 (w * h)) w)
                    (plane_formats params)))))
  | VIRTIO_VIDEO_FORMAT_MPEG2
  | VIRTIO_VIDEO_FORMAT_MPEG4
  | VIRTIO_VIDEO_FORMAT_H264
  | VIRTIO_VIDEO_FORMAT_HEVC
  | VIRTIO_VIDEO_FORMAT_VP8
  | VIRTIO_VIDEO_FORMAT_VP9 =>
      if num_planes params =? 1 then (false, params)
      else (true, with_planes 1 (plane_formats params))
  | VIRTIO_VIDEO_FORMAT_other _ => (false, params)
  end.

(** The format is one of the enumerators. *)
Definition known_format (f : virtio_video_format) : bool :=
  match f with
  | VIRTIO_VIDEO_FORMAT_other _ => false
  | _ => true
  end.

Definition params_example : virtio_video_params :=
  mkParams VIRTIO_VIDEO_FORMAT_NV12 4 2 1
    [mkPlaneFormat 0 0; mkPlaneFormat 0 0; mkPlaneFormat 0 0].

(** ** Sequences of event reports *)

(** Each event of the list is reported and the bottom half scheduled for
    it is run before the next one is reported. *)
Fixpoint report_events (reports : list (Z * Z)) : dev unit :=
  match reports with
  | [] => ret tt
  | r :: rest =>
      virtio_video_report_event (fst r) (snd r) ;;
      aio_bh_poll ;;
      report_events rest
  end.

(** The transport calls that send the event [r] (type and stream id) on
    the element [e]: push, notify, free. *)
Definition event_sent (e : VirtQueueElement) (r : Z * Z)
  : list transport_op :=
  [op_push event_vq e (virtio_video_event (fst r) (snd r))
     sizeof_virtio_video_event;
   op_notify event_vq; op_free e].

(** The test of [virtio_video_event_bh] on the element it popped. *)
Definition elem_usable (e : VirtQueueElement) : bool :=
  negb ((in_num e <? 1)
        || (Z.of_N (hd 0%N (in_sg e)) <? sizeof_virtio_video_event)).

(** [m'] is [m] after [size_Y] bytes from [Y] and, behind them, [size_UV]
    bytes from [UV] were stored from cumulative offset [pos] on. *)
Definition two_stored (ss : list VirtIOVideoResourceSlice) (m m' : mem)
    (pos size_Y Y size_UV UV : Z) : Prop :=
  (forall j, 0 <= j < size_Y -> m' (slice_addr ss (pos + j)) = m (Y + j)) /\
  (forall j, 0 <= j < size_UV ->
     m' (slice_addr ss (pos + size_Y + j)) = m (UV + j)) /\
  (forall a, (forall j, 0 <= j < size_Y + size_UV ->
                        a <> slice_addr ss (pos + j)) ->
             m' a = m a).

(** A frame of 6 + 4 bytes over the slices of lengths 5, 4 and 3. *)
Definition res_nv12 : VirtIOVideoResource :=
  mkResource VIRTIO_VIDEO_PLANES_LAYOUT_SINGLE_BUFFER [1]
    [slices_5_4_3] NULL 0.

(** ** Arithmetic and memory lemmas *)

Lemma u32_small (x : Z) : 0 <= x <= UINT32_MAX -> u32 x = x.
Proof. unfold u32, UINT32_MAX. intros H. apply Z.mod_small. lia. Qed.

Lemma ulen_small (w : len_width) (x : Z) : 0 <= x <= UINT32_MAX -> ulen w x = x.
Proof.
  unfold ulen, UINT32_MAX. intros H. apply Z.mod_small.
  destruct w; cbn [len_bits]; lia.
Qed.

Lemma MEMCPY_S_same (m : mem) (dst src n : Z) :
  MEMCPY_S m dst src n n = memcpy m dst src n.
Proof. unfold MEMCPY_S. now rewrite Z.min_id. Qed.

Lemma memcpy_inside (m : mem) (dst src n a : Z) :
  dst <= a < dst + n -> memcpy m dst src n a = m (src + (a - dst)).
Proof.
  intros H. unfold memcpy.
  destruct (Z.leb_spec dst a); destruct (Z.ltb_spec a (dst + n)); cbn; auto; lia.
Qed.

Lemma memcpy_outside (m : mem) (dst src n a : Z) :
  a < dst \/ dst + n <= a -> memcpy m dst src n a = m a.
Proof.
  intros H. unfold memcpy.
  destruct (Z.leb_spec dst a); destruct (Z.ltb_spec a (dst + n)); cbn; auto; lia.
Qed.

Lemma memcpy_empty (m : mem) (dst src n a : Z) :
  n <= 0 -> memcpy m dst src n a = m a.
Proof. intros H. apply memcpy_outside. lia. Qed.

Lemma memcpy_ext (m1 m2 : mem) (dst src n : Z) :
  (forall a, m1 a = m2 a) -> forall a, memcpy m1 dst src n a = memcpy m2 dst src n a.
Proof. intros H a. unfold memcpy. now rewrite !H. Qed.

Lemma lens_nonneg_cons (s : VirtIOVideoResourceSlice) ss :
  lens_nonneg (s :: ss) = true <-> 0 <= page_len s /\ lens_nonneg ss = true.
Proof.
  unfold lens_nonneg. cbn [forallb]. rewrite andb_true_iff, Z.leb_le. tauto.
Qed.

Lemma total_len_nonneg ss : lens_nonneg ss = true -> 0 <= total_len ss.
Proof.
  induction ss as [|s ss IH]; cbn [total_len]; [lia|].
  rewrite lens_nonneg_cons. intros [Hs Hss]. specialize (IH Hss). lia.
Qed.

(** ** Per-plane write: result code *)

Lemma memcpy_perplane_loop_ret ss : forall m src size,
  lens_nonneg ss = true -> 0 <= size <= UINT32_MAX ->
  cr_ret (memcpy_perplane_loop ss m src size)
  = if size <=? total_len ss then 0 else -1.
Proof.
  induction ss as [|s ss IH]; intros m src size Hnn Hsz; cbn [memcpy_perplane_loop total_len].
  - destruct (Z.ltb_spec 0 size); destruct (Z.leb_spec size 0); cbn; auto; lia.
  - apply lens_nonneg_cons in Hnn. destruct Hnn as [Hs Hss].
    pose proof (total_len_nonneg ss Hss) as Ht.
    destruct (Z.leb_spec size (page_len s)) as [Hle|Hgt].
    + cbn [cr_ret]. destruct (Z.leb_spec size (page_len s + total_len ss)); auto; lia.
    + rewrite IH by (auto; rewrite u32_small; lia).
      rewrite u32_small by lia.
      destruct (Z.leb_spec (size - page_len s) (total_len ss));
        destruct (Z.leb_spec size (page_len s + total_len ss)); auto; lia.
Qed.

Lemma memcpy_perplane_loop_reported ss : forall m src size,
  lens_nonneg ss = true -> 0 <= size <= UINT32_MAX ->
  cr_reported (memcpy_perplane_loop ss m src size)
  = negb (size <=? total_len ss).
Proof.
  induction ss as [|s ss IH]; intros m src size Hnn Hsz;
    cbn [memcpy_perplane_loop total_len].
  - destruct (Z.ltb_spec 0 size); destruct (Z.leb_spec size 0); cbn; auto; lia.
  - apply lens_nonneg_cons in Hnn. destruct Hnn as [Hs Hss].
    pose proof (total_len_nonneg ss Hss) as Ht.
    destruct (Z.leb_spec size (page_len s)) as [Hle|Hgt].
    + cbn [cr_reported].
      destruct (Z.leb_spec size (page_len s + total_len ss)); auto; lia.
    + rewrite IH by (auto; rewrite u32_small; lia).
      rewrite u32_small by lia.
      destruct (Z.leb_spec (size - page_len s) (total_len ss));
        destruct (Z.leb_spec size (page_len s + total_len ss)); auto; lia.
Qed.

Lemma virtio_video_memcpy_perplane_layout w m res idx src size :
  planes_layout res = VIRTIO_VIDEO_PLANES_LAYOUT_PER_PLANE ->
  virtio_video_memcpy w m res idx src size
  = memcpy_perplane_loop (plane_slices res idx) m src size.
Proof. intros H. unfold virtio_video_memcpy. rewrite H. reflexivity. Qed.

(** C1.  In the per-plane layout a write into a plane whose slices total
    [L] bytes returns 0 exactly when [size <= L] and -1 exactly when
    [size > L], and it reports the insufficient buffer exactly when it
    returns -1; a request of exactly [L] bytes succeeds and one of [L + 1]
    bytes is refused with the negative result instead of being cut short
    and reported as done. *)
Theorem perplane_write_succeeds_iff_fits :
  forall w m res idx src size,
    planes_layout res = VIRTIO_VIDEO_PLANES_LAYOUT_PER_PLANE ->
    lens_nonneg (plane_slices res idx) = true ->
    0 <= size <= UINT32_MAX ->
    let L := total_len (plane_slices res idx) in
    let result n := cr_ret (virtio_video_memcpy w m res idx src n) in
    (result size = 0 <-> size <= L) /\
    (result size = -1 <-> L < size) /\
    (cr_reported (virtio_video_memcpy w m res idx src size) = true
     <-> L < size) /\
    (L <= UINT32_MAX -> result L = 0) /\
    (L + 1 <= UINT32_MAX -> result (L + 1) = -1).
Proof.
  intros w m res idx src size Hlay Hnn Hsz L result. subst result. cbn beta.
  pose proof (total_len_nonneg _ Hnn) as HL. fold L in HL.
  rewrite !(virtio_video_memcpy_perplane_layout _ _ _ _ _ _ Hlay).
  repeat split.
  - rewrite memcpy_perplane_loop_ret by auto. fold L.
    destruct (Z.leb_spec size L); [auto | discriminate].
  - intros H. rewrite memcpy_perplane_loop_ret by auto. fold L.
    destruct (Z.leb_spec size L); [auto | lia].
  - rewrite memcpy_perplane_loop_ret by auto. fold L.
    destruct (Z.leb_spec size L); [discriminate | auto].
  - intros H. rewrite memcpy_perplane_loop_ret by auto. fold L.
    destruct (Z.leb_spec size L); [lia | auto].
  - rewrite memcpy_perplane_loop_reported by auto. fold L.
    destruct (Z.leb_spec size L); [discriminate | auto].
  - intros H. rewrite memcpy_perplane_loop_reported by auto. fold L.
    destruct (Z.leb_spec size L); [lia | auto].
  - intros H. rewrite memcpy_perplane_loop_ret by (auto; lia). fold L.
    destruct (Z.leb_spec L L); [auto | lia].
  - intros H. rewrite memcpy_perplane_loop_ret by (auto; lia). fold L.
    destruct (Z.leb_spec (L + 1) L); [lia | auto].
Qed.

Lemma perplane_write_succeeds_iff_fits_witness :
  let result n := cr_ret (virtio_video_memcpy Len64 pattern_mem res_perplane 0 0 n) in
  (result 12 = 0 <-> 12 <= 12) /\
  (result 12 = -1 <-> 12 < 12) /\
  (cr_reported (virtio_video_memcpy Len64 pattern_mem res_perplane 0 0 12) = true
   <-> 12 < 12) /\
  result 12 = 0 /\
  result 13 = -1.
Proof.
  destruct (perplane_write_succeeds_iff_fits Len64 pattern_mem res_perplane
              0%nat 0 12) as [Hiff [Hfail [Hrep [Hexact Hover]]]].
  - reflexivity.
  - reflexivity.
  - unfold UINT32_MAX. lia.
  - cbn zeta. split; [exact Hiff|]. split; [exact Hfail|].
    split; [exact Hrep|]. split.
    + apply Hexact. unfold UINT32_MAX. cbn. lia.
    + apply Hover. unfold UINT32_MAX. cbn. lia.
Defined.

(** ** Per-plane dump against per-plane read *)

Lemma memdump_perplane_loop_ret ss : forall m dst size,
  cr_ret (memdump_perplane_loop ss m dst size) = 0.
Proof.
  induction ss as [|s ss IH]; intros m dst size; cbn [memdump_perplane_loop].
  - destruct (0 <? size); reflexivity.
  - destruct (size <=? page_len s); [reflexivity | apply IH].
Qed.

Lemma memdump_perplane_loop_reported ss : forall m dst size,
  lens_nonneg ss = true -> 0 <= size <= UINT32_MAX ->
  cr_reported (memdump_perplane_loop ss m dst size)
  = negb (size <=? total_len ss).
Proof.
  induction ss as [|s ss IH]; intros m dst size Hnn Hsz;
    cbn [memdump_perplane_loop total_len].
  - destruct (Z.ltb_spec 0 size); destruct (Z.leb_spec size 0); cbn; auto; lia.
  - apply lens_nonneg_cons in Hnn. destruct Hnn as [Hs Hss].
    pose proof (total_len_nonneg ss Hss) as Ht.
    destruct (Z.leb_spec size (page_len s)) as [Hle|Hgt].
    + cbn [cr_reported].
      destruct (Z.leb_spec size (page_len s + total_len ss)); auto; lia.
    + rewrite IH by (auto; rewrite u32_small; lia).
      rewrite u32_small by lia.
      destruct (Z.leb_spec (size - page_len s) (total_len ss));
        destruct (Z.leb_spec size (page_len s + total_len ss)); auto; lia.
Qed.

Lemma memcpy_perplane_r_loop_ret ss : forall m dst pos size,
  lens_nonneg ss = true -> 0 <= size <= UINT32_MAX ->
  cr_ret (memcpy_perplane_r_loop ss m dst pos size)
  = if size <=? total_len ss then 0 else -1.
Proof.
  induction ss as [|s ss IH]; intros m dst pos size Hnn Hsz;
    cbn [memcpy_perplane_r_loop total_len].
  - destruct (Z.ltb_spec 0 size); destruct (Z.leb_spec size 0); cbn; auto; lia.
  - apply lens_nonneg_cons in Hnn. destruct Hnn as [Hs Hss].
    pose proof (total_len_nonneg ss Hss) as Ht.
    destruct (Z.leb_spec (page_len s) size) as [Hle|Hgt].
    + rewrite (u32_small (page_len s)) by lia.
      rewrite IH by (auto; rewrite u32_small; lia).
      rewrite u32_small by lia.
      destruct (Z.leb_spec (size - page_len s) (total_len ss));
        destruct (Z.leb_spec size (page_len s + total_len ss)); auto; lia.
    + rewrite IH by (auto; rewrite Z.sub_diag; cbn; unfold UINT32_MAX; lia).
      rewrite Z.sub_diag. cbn [u32 Z.modulo Z.div_eucl].
      destruct (Z.leb_spec 0 (total_len ss));
        destruct (Z.leb_spec size (page_len s + total_len ss)); auto; lia.
Qed.

Lemma memcpy_perplane_r_loop_nothing_left ss : forall m dst pos,
  lens_nonneg ss = true -> 0 <= pos <= UINT32_MAX ->
  forall a, cr_mem (memcpy_perplane_r_loop ss m dst pos 0) a = m a.
Proof.
  induction ss as [|s ss IH]; intros m dst pos Hnn Hpos a;
    cbn [memcpy_perplane_r_loop].
  - reflexivity.
  - apply lens_nonneg_cons in Hnn. destruct Hnn as [Hs Hss].
    assert (Hcur : (if page_len s <=? 0 then u32 (page_len s) else 0) = 0).
    { destruct (Z.leb_spec (page_len s) 0); [|reflexivity].
      replace (page_len s) with 0 by lia. reflexivity. }
    rewrite Hcur. rewrite MEMCPY_S_same, Z.add_0_r, (u32_small pos) by lia.
    change (u32 (0 - 0)) with 0.
    rewrite IH by auto. apply memcpy_empty. lia.
Qed.

Lemma memdump_perplane_loop_as_read ss : forall m1 m2 dst pos size,
  lens_nonneg ss = true -> 0 <= pos -> 0 <= size ->
  pos + size <= UINT32_MAX ->
  (forall a, m1 a = m2 a) ->
  forall a, cr_mem (memdump_perplane_loop ss m1 (dst + pos) size) a
            = cr_mem (memcpy_perplane_r_loop ss m2 dst pos size) a.
Proof.
  induction ss as [|s ss IH]; intros m1 m2 dst pos size Hnn Hpos Hsz Hfit Hm a;
    cbn [memdump_perplane_loop memcpy_perplane_r_loop].
  - destruct (0 <? size); apply Hm.
  - apply lens_nonneg_cons in Hnn. destruct Hnn as [Hs Hss].
    rewrite !MEMCPY_S_same.
    destruct (Z.leb_spec size (page_len s)) as [Hle|Hgt].
    + assert (Hcur : (if page_len s <=? size then u32 (page_len s) else size)
                     = size).
      { destruct (Z.leb_spec (page_len s) size); [|reflexivity].
        replace (page_len s) with size by lia. apply u32_small. lia. }
      rewrite Hcur, Z.sub_diag. change (u32 0) with 0.
      rewrite memcpy_perplane_r_loop_nothing_left
        by (auto; rewrite u32_small; lia).
      cbn [cr_mem]. now apply memcpy_ext.
    + destruct (Z.leb_spec (page_len s) size); [|lia].
      rewrite (u32_small (page_len s)) by lia.
      rewrite (u32_small (pos + page_len s)) by lia.
      rewrite <- Z.add_assoc.
      apply IH; auto; try lia.
      * rewrite u32_small; lia.
      * rewrite u32_small; lia.
      * now apply memcpy_ext.
Qed.

(** C9.  In the per-plane layout the dump leaves memory exactly as the
    read does (same slices visited, same chunks copied) and returns 0
    whatever the size; when the slices hold fewer than [size] bytes the
    dump reports the shortfall and returns 0 all the same, where the
    strict read and the strict write both return -1. *)
Theorem memdump_perplane_tolerates_shortfall :
  forall w m res idx dst size,
    planes_layout res = VIRTIO_VIDEO_PLANES_LAYOUT_PER_PLANE ->
    lens_nonneg (plane_slices res idx) = true ->
    0 <= size <= UINT32_MAX ->
    (forall a, cr_mem (virtio_video_memdump w m res idx dst size) a
               = cr_mem (virtio_video_memcpy_r w m res idx dst size) a) /\
    cr_ret (virtio_video_memdump w m res idx dst size) = 0 /\
    (total_len (plane_slices res idx) < size ->
       cr_reported (virtio_video_memdump w m res idx dst size) = true /\
       cr_ret (virtio_video_memcpy_r w m res idx dst size) = -1 /\
       forall src, cr_ret (virtio_video_memcpy w m res idx src size) = -1).
Proof.
  intros w m res idx dst size Hlay Hnn Hsz.
  unfold virtio_video_memdump, virtio_video_memcpy_r, virtio_video_memcpy.
  rewrite Hlay. cbn [Z.eqb VIRTIO_VIDEO_PLANES_LAYOUT_PER_PLANE
                     VIRTIO_VIDEO_PLANES_LAYOUT_SINGLE_BUFFER Pos.eqb].
  unfold virtio_video_memdump_perplane, virtio_video_memcpy_perplane_r,
    virtio_video_memcpy_perplane.
  split; [|split].
  - intros a.
    rewrite <- (Z.add_0_r dst) at 1.
    apply memdump_perplane_loop_as_read; auto; lia.
  - apply memdump_perplane_loop_ret.
  - intros Hshort. split; [|split].
    + rewrite memdump_perplane_loop_reported by auto.
      destruct (Z.leb_spec size (total_len (plane_slices res idx))); [lia|auto].
    + rewrite memcpy_perplane_r_loop_ret by auto.
      destruct (Z.leb_spec size (total_len (plane_slices res idx))); [lia|auto].
    + intros src. rewrite memcpy_perplane_loop_ret by auto.
      destruct (Z.leb_spec size (total_len (plane_slices res idx))); [lia|auto].
Qed.

Lemma memdump_perplane_tolerates_shortfall_witness :
  (forall a, cr_mem (virtio_video_memdump Len64 pattern_mem res_perplane 0 600 13) a
             = cr_mem (virtio_video_memcpy_r Len64 pattern_mem res_perplane 0 600 13) a) /\
  cr_ret (virtio_video_memdump Len64 pattern_mem res_perplane 0 600 13) = 0 /\
  cr_reported (virtio_video_memdump Len64 pattern_mem res_perplane 0 600 13) = true /\
  cr_ret (virtio_video_memcpy_r Len64 pattern_mem res_perplane 0 600 13) = -1 /\
  forall src, cr_ret (virtio_video_memcpy Len64 pattern_mem res_perplane 0 src 13) = -1.
Proof.
  destruct (memdump_perplane_tolerates_shortfall Len64 pattern_mem res_perplane
              0%nat 600 13) as [Hsame [Hdump Hstrict]].
  - reflexivity.
  - reflexivity.
  - unfold UINT32_MAX. lia.
  - split; [exact Hsame|]. split; [exact Hdump|].
    apply Hstrict. cbn. lia.
Defined.

(** ** Single-buffer write through the remapped region *)

(** C10.  When [remapped_base] is not NULL the single-buffer write is one
    [memcpy] of all [size] bytes to [remapped_base] and returns 0, for
    every size: [remapped_size] is not consulted, the result is the same
    whatever the slices, plane offsets and [remapped_size] are, so -1 is
    never returned and no slice is read or written. *)
Theorem singlebuffer_write_remapped_fast_path :
  forall w m res idx src size,
    planes_layout res = VIRTIO_VIDEO_PLANES_LAYOUT_SINGLE_BUFFER ->
    remapped_base res <> NULL ->
    virtio_video_memcpy w m res idx src size
    = mkCopy (memcpy m (remapped_base res) src size) 0 false /\
    (forall offs ss rsize,
       virtio_video_memcpy w m
         (mkResource (planes_layout res) offs ss (remapped_base res) rsize)
         idx src size
       = virtio_video_memcpy w m res idx src size) /\
    (forall j, 0 <= j < size ->
       cr_mem (virtio_video_memcpy w m res idx src size) (remapped_base res + j)
       = m (src + j)) /\
    (forall a, a < remapped_base res \/ remapped_base res + size <= a ->
       cr_mem (virtio_video_memcpy w m res idx src size) a = m a).
Proof.
  intros w m res idx src size Hlay Hrb.
  assert (Heq : forall offs ss rsize,
             virtio_video_memcpy w m
               (mkResource (planes_layout res) offs ss (remapped_base res) rsize)
               idx src size
             = mkCopy (memcpy m (remapped_base res) src size) 0 false).
  { intros offs ss rsize.
    unfold virtio_video_memcpy, virtio_video_memcpy_singlebuffer.
    cbn [planes_layout remapped_base]. rewrite Hlay, Z.eqb_refl.
    destruct (Z.eqb_spec (remapped_base res) NULL); [contradiction|].
    reflexivity. }
  assert (Hres : virtio_video_memcpy w m res idx src size
                 = mkCopy (memcpy m (remapped_base res) src size) 0 false).
  { destruct res as [lay offs ss rb rsize]. apply (Heq offs ss rsize). }
  split; [exact Hres|]. split; [|split].
  - intros offs ss rsize. now rewrite Heq, Hres.
  - intros j Hj. rewrite Hres. cbn [cr_mem].
    rewrite memcpy_inside by lia. f_equal. lia.
  - intros a Ha. rewrite Hres. cbn [cr_mem]. now apply memcpy_outside.
Qed.

Lemma singlebuffer_write_remapped_fast_path_witness :
  virtio_video_memcpy Len64 pattern_mem res_remapped 1 40 20
  = mkCopy (memcpy pattern_mem (remapped_base res_remapped) 40 20) 0 false /\
  (forall offs ss rsize,
     virtio_video_memcpy Len64 pattern_mem
       (mkResource (planes_layout res_remapped) offs ss
          (remapped_base res_remapped) rsize) 1 40 20
     = virtio_video_memcpy Len64 pattern_mem res_remapped 1 40 20) /\
  (forall j, 0 <= j < 20 ->
     cr_mem (virtio_video_memcpy Len64 pattern_mem res_remapped 1 40 20)
       (remapped_base res_remapped + j) = pattern_mem (40 + j)) /\
  (forall a, a < remapped_base res_remapped \/ remapped_base res_remapped + 20 <= a ->
     cr_mem (virtio_video_memcpy Len64 pattern_mem res_remapped 1 40 20) a
     = pattern_mem a).
Proof.
  apply (singlebuffer_write_remapped_fast_path Len64 pattern_mem res_remapped 1%nat 40 20).
  - reflexivity.
  - cbn. discriminate.
Defined.

(** ** Single-buffer read: no exhaustion check *)

Lemma memcpy_singlebuffer_r_loop_ret w ss : forall m pDst size begin pos,
  cr_ret (memcpy_singlebuffer_r_loop w ss m pDst size begin pos) = 0.
Proof.
  induction ss as [|s ss IH]; intros m pDst size begin pos;
    cbn [memcpy_singlebuffer_r_loop].
  - reflexivity.
  - destruct (ulen w (pos + page_len s) <=? begin); apply IH.
Qed.

Lemma memcpy_singlebuffer_r_loop_reported w ss : forall m pDst size begin pos,
  cr_reported (memcpy_singlebuffer_r_loop w ss m pDst size begin pos) = false.
Proof.
  induction ss as [|s ss IH]; intros m pDst size begin pos;
    cbn [memcpy_singlebuffer_r_loop].
  - reflexivity.
  - destruct (ulen w (pos + page_len s) <=? begin); apply IH.
Qed.

(** Whatever the slices and the size, the single-buffer read to a non-NULL
    buffer returns 0 and reports nothing. *)
Lemma singlebuffer_read_never_fails w m res idx dst size :
  planes_layout res = VIRTIO_VIDEO_PLANES_LAYOUT_SINGLE_BUFFER ->
  dst <> NULL ->
  cr_ret (virtio_video_memcpy_r w m res idx dst size) = 0 /\
  cr_reported (virtio_video_memcpy_r w m res idx dst size) = false.
Proof.
  intros Hlay Hdst. unfold virtio_video_memcpy_r. rewrite Hlay, Z.eqb_refl.
  unfold virtio_video_memcpy_singlebuffer_r.
  destruct (Z.eqb_spec dst NULL); [contradiction|].
  split; [apply memcpy_singlebuffer_r_loop_ret
         | apply memcpy_singlebuffer_r_loop_reported].
Qed.

(** C3, at a failing input.  Three slices hold 12 bytes; a single-buffer
    read of 13 bytes from plane 0 returns 0 and reports nothing although
    one byte was never copied, while the single-buffer write and the
    per-plane read of the same 13 bytes over the same slices return -1. *)
Theorem singlebuffer_read_reports_success_on_shortfall :
  total_len (plane_slices res_single 0) = 12 /\
  cr_ret (virtio_video_memcpy_r Len32 pattern_mem res_single 0 600 13) = 0 /\
  cr_ret (virtio_video_memcpy_r Len64 pattern_mem res_single 0 600 13) = 0 /\
  cr_reported (virtio_video_memcpy_r Len64 pattern_mem res_single 0 600 13)
  = false /\
  cr_ret (virtio_video_memcpy Len64 pattern_mem res_single 0 600 13) = -1 /\
  cr_ret (virtio_video_memcpy_r Len64 pattern_mem res_perplane 0 600 13) = -1.
Proof. repeat split; vm_compute; reflexivity. Qed.

(** ** Addresses of a slice sequence *)

Lemma ranges_apart_spec b1 n1 b2 n2 a :
  ranges_apart b1 n1 b2 n2 = true ->
  b1 <= a < b1 + n1 -> b2 <= a < b2 + n2 -> False.
Proof.
  unfold ranges_apart. rewrite !orb_true_iff, !Z.leb_le. lia.
Qed.

Lemma in_slice_spec s a :
  in_slice s a = true <-> page_base s <= a < page_base s + page_len s.
Proof.
  unfold in_slice. rewrite andb_true_iff, Z.leb_le, Z.ltb_lt. tauto.
Qed.

Lemma in_slices_cons s ss a :
  in_slices (s :: ss) a = in_slice s a || in_slices ss a.
Proof. reflexivity. Qed.

Lemma in_slices_false_cons s ss a :
  in_slices (s :: ss) a = false <->
  ~ (page_base s <= a < page_base s + page_len s) /\ in_slices ss a = false.
Proof.
  rewrite in_slices_cons, orb_false_iff, <- in_slice_spec.
  destruct (in_slice s a); intuition congruence.
Qed.

Lemma slice_apart_not_in s ss a :
  forallb (slice_apart s) ss = true ->
  page_base s <= a < page_base s + page_len s ->
  in_slices ss a = false.
Proof.
  induction ss as [|t ss IH]; intros Hap Ha; [reflexivity|].
  cbn [forallb] in Hap. apply andb_true_iff in Hap. destruct Hap as [Ht Hss].
  apply in_slices_false_cons. split; [|now apply IH].
  intros Hin. exact (ranges_apart_spec _ _ _ _ a Ht Ha Hin).
Qed.

Lemma buffer_apart_cons p n s ss :
  buffer_apart p n (s :: ss) = true <->
  ranges_apart p n (page_base s) (page_len s) = true /\
  buffer_apart p n ss = true.
Proof. unfold buffer_apart. cbn [forallb]. now rewrite andb_true_iff. Qed.

Lemma buffer_apart_not_in p n ss a :
  buffer_apart p n ss = true -> p <= a < p + n -> in_slices ss a = false.
Proof.
  induction ss as [|t ss IH]; intros Hap Ha; [reflexivity|].
  apply buffer_apart_cons in Hap. destruct Hap as [Ht Hss].
  apply in_slices_false_cons. split; [|now apply IH].
  intros Hin. exact (ranges_apart_spec _ _ _ _ a Ht Ha Hin).
Qed.

Lemma ranges_apart_sub p n q k b l :
  ranges_apart p n b l = true -> p <= q -> q + k <= p + n ->
  ranges_apart q k b l = true.
Proof.
  unfold ranges_apart. rewrite !orb_true_iff, !Z.leb_le. lia.
Qed.

Lemma buffer_apart_sub p n q k ss :
  buffer_apart p n ss = true -> p <= q -> q + k <= p + n ->
  buffer_apart q k ss = true.
Proof.
  induction ss as [|t ss IH]; intros Hap Hq Hk; [reflexivity|].
  apply buffer_apart_cons in Hap. destruct Hap as [Ht Hss].
  apply buffer_apart_cons. split; [|now apply IH].
  eapply ranges_apart_sub; eauto.
Qed.

Lemma slice_addr_head s ss off :
  off < page_len s -> slice_addr (s :: ss) off = page_base s + off.
Proof.
  intros H. cbn [slice_addr]. destruct (Z.ltb_spec off (page_len s)); [auto|lia].
Qed.

Lemma slice_addr_tail s ss off :
  page_len s <= off -> slice_addr (s :: ss) off = slice_addr ss (off - page_len s).
Proof.
  intros H. cbn [slice_addr]. destruct (Z.ltb_spec off (page_len s)); [lia|auto].
Qed.

Lemma slice_addr_in_slices ss : forall off,
  lens_nonneg ss = true -> 0 <= off < total_len ss ->
  in_slices ss (slice_addr ss off) = true.
Proof.
  induction ss as [|s ss IH]; intros off Hnn Hoff; cbn [total_len] in Hoff.
  - lia.
  - apply lens_nonneg_cons in Hnn. destruct Hnn as [Hs Hss].
    rewrite in_slices_cons. apply orb_true_iff.
    destruct (Z.lt_ge_cases off (page_len s)) as [Hlt|Hge].
    + left. rewrite slice_addr_head by auto. apply in_slice_spec. lia.
    + right. rewrite slice_addr_tail by auto. apply IH; auto. lia.
Qed.

(** ** Per-plane write and read: memory effect *)

Lemma memcpy_perplane_loop_effect ss : forall m src size,
  lens_nonneg ss = true -> slices_disjoint ss = true ->
  0 <= size <= total_len ss -> size <= UINT32_MAX ->
  buffer_apart src size ss = true ->
  (forall j, 0 <= j < size ->
     cr_mem (memcpy_perplane_loop ss m src size) (slice_addr ss j) = m (src + j)) /\
  (forall a, in_slices ss a = false ->
     cr_mem (memcpy_perplane_loop ss m src size) a = m a).
Proof.
  induction ss as [|s ss IH]; intros m src size Hnn Hdis Hsz Hmax Hsrc;
    cbn [memcpy_perplane_loop total_len] in *.
  - split; [intros j Hj; lia | destruct (0 <? size); reflexivity].
  - apply lens_nonneg_cons in Hnn. destruct Hnn as [Hs Hss].
    cbn [slices_disjoint] in Hdis. apply andb_true_iff in Hdis.
    destruct Hdis as [Hap Hdis].
    apply buffer_apart_cons in Hsrc. destruct Hsrc as [Hsrc_s Hsrc_ss].
    rewrite !MEMCPY_S_same.
    destruct (Z.leb_spec size (page_len s)) as [Hle|Hgt]; cbn [cr_mem].
    + split.
      * intros j Hj. rewrite slice_addr_head by lia.
        rewrite memcpy_inside by lia. f_equal. lia.
      * intros a Ha. apply in_slices_false_cons in Ha. destruct Ha as [Ha _].
        apply memcpy_outside. lia.
    + rewrite (u32_small (size - page_len s)) by lia.
      destruct (IH (memcpy m (page_base s) src (page_len s))
                  (src + page_len s) (size - page_len s))
        as [IHdata IHframe]; auto; try lia.
      { eapply buffer_apart_sub; eauto; lia. }
      split.
      * intros j Hj.
        destruct (Z.lt_ge_cases j (page_len s)) as [Hlt|Hge].
        -- rewrite slice_addr_head by auto.
           rewrite IHframe by (apply (slice_apart_not_in s); auto; lia).
           rewrite memcpy_inside by lia. f_equal. lia.
        -- rewrite slice_addr_tail by auto.
           rewrite IHdata by lia.
           rewrite memcpy_outside.
           ++ f_equal. lia.
           ++ assert (Hno : ~ (page_base s <= src + page_len s + (j - page_len s)
                                < page_base s + page_len s)).
              { intros Hin.
                apply (ranges_apart_spec _ _ _ _
                         (src + page_len s + (j - page_len s)) Hsrc_s); lia. }
              lia.
      * intros a Ha. apply in_slices_false_cons in Ha. destruct Ha as [Ha Hass].
        rewrite IHframe by auto. apply memcpy_outside. lia.
Qed.

Lemma memcpy_perplane_r_loop_effect ss : forall m dst pos size,
  lens_nonneg ss = true ->
  0 <= pos -> 0 <= size <= total_len ss -> pos + size <= UINT32_MAX ->
  buffer_apart (dst + pos) size ss = true ->
  (forall j, 0 <= j < size ->
     cr_mem (memcpy_perplane_r_loop ss m dst pos size) (dst + pos + j)
     = m (slice_addr ss j)) /\
  (forall a, a < dst + pos \/ dst + pos + size <= a ->
     cr_mem (memcpy_perplane_r_loop ss m dst pos size) a = m a).
Proof.
  induction ss as [|s ss IH]; intros m dst pos size Hnn Hpos Hsz Hmax Hdst;
    cbn [memcpy_perplane_r_loop total_len] in *.
  - split; [intros j Hj; lia | destruct (0 <? size); reflexivity].
  - apply lens_nonneg_cons in Hnn. destruct Hnn as [Hs Hss].
    apply buffer_apart_cons in Hdst. destruct Hdst as [Hdst_s Hdst_ss].
    rewrite !MEMCPY_S_same.
    set (cur := if page_len s <=? size then u32 (page_len s) else size).
    assert (Hcur : cur = Z.min (page_len s) size).
    { unfold cur. destruct (Z.leb_spec (page_len s) size).
      - rewrite u32_small by lia. lia.
      - lia. }
    rewrite Hcur.
    set (c := Z.min (page_len s) size) in *.
    assert (Hc : 0 <= c <= size /\ c <= page_len s) by (unfold c; lia).
    rewrite (u32_small (pos + c)), (u32_small (size - c)) by lia.
    destruct (IH (memcpy m (dst + pos) (page_base s) c) dst (pos + c) (size - c))
      as [IHdata IHframe]; auto; try lia.
    { pose proof (total_len_nonneg ss Hss). unfold c. lia. }
    { eapply buffer_apart_sub; eauto; lia. }
    split.
    + intros j Hj.
      destruct (Z.lt_ge_cases j c) as [Hlt|Hge].
      * rewrite IHframe by lia.
        rewrite memcpy_inside by lia.
        rewrite slice_addr_head by lia. f_equal. lia.
      * assert (Hclen : c = page_len s) by (unfold c in *; lia).
        replace (dst + pos + j) with (dst + (pos + c) + (j - c)) by lia.
        rewrite IHdata by lia.
        rewrite slice_addr_tail by lia. rewrite <- Hclen.
        assert (Hin : in_slices ss (slice_addr ss (j - c)) = true).
        { apply slice_addr_in_slices; auto. lia. }
        apply memcpy_outside.
        destruct (Z.lt_ge_cases (slice_addr ss (j - c)) (dst + pos)); [auto|].
        destruct (Z.lt_ge_cases (slice_addr ss (j - c)) (dst + pos + c)); [|auto].
        rewrite (buffer_apart_not_in (dst + pos) size ss) in Hin; [discriminate|auto|lia].
    + intros a Ha. rewrite IHframe by lia. apply memcpy_outside. lia.
Qed.

(** C2.  In the per-plane layout, for every plane, every sequence of
    slices (whatever their number and lengths) and every [size] that the
    slices can hold, a write of [size] bytes followed by a read of [size]
    bytes from the same plane succeeds twice and delivers the bytes the
    source buffer held, provided the slices are distinct memory fragments
    and neither buffer lies within them. *)
Theorem perplane_write_then_read_roundtrip :
  forall w m res idx src dst size,
    planes_layout res = VIRTIO_VIDEO_PLANES_LAYOUT_PER_PLANE ->
    lens_nonneg (plane_slices res idx) = true ->
    slices_disjoint (plane_slices res idx) = true ->
    0 <= size <= total_len (plane_slices res idx) ->
    size <= UINT32_MAX ->
    buffer_apart src size (plane_slices res idx) = true ->
    buffer_apart dst size (plane_slices res idx) = true ->
    let written := virtio_video_memcpy w m res idx src size in
    let read := virtio_video_memcpy_r w (cr_mem written) res idx dst size in
    cr_ret written = 0 /\ cr_ret read = 0 /\
    forall j, 0 <= j < size -> cr_mem read (dst + j) = m (src + j).
Proof.
  intros w m res idx src dst size Hlay Hnn Hdis Hsz Hmax Hsrc Hdst written read.
  subst written read.
  unfold virtio_video_memcpy, virtio_video_memcpy_r.
  rewrite Hlay. cbn [Z.eqb VIRTIO_VIDEO_PLANES_LAYOUT_PER_PLANE
                     VIRTIO_VIDEO_PLANES_LAYOUT_SINGLE_BUFFER Pos.eqb].
  unfold virtio_video_memcpy_perplane, virtio_video_memcpy_perplane_r.
  set (ss := plane_slices res idx) in *.
  destruct (memcpy_perplane_loop_effect ss m src size) as [Wdata _]; auto.
  destruct (memcpy_perplane_r_loop_effect ss
              (cr_mem (memcpy_perplane_loop ss m src size)) dst 0 size)
    as [Rdata _]; auto; try lia.
  { now rewrite Z.add_0_r. }
  split; [|split].
  - rewrite memcpy_perplane_loop_ret by (auto; lia).
    destruct (Z.leb_spec size (total_len ss)); [auto|lia].
  - rewrite memcpy_perplane_r_loop_ret by (auto; lia).
    destruct (Z.leb_spec size (total_len ss)); [auto|lia].
  - intros j Hj. specialize (Rdata j Hj). rewrite Z.add_0_r in Rdata.
    rewrite Rdata. now apply Wdata.
Qed.

Lemma perplane_write_then_read_roundtrip_witness :
  let written := virtio_video_memcpy Len64 pattern_mem res_perplane 0 10 8 in
  let read := virtio_video_memcpy_r Len64 (cr_mem written) res_perplane 0 600 8 in
  cr_ret written = 0 /\ cr_ret read = 0 /\
  forall j, 0 <= j < 8 -> cr_mem read (600 + j) = pattern_mem (10 + j).
Proof.
  apply (perplane_write_then_read_roundtrip Len64 pattern_mem res_perplane 0%nat 10 600 8).
  - reflexivity.
  - reflexivity.
  - reflexivity.
  - cbn. lia.
  - unfold UINT32_MAX. lia.
  - reflexivity.
  - reflexivity.
Defined.

(** ** Single-buffer write: what lies before the plane offset *)

Lemma slice_addr_injective ss : forall o1 o2,
  lens_nonneg ss = true -> slices_disjoint ss = true ->
  0 <= o1 < o2 -> o2 < total_len ss ->
  slice_addr ss o1 <> slice_addr ss o2.
Proof.
  induction ss as [|s ss IH]; intros o1 o2 Hnn Hdis Ho1 Ho2;
    cbn [total_len] in Ho2.
  - lia.
  - apply lens_nonneg_cons in Hnn. destruct Hnn as [Hs Hss].
    cbn [slices_disjoint] in Hdis. apply andb_true_iff in Hdis.
    destruct Hdis as [Hap Hdis].
    destruct (Z.lt_ge_cases o2 (page_len s)) as [H2|H2].
    + rewrite !slice_addr_head by lia. lia.
    + rewrite (slice_addr_tail s ss o2) by auto.
      destruct (Z.lt_ge_cases o1 (page_len s)) as [H1|H1].
      * rewrite slice_addr_head by auto. intros Heq.
        assert (Hin : in_slices ss (slice_addr ss (o2 - page_len s)) = true)
          by (apply slice_addr_in_slices; auto; lia).
        rewrite <- Heq in Hin.
        rewrite (slice_apart_not_in s ss) in Hin; [discriminate|auto|lia].
      * rewrite slice_addr_tail by auto. apply IH; auto; lia.
Qed.





(** ** Line-strided write *)

Lemma prefix_len_0 ss : prefix_len ss 0 = 0.
Proof. reflexivity. Qed.

Lemma prefix_len_cons s ss p :
  prefix_len (s :: ss) (S p) = page_len s + prefix_len ss p.
Proof. reflexivity. Qed.

Lemma prefix_len_S ss : forall p s,
  nth_error ss p = Some s ->
  prefix_len ss (S p) = prefix_len ss p + page_len s.
Proof.
  induction ss as [|t ss IH]; intros p s Hp.
  - destruct p; discriminate.
  - destruct p as [|p]; cbn [nth_error] in Hp.
    + injection Hp as ->. unfold prefix_len. cbn. lia.
    + rewrite !prefix_len_cons, (IH p s Hp). lia.
Qed.

Lemma prefix_len_bounds ss : forall p,
  lens_nonneg ss = true -> 0 <= prefix_len ss p <= total_len ss.
Proof.
  induction ss as [|t ss IH]; intros p Hnn.
  - destruct p; unfold prefix_len; cbn; lia.
  - apply lens_nonneg_cons in Hnn. destruct Hnn as [Ht Hss].
    pose proof (total_len_nonneg ss Hss).
    destruct p as [|p].
    + rewrite prefix_len_0. cbn [total_len]. lia.
    + rewrite prefix_len_cons. cbn [total_len]. specialize (IH p Hss). lia.
Qed.

Lemma prefix_len_all ss p :
  (length ss <= p)%nat -> prefix_len ss p = total_len ss.
Proof. intros H. unfold prefix_len. now rewrite firstn_all2. Qed.

Lemma slice_within_total ss p s :
  lens_nonneg ss = true -> nth_error ss p = Some s ->
  0 <= page_len s /\ prefix_len ss p + page_len s <= total_len ss.
Proof.
  intros Hnn Hp.
  pose proof (prefix_len_bounds ss (S p) Hnn) as HS.
  pose proof (prefix_len_bounds ss p Hnn) as Hb.
  rewrite (prefix_len_S ss p s Hp) in HS.
  split; [|lia].
  unfold lens_nonneg in Hnn. rewrite forallb_forall in Hnn.
  apply Z.leb_le. apply Hnn. eapply nth_error_In; eauto.
Qed.

Lemma slice_addr_at ss : forall p s d,
  lens_nonneg ss = true -> nth_error ss p = Some s ->
  0 <= d < page_len s ->
  slice_addr ss (prefix_len ss p + d) = page_base s + d.
Proof.
  induction ss as [|t ss IH]; intros p s d Hnn Hp Hd.
  - destruct p; discriminate.
  - apply lens_nonneg_cons in Hnn. destruct Hnn as [Ht Hss].
    destruct p as [|p]; cbn [nth_error] in Hp.
    + injection Hp as ->. rewrite prefix_len_0, Z.add_0_l.
      apply slice_addr_head. lia.
    + rewrite prefix_len_cons.
      pose proof (prefix_len_bounds ss p Hss).
      rewrite slice_addr_tail by lia.
      replace (page_len t + prefix_len ss p + d - page_len t)
        with (prefix_len ss p + d) by lia.
      now apply IH.
Qed.

Lemma source_not_slice_addr ss q n c off :
  lens_nonneg ss = true -> buffer_apart q n ss = true ->
  0 <= c < n -> 0 <= off < total_len ss ->
  q + c <> slice_addr ss off.
Proof.
  intros Hnn Hap Hc Hoff Heq.
  pose proof (slice_addr_in_slices ss off Hnn Hoff) as Hin.
  rewrite <- Heq in Hin.
  rewrite (buffer_apart_not_in q n ss) in Hin; [discriminate|auto|lia].
Qed.

Lemma stored_memcpy ss m p s d n q :
  lens_nonneg ss = true -> nth_error ss p = Some s ->
  0 <= d -> d + n <= page_len s ->
  stored ss m (memcpy m (page_base s + d) q n) (prefix_len ss p + d) n q.
Proof.
  intros Hnn Hp Hd Hn. split.
  - intros c Hc.
    replace (prefix_len ss p + d + c) with (prefix_len ss p + (d + c)) by lia.
    rewrite (slice_addr_at ss p s) by (auto; lia).
    rewrite memcpy_inside by lia. f_equal. lia.
  - intros a Ha. apply memcpy_outside.
    destruct (Z.lt_ge_cases a (page_base s + d)); [auto|].
    destruct (Z.lt_ge_cases a (page_base s + d + n)); [|auto].
    exfalso. apply (Ha (a - (page_base s + d))); [lia|].
    replace (prefix_len ss p + d + (a - (page_base s + d)))
      with (prefix_len ss p + (a - page_base s)) by lia.
    rewrite (slice_addr_at ss p s) by (auto; lia). lia.
Qed.

Lemma stored_app ss m m1 m2 pos n1 n2 q :
  lens_nonneg ss = true -> slices_disjoint ss = true ->
  0 <= pos -> 0 <= n1 -> 0 <= n2 -> pos + n1 + n2 <= total_len ss ->
  buffer_apart q (n1 + n2) ss = true ->
  stored ss m m1 pos n1 q ->
  stored ss m1 m2 (pos + n1) n2 (q + n1) ->
  stored ss m m2 pos (n1 + n2) q.
Proof.
  intros Hnn Hdis Hpos Hn1 Hn2 Hfit Hsrc [D1 F1] [D2 F2]. split.
  - intros c Hc.
    destruct (Z.lt_ge_cases c n1) as [Hlt|Hge].
    + rewrite F2.
      * apply D1. lia.
      * intros c' Hc'. apply slice_addr_injective; auto; lia.
    + replace (pos + c) with (pos + n1 + (c - n1)) by lia.
      rewrite D2 by lia.
      replace (q + n1 + (c - n1)) with (q + c) by lia.
      apply F1. intros c' Hc'.
      apply (source_not_slice_addr ss q (n1 + n2)); auto; lia.
  - intros a Ha. rewrite F2, F1; auto.
    + intros c Hc. apply Ha. lia.
    + intros c Hc. replace (pos + n1 + c) with (pos + (n1 + c)) by lia.
      apply Ha. lia.
Qed.

Lemma slice_at_nat ss p : slice_at ss (Z.of_nat p) = nth_error ss p.
Proof.
  unfold slice_at. destruct (Z.ltb_spec (Z.of_nat p) 0); [lia|].
  now rewrite Nat2Z.id.
Qed.

Lemma byline_carry_no_margin ss n0 width pitch fuel st :
  bl_margin st = 0 -> byline_carry ss n0 width pitch fuel st = Done st.
Proof. intros H. destruct fuel; cbn [byline_carry]; rewrite H; reflexivity. Qed.

Section BylineSpec.
Variable ss : list VirtIOVideoResourceSlice.
Variables src_begin src_uv width height pitch begin : Z.
Hypothesis Hnn : lens_nonneg ss = true.
Hypothesis Hdis : slices_disjoint ss = true.
Hypothesis Hmax : total_len ss <= UINT32_MAX.
Hypothesis Hwidth : 0 <= width <= pitch.
Hypothesis Hpitch : pitch <= UINT32_MAX.

Lemma byline_carry_spec : forall fuel p s m q dg lg sz mg,
  nth_error ss p = Some s -> (length ss - p <= fuel)%nat ->
  0 < mg <= width ->
  prefix_len ss (S p) + mg <= total_len ss ->
  buffer_apart q mg ss = true ->
  exists st',
    byline_carry ss (Z.of_nat (length ss)) width pitch fuel
      (mkByline m q (Z.of_nat p) dg lg sz mg) = Done st' /\
    at_cursor ss st' (prefix_len ss (S p) + mg) /\
    bl_src st' = q + mg + (pitch - width) /\
    stored ss m (bl_mem st') (prefix_len ss (S p)) mg q.
Proof.
  induction fuel as [|fuel IH]; intros p s m q dg lg sz mg Hp Hfuel Hmg Hfit Hsrc.
  - assert (p < length ss)%nat by (apply nth_error_Some; congruence). lia.
  - assert (Hplt : (p < length ss)%nat) by (apply nth_error_Some; congruence).
    cbn [byline_carry bl_margin bl_page bl_mem bl_src bl_size].
    destruct (Z.ltb_spec 0 mg); [|lia].
    destruct (Z.ltb_spec (Z.of_nat p) (Z.of_nat (length ss))); [|lia].
    cbn [andb].
    replace (Z.of_nat p + 1) with (Z.of_nat (S p)) by lia.
    rewrite slice_at_nat.
    destruct (nth_error ss (S p)) as [s'|] eqn:Hp'.
    2:{ apply nth_error_None in Hp'.
        rewrite (prefix_len_all ss (S p)) in Hfit by auto. lia. }
    destruct (slice_within_total ss (S p) s' Hnn Hp') as [Hlen' Htot'].
    pose proof (prefix_len_bounds ss (S p) Hnn) as Hpre.
    rewrite (u32_small (page_len s')) by lia.
    rewrite !MEMCPY_S_same.
    assert (Hfirst : forall n, 0 <= n -> n <= page_len s' ->
              stored ss m (memcpy m (page_base s') q n)
                (prefix_len ss (S p)) n q).
    { intros n Hn0 Hn.
      pose proof (stored_memcpy ss m (S p) s' 0 n q Hnn Hp') as Hst.
      rewrite !Z.add_0_r in Hst. apply Hst; lia. }
    destruct (Z.leb_spec mg (page_len s')) as [Hle|Hgt].
    + rewrite byline_carry_no_margin by reflexivity.
      eexists. split; [reflexivity|].
      cbn [bl_src bl_mem]. split; [|split].
      * exists (S p), s'. cbn [bl_page bl_diff bl_len].
        rewrite (u32_small (page_len s' - mg)) by lia.
        repeat split; auto; lia.
      * rewrite u32_small by lia. lia.
      * apply Hfirst; lia.
    + rewrite (u32_small (mg - page_len s')) by lia.
      destruct (IH (S p) s' (memcpy m (page_base s') q (page_len s'))
                  (q + page_len s') 0 (page_len s')
                  (u32 (sz - page_len s')) (mg - page_len s'))
        as [st' [Hrun [Hcur [Hsrc' Hst']]]]; auto; try lia.
      { rewrite (prefix_len_S ss (S p) s' Hp'). lia. }
      { eapply buffer_apart_sub; eauto; lia. }
      exists st'. split; [exact Hrun|]. split; [|split].
      * rewrite (prefix_len_S ss (S p) s' Hp') in Hcur.
        replace (prefix_len ss (S p) + mg)
          with (prefix_len ss (S p) + page_len s' + (mg - page_len s')) by lia.
        exact Hcur.
      * rewrite Hsrc'. lia.
      * replace mg with (page_len s' + (mg - page_len s')) at 1 by lia.
        apply (stored_app ss m (memcpy m (page_base s') q (page_len s')));
          auto; try lia.
        -- replace (page_len s' + (mg - page_len s')) with mg by lia. auto.
        -- apply Hfirst; lia.
        -- rewrite <- (prefix_len_S ss (S p) s' Hp'). exact Hst'.
Qed.

(** One turn of the outer loop stores one row and moves the cursor on by
    [width]. *)
Lemma byline_row_step rows i st pos :
  at_cursor ss st pos -> 0 <= pos -> pos + width <= total_len ss ->
  let q := if i =? height then src_uv else bl_src st in
  buffer_apart q width ss = true ->
  exists st',
    byline_rows ss (Z.of_nat (length ss)) src_uv width height pitch
      (S rows) i st
    = byline_rows ss (Z.of_nat (length ss)) src_uv width height pitch
        rows (i + 1) st' /\
    at_cursor ss st' (pos + width) /\
    bl_src st' = q + pitch /\
    stored ss (bl_mem st) (bl_mem st') pos width q.
Proof.
  intros [p [s [Hpage [Hp [Hdiff [Hlen [Hsum Hpos]]]]]]] Hpos0 Hfit q Hsrc.
  assert (Hplt : (p < length ss)%nat) by (apply nth_error_Some; congruence).
  destruct (slice_within_total ss p s Hnn Hp) as [Hslen Hstot].
  pose proof (prefix_len_bounds ss p Hnn) as Hpre.
  cbn [byline_rows]. rewrite Hpage.
  destruct (Z.ltb_spec (Z.of_nat p) (Z.of_nat (length ss))); [|lia].
  rewrite slice_at_nat, Hp. fold q. rewrite !MEMCPY_S_same.
  destruct (Z.leb_spec width (bl_len st)) as [Hle|Hgt].
  - eexists. split; [reflexivity|].
    cbn [bl_src bl_mem]. split; [|split].
    + exists p, s. cbn [bl_page bl_diff bl_len].
      rewrite (u32_small (bl_diff st + width)), (u32_small (bl_len st - width))
        by lia.
      repeat split; auto; lia.
    + reflexivity.
    + rewrite <- Hpos. apply stored_memcpy; auto; lia.
  - rewrite (u32_small (width - bl_len st)) by lia.
    destruct (byline_carry_spec (Z.to_nat (Z.of_nat (length ss) - Z.of_nat p))
                p s (memcpy (bl_mem st) (page_base s + bl_diff st) q (bl_len st))
                (q + bl_len st) (u32 (bl_diff st + bl_len st)) (bl_len st)
                (u32 (bl_size st - bl_len st)) (width - bl_len st))
      as [st' [Hrun [Hcur [Hsrc' Hst']]]]; auto; try lia.
    { rewrite (prefix_len_S ss p s Hp). lia. }
    { eapply buffer_apart_sub; eauto; lia. }
    rewrite Hrun. exists st'. split; [reflexivity|].
    rewrite (prefix_len_S ss p s Hp) in Hcur, Hst'.
    split; [|split].
    + replace (pos + width)
        with (prefix_len ss p + page_len s + (width - bl_len st)) by lia.
      exact Hcur.
    + rewrite Hsrc'. lia.
    + replace width with (bl_len st + (width - bl_len st)) at 1 by lia.
      apply (stored_app ss (bl_mem st)
               (memcpy (bl_mem st) (page_base s + bl_diff st) q (bl_len st)));
        auto; try lia.
      * replace (bl_len st + (width - bl_len st)) with width by lia. auto.
      * rewrite <- Hpos. apply stored_memcpy; auto; lia.
      * replace (pos + bl_len st) with (prefix_len ss p + page_len s) by lia.
        exact Hst'.
Qed.

Lemma row_pointer_next i :
  i + 1 <> height ->
  row_pointer src_begin src_uv height pitch i + pitch
  = row_pointer src_begin src_uv height pitch (i + 1).
Proof.
  intros Hi. unfold row_pointer.
  destruct (Z.ltb_spec i height); destruct (Z.ltb_spec (i + 1) height); lia.
Qed.

Lemma row_pointer_at_height :
  row_pointer src_begin src_uv height pitch height = src_uv.
Proof. unfold row_pointer. rewrite Z.ltb_irrefl. lia. Qed.

Lemma rows_done_next m0 m m' i :
  0 <= i -> 0 <= begin -> begin + (i + 1) * width <= total_len ss ->
  buffer_apart (row_pointer src_begin src_uv height pitch i) width ss = true ->
  rows_done ss src_begin src_uv width height pitch begin m0 m i ->
  stored ss m m' (begin + i * width) width
    (row_pointer src_begin src_uv height pitch i) ->
  rows_done ss src_begin src_uv width height pitch begin m0 m' (i + 1).
Proof.
  intros Hi Hb Hfit Hsrc [Ddone Fdone] [Drow Frow]. split.
  - intros r c Hr Hc.
    destruct (Z.eq_dec r i) as [->|Hne].
    + rewrite Drow by lia.
      apply Fdone. intros off Hoff.
      apply (source_not_slice_addr ss _ width); auto; nia.
    + rewrite Frow.
      * apply Ddone; lia.
      * intros c' Hc'. apply slice_addr_injective; auto; nia.
  - intros a Ha. rewrite Frow, Fdone; auto.
    + intros off Hoff. apply Ha. nia.
    + intros c Hc. apply Ha. nia.
Qed.

Lemma byline_rows_spec m0 : forall rows i st,
  0 <= i -> 0 <= begin ->
  at_cursor ss st (begin + i * width) ->
  (i <> height -> bl_src st = row_pointer src_begin src_uv height pitch i) ->
  rows_done ss src_begin src_uv width height pitch begin m0 (bl_mem st) i ->
  begin + (i + Z.of_nat rows) * width <= total_len ss ->
  (forall r, i <= r < i + Z.of_nat rows ->
     buffer_apart (row_pointer src_begin src_uv height pitch r) width ss
     = true) ->
  exists st',
    byline_rows ss (Z.of_nat (length ss)) src_uv width height pitch rows i st
    = Done st' /\
    rows_done ss src_begin src_uv width height pitch begin m0 (bl_mem st')
      (i + Z.of_nat rows).
Proof.
  induction rows as [|rows IH]; intros i st Hi Hb Hcur Hsrc Hdone Hfit Hap.
  - exists st. split; [reflexivity|]. now rewrite Z.add_0_r.
  - assert (Hq : (if i =? height then src_uv else bl_src st)
                 = row_pointer src_begin src_uv height pitch i).
    { destruct (Z.eqb_spec i height) as [->|Hne].
      - now rewrite row_pointer_at_height.
      - now apply Hsrc. }
    destruct (byline_row_step rows i st (begin + i * width))
      as [st1 [Hstep [Hcur1 [Hsrc1 Hst1]]]]; auto; try nia.
    { rewrite Hq. apply Hap. lia. }
    rewrite Hq in Hsrc1, Hst1.
    assert (Hcur' : at_cursor ss st1 (begin + (i + 1) * width)).
    { replace (begin + (i + 1) * width) with (begin + i * width + width) by lia.
      exact Hcur1. }
    assert (Hsrc' : i + 1 <> height ->
              bl_src st1 = row_pointer src_begin src_uv height pitch (i + 1)).
    { intros Hne. rewrite Hsrc1. now apply row_pointer_next. }
    assert (Hdone1 : rows_done ss src_begin src_uv width height pitch begin
                       m0 (bl_mem st1) (i + 1)).
    { apply (rows_done_next m0 (bl_mem st)); auto; try nia. apply Hap. lia. }
    assert (Hfit' : begin + (i + 1 + Z.of_nat rows) * width <= total_len ss).
    { replace (i + 1 + Z.of_nat rows) with (i + Z.of_nat (S rows)) by lia.
      exact Hfit. }
    assert (Hap' : forall r, i + 1 <= r < i + 1 + Z.of_nat rows ->
              buffer_apart (row_pointer src_begin src_uv height pitch r)
                width ss = true).
    { intros r Hr. apply Hap. lia. }
    destruct (IH (i + 1) st1 ltac:(lia) Hb Hcur' Hsrc' Hdone1 Hfit' Hap')
      as [st' [Hrun Hdone']].
    exists st'. rewrite Hstep. split; [exact Hrun|].
    replace (i + Z.of_nat (S rows)) with (i + 1 + Z.of_nat rows) by lia.
    exact Hdone'.
Qed.
End BylineSpec.

Lemma rows_apart_spec src_begin src_uv width height pitch rows ss r :
  rows_apart src_begin src_uv width height pitch rows ss = true ->
  0 <= r < Z.of_nat rows ->
  buffer_apart (row_pointer src_begin src_uv height pitch r) width ss = true.
Proof.
  unfold rows_apart. rewrite forallb_forall. intros H Hr.
  specialize (H (Z.to_nat r)). rewrite Z2Nat.id in H by lia.
  apply H. apply in_seq. lia.
Qed.

(** The iteration bound handed to the inner loop is always enough. *)
Lemma byline_carry_fuel ss n0 width pitch : forall fuel st,
  (Z.to_nat (n0 - bl_page st) <= fuel)%nat ->
  byline_carry ss n0 width pitch fuel st <> OutOfFuel.
Proof.
  induction fuel as [|fuel IH]; intros st Hfuel; cbn [byline_carry].
  - destruct (Z.ltb_spec 0 (bl_margin st)); cbn [andb]; [|discriminate].
    destruct (Z.ltb_spec (bl_page st) n0); [lia|discriminate].
  - destruct (Z.ltb_spec 0 (bl_margin st)); cbn [andb]; [|discriminate].
    destruct (Z.ltb_spec (bl_page st) n0); [|discriminate].
    destruct (slice_at ss (bl_page st + 1)); [|discriminate].
    destruct (bl_margin st <=? u32 (page_len v)); apply IH; cbn [bl_page]; lia.
Qed.

Lemma byline_rows_fuel ss n0 src_uv width height pitch : forall rows i st,
  byline_rows ss n0 src_uv width height pitch rows i st <> OutOfFuel.
Proof.
  induction rows as [|rows IH]; intros i st; cbn [byline_rows].
  - discriminate.
  - destruct (bl_page st <? n0); [|discriminate].
    destruct (slice_at ss (bl_page st)); [|discriminate].
    destruct (width <=? bl_len st); [apply IH|].
    match goal with
    | |- context [byline_carry ?a ?b ?c ?d ?f ?s] =>
        pose proof (byline_carry_fuel a b c d f s) as Hfuel;
        destruct (byline_carry a b c d f s)
    end.
    + apply IH.
    + discriminate.
    + exfalso. apply Hfuel; [cbn [bl_page]; lia | reflexivity].
Qed.

(** C6, at a failing input.  The plane offset is 6 and the slices hold 5,
    4 and 3 bytes, so the plane starts in the second slice.  A
    line-strided write of one row of 4 bytes (pitch 6) does not skip the
    first slice as the single-buffer write does: it takes [diff = 6] and
    [len = 5 - 6], which wraps to [2^32 - 1], stores the row at
    [page_base + 6], the addresses 106 to 109 behind the end of the first
    slice and in no slice at all, and returns 0.  The slice bytes at the
    offsets 6 to 9, where the row belongs and where the single-buffer
    write of the same 4 bytes puts them, keep their old contents.  On the
    per-plane resource whose plane 0 has one slice, three rows of 4 bytes
    for the 12 bytes of plane 1 end in -1 with the third row not stored:
    the loops are bounded by [num_entries[0]] and stop after the second
    row. *)
Theorem byline_offset_behind_first_slice_stores_outside :
  let ss := plane_slices res_byline_offset_6 0 in
  let out := mkCopy (memcpy pattern_mem 106 10 4) 0 false in
  let sibling := virtio_video_memcpy Len64 pattern_mem res_byline_offset_6 0
                   10 4 in
  plane_offset res_byline_offset_6 0 = 6 /\
  virtio_video_memcpy_byline Len32 pattern_mem res_byline_offset_6 0
    10 40 4 2 6 4 1 = Done out /\
  virtio_video_memcpy_byline Len64 pattern_mem res_byline_offset_6 0
    10 40 4 2 6 4 1 = Done out /\
  map (cr_mem out) [106; 107; 108; 109] = map pattern_mem [10; 11; 12; 13] /\
  map (in_slices ss) [106; 107; 108; 109] = [false; false; false; false] /\
  map (slice_addr ss) [6; 7; 8; 9] = [201; 202; 203; 300] /\
  map (cr_mem out) [201; 202; 203; 300]
  = map pattern_mem [201; 202; 203; 300] /\
  map pattern_mem [201; 202; 203; 300] <> map pattern_mem [10; 11; 12; 13] /\
  cr_ret sibling = 0 /\
  map (cr_mem sibling) [201; 202; 203; 300]
  = map pattern_mem [10; 11; 12; 13] /\
  total_len (plane_slices res_perplane_1_3 1) = 12 /\
  exists short,
    virtio_video_memcpy_byline Len64 pattern_mem res_perplane_1_3 1
      10 40 4 3 6 12 3 = Done short /\
    cr_ret short = -1 /\ cr_reported short = true /\
    map (slice_addr (plane_slices res_perplane_1_3 1)) [8; 9; 10; 11]
    = [203; 300; 301; 302] /\
    map (cr_mem short) [203; 300; 301; 302]
    = map pattern_mem [203; 300; 301; 302].
Proof.
  cbn zeta. repeat split; try (vm_compute; reflexivity).
  - vm_compute. discriminate.
  - eexists. split; [vm_compute; reflexivity|].
    repeat split; vm_compute; reflexivity.
Qed.

(** X21.  A line-strided write with [pitch > width] whose plane offset
    lies within the first slice of the plane, on a resource whose plane 0
    has as many slices as the plane written, and whose rows all fit the
    slices runs to its end and leaves, at the cumulative offsets
    [begin + r * width .. begin + (r + 1) * width) of the slice sequence,
    the first [width] bytes found at the source pointer of row [r] (rows
    are [pitch] apart); nothing else changes, so no byte of the padding
    between [width] and [pitch] is deposited anywhere, whether or not a
    row runs over the end of a slice. *)
Theorem byline_stores_row_prefixes :
  forall w m res idx src_begin src_uv width height pitch cp_size cp_height,
    let ss := plane_slices res idx in
    let begin := plane_offset res idx in
    num_entries res 0 = num_entries res idx ->
    lens_nonneg ss = true ->
    slices_disjoint ss = true ->
    total_len ss <= UINT32_MAX ->
    0 <= width < pitch ->
    pitch <= UINT32_MAX ->
    0 <= height ->
    0 <= cp_height ->
    offset_in_first_slice begin ss = true ->
    begin + cp_height * width <= total_len ss ->
    rows_apart src_begin src_uv width height pitch (Z.to_nat cp_height) ss
    = true ->
    exists out,
      virtio_video_memcpy_byline w m res idx src_begin src_uv width height
        pitch cp_size cp_height = Done out /\
      (forall r c, 0 <= r < cp_height -> 0 <= c < width ->
         cr_mem out (slice_addr ss (begin + r * width + c))
         = m (row_pointer src_begin src_uv height pitch r + c)) /\
      (forall a,
         (forall off, begin <= off < begin + cp_height * width ->
                      a <> slice_addr ss off) ->
         cr_mem out a = m a).
Proof.
  intros w m res idx src_begin src_uv width height pitch cp_size cp_height
    ss begin Hn0 Hnn Hdis Hmax Hwidth Hpitch Hheight Hrows Hfirst Hfit Hap.
  unfold virtio_video_memcpy_byline. fold ss. fold begin.
  rewrite Hn0. unfold num_entries. fold ss.
  destruct ss as [|s0 rest] eqn:Hss; [discriminate|].
  rewrite <- Hss in *.
  assert (Hp0 : nth_error ss 0 = Some s0) by (rewrite Hss; reflexivity).
  change (slice_at ss 0) with (slice_at ss (Z.of_nat 0)).
  rewrite slice_at_nat, Hp0.
  assert (Hb : 0 <= begin <= page_len s0).
  { rewrite Hss in Hfirst. cbn [offset_in_first_slice] in Hfirst.
    apply andb_true_iff in Hfirst. rewrite !Z.leb_le in Hfirst. exact Hfirst. }
  destruct (slice_within_total ss 0 s0 Hnn Hp0) as [_ Hs0].
  rewrite prefix_len_0 in Hs0.
  rewrite Z.sub_0_r, (u32_small begin) by lia.
  rewrite (ulen_small w (page_len s0 - begin)) by lia.
  rewrite (u32_small (page_len s0 - begin)) by lia.
  set (st0 := mkByline m src_begin 0 begin (page_len s0 - begin) cp_size 0).
  assert (Hcur0 : at_cursor ss st0 (begin + 0 * width)).
  { exists 0%nat, s0. cbn [st0 bl_page bl_diff bl_len].
    rewrite prefix_len_0. repeat split; auto; lia. }
  assert (Hsrc0 : 0 <> height ->
            bl_src st0 = row_pointer src_begin src_uv height pitch 0).
  { intros Hne. cbn [st0 bl_src]. unfold row_pointer.
    destruct (Z.ltb_spec 0 height); lia. }
  assert (Hdone0 : rows_done ss src_begin src_uv width height pitch begin
                     m (bl_mem st0) 0).
  { split; [intros r c Hr; lia | reflexivity]. }
  assert (Hfit0 : begin + (0 + Z.of_nat (Z.to_nat cp_height)) * width
                  <= total_len ss).
  { rewrite Z2Nat.id, Z.add_0_l by lia. exact Hfit. }
  assert (Hap0 : forall r, 0 <= r < 0 + Z.of_nat (Z.to_nat cp_height) ->
            buffer_apart (row_pointer src_begin src_uv height pitch r)
              width ss = true).
  { intros r Hr. apply (rows_apart_spec _ _ _ _ _ (Z.to_nat cp_height)); auto. }
  destruct (byline_rows_spec ss src_begin src_uv width height pitch begin
              Hnn Hdis Hmax ltac:(lia) Hpitch m (Z.to_nat cp_height) 0 st0
              ltac:(lia) ltac:(lia) Hcur0 Hsrc0 Hdone0 Hfit0 Hap0)
    as [st' [Hrun [Hdata Hframe]]].
  rewrite Z2Nat.id in Hdata, Hframe by lia. rewrite Z.add_0_l in Hdata, Hframe.
  rewrite Hrun.
  destruct (0 <? bl_size st'); eexists; (split; [reflexivity|]);
    cbn [cr_mem]; split; assumption.
Qed.

Lemma byline_stores_row_prefixes_witness :
  exists out,
    virtio_video_memcpy_byline Len64 pattern_mem res_byline 0 10 40 4 2 6 12 3
    = Done out /\
    (forall r c, 0 <= r < 3 -> 0 <= c < 4 ->
       cr_mem out (slice_addr (plane_slices res_byline 0)
                     (plane_offset res_byline 0 + r * 4 + c))
       = pattern_mem (row_pointer 10 40 2 6 r + c)) /\
    (forall a,
       (forall off, plane_offset res_byline 0 <= off
                    < plane_offset res_byline 0 + 3 * 4 ->
                    a <> slice_addr (plane_slices res_byline 0) off) ->
       cr_mem out a = pattern_mem a).
Proof.
  apply (byline_stores_row_prefixes Len64 pattern_mem res_byline 0%nat
           10 40 4 2 6 12 3).
  - reflexivity.
  - reflexivity.
  - reflexivity.
  - unfold UINT32_MAX. cbn. lia.
  - lia.
  - unfold UINT32_MAX. lia.
  - lia.
  - lia.
  - reflexivity.
  - cbn. lia.
  - reflexivity.
Defined.

(** ** Completion pipeline *)

Lemma pushed_app vq ops1 ops2 :
  pushed vq (ops1 ++ ops2) = pushed vq ops1 ++ pushed vq ops2.
Proof.
  induction ops1 as [|op ops1 IH]; [reflexivity|].
  destruct op as [q e r n| | | |]; cbn [app pushed]; auto.
  destruct vq, q; cbn [app]; now rewrite IH.
Qed.

Lemma dev_unit_eta (c : dev unit) (v : VirtIOVideo) : c v = (tt, exec c v).
Proof. unfold exec. destruct (c v) as [[] v']. reflexivity. Qed.

Lemma cmd_others_complete_effect s success v :
  let elem := cmd_elem (arg_cmd s) in
  let resp := virtio_video_cmd_hdr (resolution_resp success) (arg_stream_id s) in
  exec (virtio_video_cmd_others_complete s success) v
  = if iov_from_buf (in_sg elem) sizeof_virtio_video_cmd_hdr
         =? sizeof_virtio_video_cmd_hdr
    then mkDevice (refcount v - 1) (event_queue v) (event_avail v) (bh_list v)
           (transport v ++ [op_push cmd_vq elem resp sizeof_virtio_video_cmd_hdr;
                            op_notify cmd_vq; op_free elem])
    else mkDevice (refcount v) (event_queue v) (event_avail v) (bh_list v)
           (transport v ++ [op_error; op_detach cmd_vq elem; op_free elem]).
Proof.
  intros elem resp. unfold virtio_video_cmd_others_complete, exec.
  fold elem.
  destruct (iov_from_buf (in_sg elem) sizeof_virtio_video_cmd_hdr
              =? sizeof_virtio_video_cmd_hdr);
    destruct success; cbn; rewrite <- !app_assoc; reflexivity.
Qed.

(** C4, as the code has it.  Two resolutions of the in-flight command in a
    row (each either done or cancel) are both carried out: the first sets
    [cmd_type] to 0 and leaves the reply element in the slot, each call
    takes a device reference and schedules a completion task, and both
    tasks carry the same reply element.  When nothing else is scheduled,
    the task of the first call runs first and frees that element as its
    last step, while the task of the second call is still scheduled with
    it. *)
Theorem inflight_cmd_resolution_unguarded :
  forall stream v first second,
    let elem := cmd_elem (inflight_cmd stream) in
    let id := stream_ident stream in
    let r1 := resolve_inflight first stream v in
    let r2 := resolve_inflight second (fst r1) (snd r1) in
    let second_task := resolution_bh second (mkCmdArg (mkCmd elem 0) id) in
    cmd_type (inflight_cmd (fst r1)) = 0 /\
    cmd_elem (inflight_cmd (fst r1)) = elem /\
    fst r2 = fst r1 /\
    refcount (snd r2) = refcount v + 2 /\
    bh_list (snd r2)
    = bh_list v ++ [resolution_bh first (mkCmdArg (inflight_cmd stream) id);
                    second_task] /\
    (bh_list v = [] ->
     bh_list (exec aio_bh_poll (snd r2)) = [second_task] /\
     transport (exec aio_bh_poll (snd r2))
     = transport v
       ++ (if sizeof_virtio_video_cmd_hdr <=? iov_size (in_sg elem) then
             [op_push cmd_vq elem
                (virtio_video_cmd_hdr (resolution_resp first) id)
                sizeof_virtio_video_cmd_hdr;
              op_notify cmd_vq; op_free elem]
           else [op_error; op_detach cmd_vq elem; op_free elem])).
Proof.
  intros stream v first second elem id r1 r2 second_task.
  assert (H1 : r1 = (clear_cmd_type stream,
                     mkDevice (refcount v + 1) (event_queue v) (event_avail v)
                       (bh_list v ++ [resolution_bh first
                                        (mkCmdArg (inflight_cmd stream) id)])
                       (transport v))).
  { subst r1. destruct first; reflexivity. }
  assert (H2 : r2 = (clear_cmd_type stream,
                     mkDevice (refcount v + 1 + 1) (event_queue v) (event_avail v)
                       ((bh_list v ++ [resolution_bh first
                                         (mkCmdArg (inflight_cmd stream) id)])
                        ++ [second_task])
                       (transport v))).
  { subst r2 second_task. rewrite H1. destruct second; reflexivity. }
  rewrite H2, H1. cbn [fst snd refcount bh_list].
  repeat split; try reflexivity.
  - lia.
  - now rewrite <- app_assoc.
  - rewrite H. cbn [app]. unfold exec, aio_bh_poll. cbn [bh_list].
    rewrite dev_unit_eta. cbn [snd].
    replace (exec (run_bh (resolution_bh first
                             (mkCmdArg (inflight_cmd stream) id))))
      with (exec (virtio_video_cmd_others_complete
                    (mkCmdArg (inflight_cmd stream) id) first))
      by (destruct first; reflexivity).
    rewrite cmd_others_complete_effect. cbn zeta.
    destruct (iov_from_buf _ _ =? _); reflexivity.
  - rewrite H. cbn [app]. unfold exec, aio_bh_poll. cbn [bh_list].
    rewrite dev_unit_eta. cbn [snd].
    replace (exec (run_bh (resolution_bh first
                             (mkCmdArg (inflight_cmd stream) id))))
      with (exec (virtio_video_cmd_others_complete
                    (mkCmdArg (inflight_cmd stream) id) first))
      by (destruct first; reflexivity).
    rewrite cmd_others_complete_effect. cbn zeta.
    cbn [arg_cmd arg_stream_id refcount event_queue event_avail bh_list
         transport].
    fold elem.
    assert (Hfit : (iov_from_buf (in_sg elem) sizeof_virtio_video_cmd_hdr
                    =? sizeof_virtio_video_cmd_hdr)
                   = (sizeof_virtio_video_cmd_hdr <=? iov_size (in_sg elem))).
    { unfold iov_from_buf.
      destruct (Z.leb_spec sizeof_virtio_video_cmd_hdr (iov_size (in_sg elem))).
      - rewrite Z.min_l by lia. apply Z.eqb_refl.
      - rewrite Z.min_r by lia. apply Z.eqb_neq. lia. }
    rewrite Hfit.
    destruct (sizeof_virtio_video_cmd_hdr <=? iov_size (in_sg elem));
      reflexivity.
Qed.

Lemma inflight_cmd_resolution_unguarded_witness :
  bh_list
    (exec aio_bh_poll
       (snd (resolve_inflight false
               (fst (resolve_inflight true stream0 device0))
               (snd (resolve_inflight true stream0 device0)))))
  = [cmd_cancel_bh (mkCmdArg (mkCmd elem_ok 0) 7)] /\
  transport
    (exec aio_bh_poll
       (snd (resolve_inflight false
               (fst (resolve_inflight true stream0 device0))
               (snd (resolve_inflight true stream0 device0)))))
  = [op_push cmd_vq elem_ok
       (virtio_video_cmd_hdr VIRTIO_VIDEO_RESP_OK_NODATA 7) 8;
     op_notify cmd_vq; op_free elem_ok].
Proof.
  destruct (inflight_cmd_resolution_unguarded stream0 device0 true false)
    as [_ [_ [_ [_ [_ Hfirst]]]]].
  apply Hfirst. reflexivity.
Defined.

(** C4, counterexample.  On the sample stream the second call of
    [virtio_video_inflight_cmd_done] is not turned down: it schedules a
    second completion task. *)
Lemma second_resolution_not_rejected :
  ~ second_resolution_rejected stream0 device0.
Proof.
  unfold second_resolution_rejected. cbn. intros [Hbh _]. discriminate Hbh.
Qed.

(** The same run, spelled out: two tasks are queued, both for the one
    reply element of the stream. *)
Example second_resolution_schedules_again :
  let v2 := snd (virtio_video_inflight_cmd_done
                   (fst (virtio_video_inflight_cmd_done stream0 device0))
                   (snd (virtio_video_inflight_cmd_done stream0 device0))) in
  bh_list v2
  = [cmd_done_bh (mkCmdArg (mkCmd elem_ok 259) 7);
     cmd_done_bh (mkCmdArg (mkCmd elem_ok 0) 7)].
Proof. reflexivity. Qed.

(** ** Device reference across a bottom half *)

Lemma event_bh_releases_once s v :
  refcount (exec (virtio_video_event_bh s) v) = refcount v - 1.
Proof.
  unfold virtio_video_event_bh, exec, bind, virtqueue_pop_event.
  destruct (event_avail v) as [|e rest]; [reflexivity|].
  destruct ((in_num e <? 1)
            || (Z.of_N (hd 0%N (in_sg e)) <? sizeof_virtio_video_event));
    [reflexivity|].
  unfold virtio_video_event_complete.
  destruct (negb (iov_from_buf (in_sg e) sizeof_virtio_video_event
                    =? sizeof_virtio_video_event)); reflexivity.
Qed.

Lemma cmd_others_complete_releases s success v :
  refcount (exec (virtio_video_cmd_others_complete s success) v)
  = if iov_from_buf (in_sg (cmd_elem (arg_cmd s))) sizeof_virtio_video_cmd_hdr
         =? sizeof_virtio_video_cmd_hdr
    then refcount v - 1 else refcount v.
Proof.
  rewrite cmd_others_complete_effect. cbn zeta.
  destruct (iov_from_buf (in_sg (cmd_elem (arg_cmd s)))
              sizeof_virtio_video_cmd_hdr =? sizeof_virtio_video_cmd_hdr);
    reflexivity.
Qed.

(** C5, at a failing input.  The device holds two references and the
    reply element of the command takes only four of the eight header
    bytes.  The command-done and the command-cancel bottom halves return
    with both references still held, whereas the same bottom halves on an
    element that takes the header, and the event bottom half with or
    without a usable element, give one reference back. *)
Theorem cmd_bh_keeps_reference_on_transport_fault :
  let v := mkDevice 2 [] [] [] [] in
  let short := mkCmdArg (mkCmd elem_short 259) 7 in
  let fits := mkCmdArg (mkCmd elem_ok 259) 7 in
  refcount (exec (run_bh (cmd_done_bh short)) v) = 2 /\
  refcount (exec (run_bh (cmd_cancel_bh short)) v) = 2 /\
  transport (exec (run_bh (cmd_done_bh short)) v)
  = [op_error; op_detach cmd_vq elem_short; op_free elem_short] /\
  refcount (exec (run_bh (cmd_done_bh fits)) v) = 1 /\
  refcount (exec (run_bh (cmd_cancel_bh fits)) v) = 1 /\
  refcount (exec (run_bh (event_bh (mkEventArg 256 7))) v) = 1 /\
  refcount (exec (run_bh (event_bh (mkEventArg 256 7)))
              (mkDevice 2 [] [elem_short] [] [])) = 1 /\
  refcount (exec (run_bh (event_bh (mkEventArg 256 7)))
              (mkDevice 2 [] [elem_ok] [] [])) = 1.
Proof. cbn. repeat split; reflexivity. Qed.

(** ** Event delivery *)

Lemma iov_size_nonneg sg : 0 <= iov_size sg.
Proof.
  induction sg as [|n sg IH]; cbn [iov_size fold_right]; [lia|].
  unfold iov_size in IH. lia.
Qed.

(** C8, as the code has it.  Reporting an event takes a device reference
    and schedules the event bottom half behind those already scheduled.
    When that bottom half finds no usable reply slot it appends the event
    to the tail of the backlog and sends nothing; when it finds one it
    sends the event just reported, whatever the backlog holds, and leaves
    the backlog as it is. *)
Theorem event_bh_appends_or_sends_new_event :
  forall event stream_id v,
    let s := mkEventArg event stream_id in
    let v' := exec (virtio_video_event_bh s) v in
    exec (virtio_video_report_event event stream_id) v
    = mkDevice (refcount v + 1) (event_queue v) (event_avail v)
        (bh_list v ++ [event_bh s]) (transport v) /\
    event_avail v' = tl (event_avail v) /\
    (if usable_slot v then
       event_queue v' = event_queue v /\
       pushed event_vq (transport v')
       = pushed event_vq (transport v) ++ [virtio_video_event event stream_id]
     else
       event_queue v' = event_queue v ++ [mkEvent None event stream_id] /\
       pushed event_vq (transport v') = pushed event_vq (transport v)).
Proof.
  intros event stream_id v s v'. split; [reflexivity|].
  subst v' s. unfold usable_slot, virtio_video_event_bh, exec, bind,
    virtqueue_pop_event.
  destruct (event_avail v) as [|e rest] eqn:Hav.
  - cbn. rewrite Hav. repeat split; reflexivity.
  - destruct ((in_num e <? 1)
              || (Z.of_N (hd 0%N (in_sg e)) <? sizeof_virtio_video_event))
      eqn:Hbad; cbn [negb].
    + cbn. rewrite !pushed_app. cbn. rewrite !app_nil_r.
      repeat split; reflexivity.
    + assert (Hfit : (iov_from_buf (in_sg e) sizeof_virtio_video_event
                      =? sizeof_virtio_video_event) = true).
      { apply orb_false_iff in Hbad. destruct Hbad as [Hnum Hlen].
        apply Z.ltb_ge in Hlen. apply Z.ltb_ge in Hnum.
        unfold in_num in Hnum. unfold iov_from_buf.
        destruct (in_sg e) as [|n0 sg]; [cbn in Hnum; lia|].
        cbn [hd] in Hlen. apply Z.eqb_eq. apply Z.min_l.
        cbn [iov_size fold_right].
        pose proof (iov_size_nonneg sg) as Hrest. unfold iov_size in Hrest.
        lia. }
      unfold virtio_video_event_complete. rewrite Hfit. cbn.
      rewrite !pushed_app. cbn. rewrite !app_nil_r.
      repeat split; reflexivity.
Qed.

(** C8, counterexample.  An event is reported while no buffer is
    available and goes to the backlog; after the guest has supplied a
    buffer a second event is reported and is sent at once, ahead of the
    first one, which still waits: delivery is not in arrival order. *)
Lemma late_buffer_breaks_fifo :
  ~ fifo_delivery [(256, 7); (512, 7)] (exec late_buffer_scenario device0).
Proof. unfold fifo_delivery. cbn. discriminate. Qed.

(** The same run, spelled out. *)
Example late_buffer_state :
  let v := exec late_buffer_scenario device0 in
  pushed event_vq (transport v) = [virtio_video_event 512 7] /\
  event_queue v = [mkEvent None 256 7] /\
  refcount v = refcount device0.
Proof. repeat split; reflexivity. Qed.

(** * Further properties of the copy engine *)

(** ** Single-buffer write: result code and bytes stored *)

Lemma memcpy_singlebuffer_loop_code w ss : forall m src size begin base,
  lens_nonneg ss = true ->
  0 <= base <= begin -> base + total_len ss <= UINT32_MAX ->
  0 <= size -> begin + size <= UINT32_MAX ->
  let short := (0 <? size) && (base + total_len ss <? begin + size) in
  cr_ret (memcpy_singlebuffer_loop w ss m src size begin (begin + size) base)
  = (if short then -1 else 0) /\
  cr_reported (memcpy_singlebuffer_loop w ss m src size begin (begin + size) base)
  = short.
Proof.
  induction ss as [|s ss IH]; intros m src size begin base Hnn Hbase Hfit
    Hsz Hend; cbn [memcpy_singlebuffer_loop total_len] in *.
  - cbn zeta.
    destruct (Z.ltb_spec 0 size); destruct (Z.ltb_spec (base + 0) (begin + size));
      cbn; split; auto; lia.
  - apply lens_nonneg_cons in Hnn. destruct Hnn as [Hs Hss].
    pose proof (total_len_nonneg ss Hss) as Ht.
    rewrite (ulen_small w (base + page_len s)) by lia.
    rewrite (u32_small (base + page_len s)) by lia.
    destruct (Z.leb_spec (base + page_len s) begin) as [Hskip|Hin].
    + destruct (IH m src size begin (base + page_len s)) as [Hret Hrep];
        auto; try lia.
      cbn zeta in *. rewrite Hret, Hrep.
      replace (base + page_len s + total_len ss)
        with (base + (page_len s + total_len ss)) by lia.
      split; reflexivity.
    + rewrite (u32_small (begin - base)) by lia.
      rewrite (ulen_small w (page_len s - (begin - base))) by lia.
      rewrite (u32_small (page_len s - (begin - base))) by lia.
      destruct (Z.leb_spec (begin + size) (base + page_len s)) as [Hlast|Hmore].
      * cbn [cr_ret cr_reported]. cbn zeta.
        destruct (Z.ltb_spec (base + (page_len s + total_len ss)) (begin + size));
          [lia|].
        rewrite andb_false_r. split; reflexivity.
      * rewrite (u32_small (size - (page_len s - (begin - base)))) by lia.
        rewrite (u32_small (begin + (page_len s - (begin - base)))) by lia.
        replace (begin + size)
          with (begin + (page_len s - (begin - base))
                + (size - (page_len s - (begin - base)))) at 1 3 by lia.
        destruct (IH (MEMCPY_S m (page_base s + (begin - base)) src
                        (page_len s - (begin - base))
                        (page_len s - (begin - base)))
                    (src + (page_len s - (begin - base)))
                    (size - (page_len s - (begin - base)))
                    (begin + (page_len s - (begin - base)))
                    (base + page_len s)) as [Hret Hrep]; auto; try lia.
        cbn zeta in *. rewrite Hret, Hrep.
        destruct (Z.ltb_spec 0 size); [|lia].
        destruct (Z.ltb_spec 0 (size - (page_len s - (begin - base)))); [|lia].
        destruct (Z.ltb_spec (base + page_len s + total_len ss)
                    (begin + (page_len s - (begin - base))
                     + (size - (page_len s - (begin - base)))));
          destruct (Z.ltb_spec (base + (page_len s + total_len ss))
                      (begin + size)); cbn; split; auto; lia.
Qed.

Lemma memcpy_singlebuffer_loop_effect w ss : forall m src size begin base,
  lens_nonneg ss = true -> slices_disjoint ss = true ->
  0 <= base <= begin -> base + total_len ss <= UINT32_MAX ->
  0 <= size -> begin + size <= base + total_len ss ->
  buffer_apart src size ss = true ->
  stored ss m
    (cr_mem (memcpy_singlebuffer_loop w ss m src size begin (begin + size) base))
    (begin - base) size src.
Proof.
  induction ss as [|s ss IH]; intros m src size begin base Hnn Hdis Hbase Hmax
    Hsz Hfit Hsrc; cbn [memcpy_singlebuffer_loop total_len] in *.
  - split; [intros c Hc; lia | intros a _; destruct (0 <? size); reflexivity].
  - apply lens_nonneg_cons in Hnn. destruct Hnn as [Hs Hss].
    cbn [slices_disjoint] in Hdis. apply andb_true_iff in Hdis.
    destruct Hdis as [Hap Hdis].
    apply buffer_apart_cons in Hsrc. destruct Hsrc as [Hsrc_s Hsrc_ss].
    pose proof (total_len_nonneg ss Hss) as Ht.
    rewrite !MEMCPY_S_same.
    rewrite (ulen_small w (base + page_len s)) by lia.
    rewrite (u32_small (base + page_len s)) by lia.
    destruct (Z.leb_spec (base + page_len s) begin) as [Hskip|Hin].
    + destruct (IH m src size begin (base + page_len s)) as [D F];
        auto; try lia.
      split.
      * intros c Hc. rewrite slice_addr_tail by lia.
        replace (begin - base + c - page_len s)
          with (begin - (base + page_len s) + c) by lia.
        now apply D.
      * intros a Ha. apply F. intros c Hc.
        specialize (Ha c Hc). rewrite slice_addr_tail in Ha by lia.
        replace (begin - base + c - page_len s)
          with (begin - (base + page_len s) + c) in Ha by lia.
        exact Ha.
    + set (diff := begin - base) in *.
      rewrite (u32_small diff) by (unfold diff; lia).
      rewrite (ulen_small w (page_len s - diff)) by (unfold diff; lia).
      rewrite (u32_small (page_len s - diff)) by (unfold diff; lia).
      destruct (Z.leb_spec (begin + size) (base + page_len s)) as [Hlast|Hmore];
        cbn [cr_mem].
      * split.
        -- intros c Hc. rewrite slice_addr_head by (unfold diff; lia).
           rewrite memcpy_inside by lia. f_equal. lia.
        -- intros a Ha. apply memcpy_outside.
           destruct (Z.lt_ge_cases a (page_base s + diff)); [auto|].
           destruct (Z.lt_ge_cases a (page_base s + diff + size)); [|auto].
           exfalso. apply (Ha (a - (page_base s + diff))); [lia|].
           rewrite slice_addr_head by (unfold diff; lia). lia.
      * set (l := page_len s - diff) in *.
        assert (Hl : 0 < l < size) by (unfold l, diff; lia).
        rewrite (u32_small (size - l)), (u32_small (begin + l))
          by (unfold l, diff in *; lia).
        replace (begin + size) with (begin + l + (size - l)) by lia.
        destruct (IH (memcpy m (page_base s + diff) src l) (src + l)
                    (size - l) (begin + l) (base + page_len s)) as [D F];
          auto; try (unfold l, diff in *; lia).
        { eapply buffer_apart_sub; eauto; lia. }
        replace (begin + l - (base + page_len s)) with 0 in D, F
          by (unfold l, diff; lia).
        split.
        -- intros c Hc.
           destruct (Z.lt_ge_cases c l) as [Hlt|Hge].
           ++ rewrite slice_addr_head by (unfold l in *; lia).
              rewrite F.
              ** rewrite memcpy_inside by lia. f_equal. lia.
              ** intros c' Hc' Heq.
                 assert (Hin' : in_slices ss (slice_addr ss (0 + c')) = true).
                 { apply slice_addr_in_slices; auto. unfold l, diff in *. lia. }
                 rewrite <- Heq in Hin'.
                 rewrite (slice_apart_not_in s ss) in Hin';
                   [discriminate|auto|unfold l in *; lia].
           ++ rewrite slice_addr_tail by (unfold l in *; lia).
              replace (diff + c - page_len s) with (0 + (c - l))
                by (unfold l; lia).
              rewrite D by lia.
              rewrite memcpy_outside.
              ** f_equal. lia.
              ** assert (Hno : ~ (page_base s <= src + l + (c - l)
                                  < page_base s + page_len s)).
                 { intros Hin'.
                   apply (ranges_apart_spec _ _ _ _ (src + l + (c - l)) Hsrc_s);
                     lia. }
                 unfold l in *. lia.
        -- intros a Ha. rewrite F.
           ++ apply memcpy_outside.
              destruct (Z.lt_ge_cases a (page_base s + diff)); [auto|].
              destruct (Z.lt_ge_cases a (page_base s + diff + l)); [|auto].
              exfalso. apply (Ha (a - (page_base s + diff))); [lia|].
              rewrite slice_addr_head by (unfold l in *; lia). lia.
           ++ intros c Hc. specialize (Ha (l + c)).
              rewrite slice_addr_tail in Ha by (unfold l in *; lia).
              replace (diff + (l + c) - page_len s) with (0 + c) in Ha
                by (unfold l; lia).
              apply Ha. lia.
Qed.

(** X1.  The slice walk of the single-buffer write returns 0 exactly when
    nothing is to be copied or the bytes fit behind the plane offset, and
    -1, with the error reported, exactly otherwise. *)
Theorem singlebuffer_write_result :
  forall w m res idx src size,
    planes_layout res = VIRTIO_VIDEO_PLANES_LAYOUT_SINGLE_BUFFER ->
    remapped_base res = NULL ->
    let ss := plane_slices res 0 in
    let k := plane_offset res idx in
    let out := virtio_video_memcpy w m res idx src size in
    lens_nonneg ss = true ->
    total_len ss <= UINT32_MAX ->
    0 <= k -> 0 <= size -> k + size <= UINT32_MAX ->
    (cr_ret out = 0 <-> size = 0 \/ k + size <= total_len ss) /\
    (cr_ret out = -1 <-> 0 < size /\ total_len ss < k + size) /\
    (cr_reported out = true <-> cr_ret out = -1).
Proof.
  intros w m res idx src size Hlay Hnull ss k out Hnn HL Hk Hsz Hend.
  subst out. unfold virtio_video_memcpy, virtio_video_memcpy_singlebuffer.
  rewrite Hlay, Z.eqb_refl, Hnull. cbn [Z.eqb NULL negb]. fold k. fold ss.
  rewrite (u32_small (k + size)) by lia.
  destruct (memcpy_singlebuffer_loop_code w ss m src size k 0) as [Hret Hrep];
    auto; try lia.
  cbn zeta in Hret, Hrep. rewrite Hret, Hrep. rewrite Z.add_0_l.
  destruct (Z.ltb_spec 0 size); destruct (Z.ltb_spec (total_len ss) (k + size));
    cbn [andb]; repeat split; intros; try lia; try discriminate; auto.
Qed.

Lemma singlebuffer_write_result_witness :
  let out := virtio_video_memcpy Len64 pattern_mem res_single 1 10 7 in
  (cr_ret out = 0 <-> 7 = 0 \/ 6 + 7 <= 12) /\
  (cr_ret out = -1 <-> 0 < 7 /\ 12 < 6 + 7) /\
  (cr_reported out = true <-> cr_ret out = -1).
Proof.
  apply (singlebuffer_write_result Len64 pattern_mem res_single 1%nat 10 7).
  - reflexivity.
  - reflexivity.
  - reflexivity.
  - unfold UINT32_MAX. cbn. lia.
  - cbn. lia.
  - lia.
  - unfold UINT32_MAX. cbn. lia.
Defined.

(** X2.  A single-buffer write into a resource that has no remapped
    region, of bytes that fit, stores the source bytes at the cumulative
    offsets [k .. k + size) of the shared slice sequence and changes no
    other byte of memory. *)
Theorem singlebuffer_write_stores_at_offset :
  forall w m res idx src size,
    planes_layout res = VIRTIO_VIDEO_PLANES_LAYOUT_SINGLE_BUFFER ->
    remapped_base res = NULL ->
    let ss := plane_slices res 0 in
    let k := plane_offset res idx in
    let out := virtio_video_memcpy w m res idx src size in
    lens_nonneg ss = true -> slices_disjoint ss = true ->
    total_len ss <= UINT32_MAX ->
    0 <= k -> 0 <= size -> k + size <= total_len ss ->
    buffer_apart src size ss = true ->
    cr_ret out = 0 /\
    (forall j, 0 <= j < size ->
       cr_mem out (slice_addr ss (k + j)) = m (src + j)) /\
    (forall a, (forall j, 0 <= j < size -> a <> slice_addr ss (k + j)) ->
       cr_mem out a = m a).
Proof.
  intros w m res idx src size Hlay Hnull ss k out Hnn Hdis HL Hk Hsz Hfit Hsrc.
  subst out. unfold virtio_video_memcpy, virtio_video_memcpy_singlebuffer.
  rewrite Hlay, Z.eqb_refl, Hnull. cbn [Z.eqb NULL negb]. fold k. fold ss.
  rewrite (u32_small (k + size)) by lia.
  split.
  - destruct (memcpy_singlebuffer_loop_code w ss m src size k 0) as [Hret _];
      auto; try lia.
    cbn zeta in Hret. rewrite Hret.
    destruct (Z.ltb_spec (0 + total_len ss) (k + size)); [lia|].
    now rewrite andb_false_r.
  - pose proof (memcpy_singlebuffer_loop_effect w ss m src size k 0) as Heff.
    rewrite Z.sub_0_r in Heff. apply Heff; auto; lia.
Qed.

Lemma singlebuffer_write_stores_at_offset_witness :
  let ss := plane_slices res_single 0 in
  let out := virtio_video_memcpy Len64 pattern_mem res_single 1 10 5 in
  cr_ret out = 0 /\
  (forall j, 0 <= j < 5 ->
     cr_mem out (slice_addr ss (6 + j)) = pattern_mem (10 + j)) /\
  (forall a, (forall j, 0 <= j < 5 -> a <> slice_addr ss (6 + j)) ->
     cr_mem out a = pattern_mem a).
Proof.
  apply (singlebuffer_write_stores_at_offset Len64 pattern_mem res_single
           1%nat 10 5).
  - reflexivity.
  - reflexivity.
  - reflexivity.
  - reflexivity.
  - unfold UINT32_MAX. cbn. lia.
  - cbn. lia.
  - lia.
  - cbn. lia.
  - reflexivity.
Defined.

(** ** Single-buffer dump and read *)

Lemma memdump_singlebuffer_loop_code w ss : forall m dst size begin base,
  lens_nonneg ss = true ->
  0 <= base <= begin -> base + total_len ss <= UINT32_MAX ->
  0 <= size -> begin + size <= UINT32_MAX ->
  let short := (0 <? size) && (base + total_len ss <? begin + size) in
  cr_ret (memdump_singlebuffer_loop w ss m dst size begin (begin + size) base)
  = (if short then -1 else 0) /\
  cr_reported (memdump_singlebuffer_loop w ss m dst size begin (begin + size) base)
  = short.
Proof.
  induction ss as [|s ss IH]; intros m dst size begin base Hnn Hbase Hfit
    Hsz Hend; cbn [memdump_singlebuffer_loop total_len] in *.
  - cbn zeta.
    destruct (Z.ltb_spec 0 size); destruct (Z.ltb_spec (base + 0) (begin + size));
      cbn; split; auto; lia.
  - apply lens_nonneg_cons in Hnn. destruct Hnn as [Hs Hss].
    pose proof (total_len_nonneg ss Hss) as Ht.
    rewrite (ulen_small w (base + page_len s)) by lia.
    rewrite (u32_small (base + page_len s)) by lia.
    destruct (Z.leb_spec (base + page_len s) begin) as [Hskip|Hin].
    + destruct (IH m dst size begin (base + page_len s)) as [Hret Hrep];
        auto; try lia.
      cbn zeta in *. rewrite Hret, Hrep.
      replace (base + page_len s + total_len ss)
        with (base + (page_len s + total_len ss)) by lia.
      split; reflexivity.
    + rewrite (u32_small (begin - base)) by lia.
      rewrite (ulen_small w (page_len s - (begin - base))) by lia.
      rewrite (u32_small (page_len s - (begin - base))) by lia.
      destruct (Z.leb_spec (begin + size) (base + page_len s)) as [Hlast|Hmore].
      * cbn [cr_ret cr_reported]. cbn zeta.
        destruct (Z.ltb_spec (base + (page_len s + total_len ss)) (begin + size));
          [lia|].
        rewrite andb_false_r. split; reflexivity.
      * rewrite (u32_small (size - (page_len s - (begin - base)))) by lia.
        rewrite (u32_small (begin + (page_len s - (begin - base)))) by lia.
        replace (begin + size)
          with (begin + (page_len s - (begin - base))
                + (size - (page_len s - (begin - base)))) at 1 3 by lia.
        destruct (IH (MEMCPY_S m dst (page_base s + (begin - base))
                        (page_len s - (begin - base))
                        (page_len s - (begin - base)))
                    (dst + (page_len s - (begin - base)))
                    (size - (page_len s - (begin - base)))
                    (begin + (page_len s - (begin - base)))
                    (base + page_len s)) as [Hret Hrep]; auto; try lia.
        cbn zeta in *. rewrite Hret, Hrep.
        destruct (Z.ltb_spec 0 size); [|lia].
        destruct (Z.ltb_spec 0 (size - (page_len s - (begin - base)))); [|lia].
        destruct (Z.ltb_spec (base + page_len s + total_len ss)
                    (begin + (page_len s - (begin - base))
                     + (size - (page_len s - (begin - base)))));
          destruct (Z.ltb_spec (base + (page_len s + total_len ss))
                      (begin + size)); cbn; split; auto; lia.
Qed.

Lemma memdump_singlebuffer_loop_effect w ss : forall m dst size begin base,
  lens_nonneg ss = true ->
  0 <= base <= begin -> base + total_len ss <= UINT32_MAX ->
  0 <= size -> begin + size <= base + total_len ss ->
  buffer_apart dst size ss = true ->
  let m' := cr_mem (memdump_singlebuffer_loop w ss m dst size begin
                      (begin + size) base) in
  (forall j, 0 <= j < size ->
     m' (dst + j) = m (slice_addr ss (begin - base + j))) /\
  (forall a, a < dst \/ dst + size <= a -> m' a = m a).
Proof.
  induction ss as [|s ss IH]; intros m dst size begin base Hnn Hbase Hmax
    Hsz Hfit Hdst; cbn [memdump_singlebuffer_loop total_len] in *.
  - cbn zeta. split; [intros c Hc; lia | intros a _; destruct (0 <? size); reflexivity].
  - apply lens_nonneg_cons in Hnn. destruct Hnn as [Hs Hss].
    apply buffer_apart_cons in Hdst. destruct Hdst as [Hdst_s Hdst_ss].
    pose proof (total_len_nonneg ss Hss) as Ht.
    rewrite !MEMCPY_S_same.
    rewrite (ulen_small w (base + page_len s)) by lia.
    rewrite (u32_small (base + page_len s)) by lia.
    destruct (Z.leb_spec (base + page_len s) begin) as [Hskip|Hin].
    + destruct (IH m dst size begin (base + page_len s)) as [D F];
        auto; try lia.
      cbn zeta in *. split; [|exact F].
      intros c Hc. rewrite slice_addr_tail by lia.
      replace (begin - base + c - page_len s)
        with (begin - (base + page_len s) + c) by lia.
      now apply D.
    + set (diff := begin - base) in *.
      rewrite (u32_small diff) by (unfold diff; lia).
      rewrite (ulen_small w (page_len s - diff)) by (unfold diff; lia).
      rewrite (u32_small (page_len s - diff)) by (unfold diff; lia).
      destruct (Z.leb_spec (begin + size) (base + page_len s)) as [Hlast|Hmore];
        cbn [cr_mem]; cbn zeta.
      * split.
        -- intros c Hc. rewrite slice_addr_head by (unfold diff; lia).
           rewrite memcpy_inside by lia. f_equal. lia.
        -- intros a Ha. apply memcpy_outside. lia.
      * set (l := page_len s - diff) in *.
        assert (Hl : 0 < l < size) by (unfold l, diff; lia).
        rewrite (u32_small (size - l)), (u32_small (begin + l))
          by (unfold l, diff in *; lia).
        replace (begin + size) with (begin + l + (size - l)) by lia.
        destruct (IH (memcpy m dst (page_base s + diff) l) (dst + l)
                    (size - l) (begin + l) (base + page_len s)) as [D F];
          auto; try (unfold l, diff in *; lia).
        { eapply buffer_apart_sub; eauto; lia. }
        cbn zeta in D, F.
        replace (begin + l - (base + page_len s)) with 0 in D
          by (unfold l, diff; lia).
        split.
        -- intros c Hc.
           destruct (Z.lt_ge_cases c l) as [Hlt|Hge].
           ++ rewrite F by lia.
              rewrite memcpy_inside by lia.
              rewrite slice_addr_head by (unfold l in *; lia). f_equal. lia.
           ++ replace (dst + c) with (dst + l + (c - l)) by lia.
              rewrite D by lia.
              rewrite slice_addr_tail by (unfold l in *; lia).
              replace (diff + c - page_len s) with (0 + (c - l))
                by (unfold l; lia).
              assert (Hin' : in_slices ss (slice_addr ss (0 + (c - l))) = true).
              { apply slice_addr_in_slices; auto. unfold l, diff in *. lia. }
              apply memcpy_outside.
              destruct (Z.lt_ge_cases (slice_addr ss (0 + (c - l))) dst);
                [auto|].
              destruct (Z.lt_ge_cases (slice_addr ss (0 + (c - l))) (dst + l));
                [|auto].
              rewrite (buffer_apart_not_in dst size ss) in Hin';
                [discriminate|auto|lia].
        -- intros a Ha. rewrite F by lia. apply memcpy_outside. lia.
Qed.

Lemma ulen_nonneg w x : 0 <= ulen w x.
Proof.
  unfold ulen. apply Z.mod_pos_bound. destruct w; cbn [len_bits]; lia.
Qed.

Lemma memcpy_singlebuffer_r_loop_nothing_left w ss : forall m pDst begin pos a,
  cr_mem (memcpy_singlebuffer_r_loop w ss m pDst 0 begin pos) a = m a.
Proof.
  induction ss as [|s ss IH]; intros m pDst begin pos a;
    cbn [memcpy_singlebuffer_r_loop].
  - reflexivity.
  - destruct (ulen w (pos + page_len s) <=? begin); [apply IH|].
    pose proof (ulen_nonneg w (page_len s - u32 (begin - pos))) as Hav.
    destruct (Z.ltb_spec (ulen w (page_len s - u32 (begin - pos))) 0); [lia|].
    change (u32 (0 - 0)) with 0. rewrite IH, MEMCPY_S_same.
    apply memcpy_empty. lia.
Qed.

Lemma memcpy_singlebuffer_r_loop_effect w ss : forall m dst size begin base,
  lens_nonneg ss = true ->
  0 <= base <= begin -> begin <= base + total_len ss ->
  base + total_len ss <= UINT32_MAX ->
  0 <= size <= UINT32_MAX ->
  let n := Z.min size (base + total_len ss - begin) in
  buffer_apart dst n ss = true ->
  let m' := cr_mem (memcpy_singlebuffer_r_loop w ss m dst size begin base) in
  (forall j, 0 <= j < n ->
     m' (dst + j) = m (slice_addr ss (begin - base + j))) /\
  (forall a, a < dst \/ dst + n <= a -> m' a = m a).
Proof.
  induction ss as [|s ss IH]; intros m dst size begin base Hnn Hbase Hbegin
    Hmax Hsz n Hdst; cbn [memcpy_singlebuffer_r_loop total_len] in *.
  - cbn zeta. split; [intros c Hc; unfold n in Hc; lia | reflexivity].
  - apply lens_nonneg_cons in Hnn. destruct Hnn as [Hs Hss].
    apply buffer_apart_cons in Hdst. destruct Hdst as [Hdst_s Hdst_ss].
    pose proof (total_len_nonneg ss Hss) as Ht.
    rewrite !MEMCPY_S_same.
    rewrite (ulen_small w (base + page_len s)) by lia.
    rewrite (u32_small (base + page_len s)) by lia.
    destruct (Z.leb_spec (base + page_len s) begin) as [Hskip|Hin].
    + destruct (IH m dst size begin (base + page_len s)) as [D F];
        auto; try lia.
      { replace (base + page_len s + total_len ss - begin)
          with (base + (page_len s + total_len ss) - begin) by lia.
        exact Hdst_ss. }
      cbn zeta in *.
      replace (base + page_len s + total_len ss - begin)
        with (base + (page_len s + total_len ss) - begin) in D, F by lia.
      fold n in D, F. split; [|exact F].
      intros c Hc. rewrite slice_addr_tail by lia.
      replace (begin - base + c - page_len s)
        with (begin - (base + page_len s) + c) by lia.
      now apply D.
    + set (diff := begin - base) in *.
      rewrite (u32_small diff) by (unfold diff; lia).
      rewrite (ulen_small w (page_len s - diff)) by (unfold diff; lia).
      set (avail := page_len s - diff) in *.
      assert (Hav : 0 < avail <= UINT32_MAX) by (unfold avail, diff; lia).
      cbn zeta.
      destruct (Z.ltb_spec avail size) as [Hmore|Hlast].
      * rewrite (u32_small avail) by lia.
        rewrite (u32_small (size - avail)), (u32_small (begin + avail))
          by (unfold avail, diff in *; lia).
        assert (Hn : n = avail + Z.min (size - avail) (total_len ss))
          by (unfold n, avail, diff; lia).
        destruct (IH (memcpy m dst (page_base s + diff) avail) (dst + avail)
                    (size - avail) (begin + avail) (base + page_len s))
          as [D F]; auto; try (unfold avail, diff in *; lia).
        { replace (base + page_len s + total_len ss - (begin + avail))
            with (total_len ss) by (unfold avail, diff; lia).
          eapply buffer_apart_sub; eauto; lia. }
        cbn zeta in D, F.
        replace (base + page_len s + total_len ss - (begin + avail))
          with (total_len ss) in D, F by (unfold avail, diff; lia).
        replace (begin + avail - (base + page_len s)) with 0 in D
          by (unfold avail, diff; lia).
        split.
        -- intros c Hc.
           destruct (Z.lt_ge_cases c avail) as [Hlt|Hge].
           ++ rewrite F by lia.
              rewrite memcpy_inside by lia.
              rewrite slice_addr_head by (unfold avail in *; lia).
              f_equal. lia.
           ++ replace (dst + c) with (dst + avail + (c - avail)) by lia.
              rewrite D by lia.
              rewrite slice_addr_tail by (unfold avail in *; lia).
              replace (diff + c - page_len s) with (0 + (c - avail))
                by (unfold avail; lia).
              assert (Hin' : in_slices ss (slice_addr ss (0 + (c - avail)))
                             = true).
              { apply slice_addr_in_slices; auto. lia. }
              apply memcpy_outside.
              destruct (Z.lt_ge_cases (slice_addr ss (0 + (c - avail))) dst);
                [auto|].
              destruct (Z.lt_ge_cases (slice_addr ss (0 + (c - avail)))
                          (dst + avail)); [|auto].
              rewrite (buffer_apart_not_in dst n ss) in Hin';
                [discriminate|auto|lia].
        -- intros a Ha. rewrite F by lia. apply memcpy_outside. lia.
      * assert (Hn : n = size) by (unfold n, avail, diff in *; lia).
        rewrite Z.sub_diag. change (u32 0) with 0.
        split.
        -- intros c Hc.
           rewrite memcpy_singlebuffer_r_loop_nothing_left.
           rewrite memcpy_inside by lia.
           rewrite slice_addr_head by (unfold avail in *; lia).
           f_equal. lia.
        -- intros a Ha. rewrite memcpy_singlebuffer_r_loop_nothing_left.
           apply memcpy_outside. lia.
Qed.

(** X3.  In the single-buffer layout the read copies the bytes found from
    the plane offset [k] on, as many as were asked for or, if fewer are
    left behind [k], only those; it changes nothing but these bytes of the
    destination and returns 0 in both cases. *)
Theorem singlebuffer_read_copies_what_is_there :
  forall w m res idx dst size,
    planes_layout res = VIRTIO_VIDEO_PLANES_LAYOUT_SINGLE_BUFFER ->
    dst <> NULL ->
    let ss := plane_slices res 0 in
    let k := plane_offset res idx in
    let n := Z.min size (total_len ss - k) in
    let out := virtio_video_memcpy_r w m res idx dst size in
    lens_nonneg ss = true ->
    total_len ss <= UINT32_MAX ->
    0 <= k <= total_len ss ->
    0 <= size <= UINT32_MAX ->
    buffer_apart dst n ss = true ->
    cr_ret out = 0 /\
    (forall j, 0 <= j < n -> cr_mem out (dst + j) = m (slice_addr ss (k + j))) /\
    (forall a, a < dst \/ dst + n <= a -> cr_mem out a = m a).
Proof.
  intros w m res idx dst size Hlay Hdst ss k n out Hnn HL Hk Hsz Hap.
  subst out. unfold virtio_video_memcpy_r, virtio_video_memcpy_singlebuffer_r.
  rewrite Hlay, Z.eqb_refl.
  destruct (Z.eqb_spec dst NULL); [contradiction|]. fold ss. fold k.
  split; [apply memcpy_singlebuffer_r_loop_ret|].
  pose proof (memcpy_singlebuffer_r_loop_effect w ss m dst size k 0) as Heff.
  cbn zeta in Heff. rewrite Z.add_0_l, Z.sub_0_r in Heff.
  apply Heff; auto; lia.
Qed.

Lemma singlebuffer_read_copies_what_is_there_witness :
  let ss := plane_slices res_single 0 in
  let out := virtio_video_memcpy_r Len64 pattern_mem res_single 1 600 9 in
  cr_ret out = 0 /\
  (forall j, 0 <= j < Z.min 9 (total_len ss - plane_offset res_single 1) ->
     cr_mem out (600 + j) = pattern_mem (slice_addr ss (6 + j))) /\
  (forall a, a < 600 \/
             600 + Z.min 9 (total_len ss - plane_offset res_single 1) <= a ->
     cr_mem out a = pattern_mem a).
Proof.
  apply (singlebuffer_read_copies_what_is_there Len64 pattern_mem res_single
           1%nat 600 9).
  - reflexivity.
  - discriminate.
  - reflexivity.
  - unfold UINT32_MAX. cbn. lia.
  - cbn. lia.
  - unfold UINT32_MAX. lia.
  - reflexivity.
Defined.

(** X4.  In the single-buffer layout a write of [size] bytes that fit
    behind the plane offset, followed by a read of [size] bytes from the
    same plane, returns 0 twice and delivers the source bytes. *)
Theorem singlebuffer_write_then_read_roundtrip :
  forall w m res idx src dst size,
    planes_layout res = VIRTIO_VIDEO_PLANES_LAYOUT_SINGLE_BUFFER ->
    remapped_base res = NULL ->
    dst <> NULL ->
    let ss := plane_slices res 0 in
    let k := plane_offset res idx in
    lens_nonneg ss = true -> slices_disjoint ss = true ->
    total_len ss <= UINT32_MAX ->
    0 <= k -> 0 <= size -> k + size <= total_len ss ->
    buffer_apart src size ss = true ->
    buffer_apart dst size ss = true ->
    let written := virtio_video_memcpy w m res idx src size in
    let read := virtio_video_memcpy_r w (cr_mem written) res idx dst size in
    cr_ret written = 0 /\ cr_ret read = 0 /\
    forall j, 0 <= j < size -> cr_mem read (dst + j) = m (src + j).
Proof.
  intros w m res idx src dst size Hlay Hnull Hdst ss k Hnn Hdis HL Hk Hsz Hfit
    Hsrc Hdstap written read.
  subst written read.
  unfold virtio_video_memcpy, virtio_video_memcpy_singlebuffer,
    virtio_video_memcpy_r, virtio_video_memcpy_singlebuffer_r.
  rewrite Hlay, Z.eqb_refl, Hnull.
  destruct (Z.eqb_spec dst NULL); [contradiction|].
  cbn [Z.eqb NULL negb]. fold k. fold ss.
  rewrite (u32_small (k + size)) by lia.
  set (m1 := cr_mem (memcpy_singlebuffer_loop w ss m src size k (k + size) 0)).
  destruct (memcpy_singlebuffer_loop_code w ss m src size k 0) as [Wret _];
    auto; try lia.
  pose proof (memcpy_singlebuffer_loop_effect w ss m src size k 0) as Weff.
  rewrite Z.sub_0_r in Weff.
  destruct Weff as [Wdata _]; auto; try lia.
  pose proof (memcpy_singlebuffer_r_loop_effect w ss m1 dst size k 0) as Reff.
  cbn zeta in Reff. rewrite Z.add_0_l, Z.sub_0_r in Reff.
  replace (Z.min size (total_len ss - k)) with size in Reff by lia.
  destruct Reff as [Rdata _]; auto; try lia.
  split; [|split].
  - cbn zeta in Wret. rewrite Wret.
    destruct (Z.ltb_spec (0 + total_len ss) (k + size)); [lia|].
    now rewrite andb_false_r.
  - apply memcpy_singlebuffer_r_loop_ret.
  - intros j Hj. rewrite Rdata by exact Hj. now apply Wdata.
Qed.

Lemma singlebuffer_write_then_read_roundtrip_witness :
  let written := virtio_video_memcpy Len64 pattern_mem res_single 1 10 5 in
  let read := virtio_video_memcpy_r Len64 (cr_mem written) res_single 1 600 5 in
  cr_ret written = 0 /\ cr_ret read = 0 /\
  forall j, 0 <= j < 5 -> cr_mem read (600 + j) = pattern_mem (10 + j).
Proof.
  apply (singlebuffer_write_then_read_roundtrip Len64 pattern_mem res_single
           1%nat 10 600 5).
  - reflexivity.
  - reflexivity.
  - discriminate.
  - reflexivity.
  - reflexivity.
  - unfold UINT32_MAX. cbn. lia.
  - cbn. lia.
  - lia.
  - cbn. lia.
  - reflexivity.
  - reflexivity.
Defined.

(** X5.  Unlike the per-plane dump, the single-buffer dump is strict: it
    returns 0 exactly when nothing is asked for or the bytes asked for lie
    within the slices behind the plane offset, and -1, with the error
    reported, exactly otherwise. *)
Theorem singlebuffer_dump_result :
  forall w m res idx dst size,
    planes_layout res = VIRTIO_VIDEO_PLANES_LAYOUT_SINGLE_BUFFER ->
    let ss := plane_slices res 0 in
    let k := plane_offset res idx in
    let out := virtio_video_memdump w m res idx dst size in
    lens_nonneg ss = true ->
    total_len ss <= UINT32_MAX ->
    0 <= k -> 0 <= size -> k + size <= UINT32_MAX ->
    (cr_ret out = 0 <-> size = 0 \/ k + size <= total_len ss) /\
    (cr_ret out = -1 <-> 0 < size /\ total_len ss < k + size) /\
    (cr_reported out = true <-> cr_ret out = -1).
Proof.
  intros w m res idx dst size Hlay ss k out Hnn HL Hk Hsz Hend.
  subst out. unfold virtio_video_memdump, virtio_video_memdump_singlebuffer.
  rewrite Hlay, Z.eqb_refl. fold k. fold ss.
  rewrite (u32_small (k + size)) by lia.
  destruct (memdump_singlebuffer_loop_code w ss m dst size k 0) as [Hret Hrep];
    auto; try lia.
  cbn zeta in Hret, Hrep. rewrite Hret, Hrep. rewrite Z.add_0_l.
  destruct (Z.ltb_spec 0 size); destruct (Z.ltb_spec (total_len ss) (k + size));
    cbn [andb]; repeat split; intros; try lia; try discriminate; auto.
Qed.

Lemma singlebuffer_dump_result_witness :
  let out := virtio_video_memdump Len64 pattern_mem res_single 1 600 7 in
  (cr_ret out = 0 <-> 7 = 0 \/ 6 + 7 <= 12) /\
  (cr_ret out = -1 <-> 0 < 7 /\ 12 < 6 + 7) /\
  (cr_reported out = true <-> cr_ret out = -1).
Proof.
  apply (singlebuffer_dump_result Len64 pattern_mem res_single 1%nat 600 7).
  - reflexivity.
  - reflexivity.
  - unfold UINT32_MAX. cbn. lia.
  - cbn. lia.
  - lia.
  - unfold UINT32_MAX. cbn. lia.
Defined.

(** X6.  In the single-buffer layout a write that fits followed by a dump
    of the same plane and size returns 0 twice and delivers the source
    bytes, leaving the rest of memory as the write left it. *)
Theorem singlebuffer_write_then_dump_roundtrip :
  forall w m res idx src dst size,
    planes_layout res = VIRTIO_VIDEO_PLANES_LAYOUT_SINGLE_BUFFER ->
    remapped_base res = NULL ->
    let ss := plane_slices res 0 in
    let k := plane_offset res idx in
    lens_nonneg ss = true -> slices_disjoint ss = true ->
    total_len ss <= UINT32_MAX ->
    0 <= k -> 0 <= size -> k + size <= total_len ss ->
    buffer_apart src size ss = true ->
    buffer_apart dst size ss = true ->
    let written := virtio_video_memcpy w m res idx src size in
    let dumped := virtio_video_memdump w (cr_mem written) res idx dst size in
    cr_ret written = 0 /\ cr_ret dumped = 0 /\
    (forall j, 0 <= j < size -> cr_mem dumped (dst + j) = m (src + j)) /\
    (forall a, a < dst \/ dst + size <= a ->
       cr_mem dumped a = cr_mem written a).
Proof.
  intros w m res idx src dst size Hlay Hnull ss k Hnn Hdis HL Hk Hsz Hfit
    Hsrc Hdstap written dumped.
  subst written dumped.
  unfold virtio_video_memcpy, virtio_video_memcpy_singlebuffer,
    virtio_video_memdump, virtio_video_memdump_singlebuffer.
  rewrite Hlay, Z.eqb_refl, Hnull. cbn [Z.eqb NULL negb]. fold k. fold ss.
  rewrite (u32_small (k + size)) by lia.
  set (m1 := cr_mem (memcpy_singlebuffer_loop w ss m src size k (k + size) 0)).
  destruct (memcpy_singlebuffer_loop_code w ss m src size k 0) as [Wret _];
    auto; try lia.
  pose proof (memcpy_singlebuffer_loop_effect w ss m src size k 0) as Weff.
  rewrite Z.sub_0_r in Weff.
  destruct Weff as [Wdata _]; auto; try lia.
  destruct (memdump_singlebuffer_loop_code w ss m1 dst size k 0) as [Dret _];
    auto; try lia.
  pose proof (memdump_singlebuffer_loop_effect w ss m1 dst size k 0) as Deff.
  cbn zeta in Deff. rewrite Z.sub_0_r in Deff.
  destruct Deff as [Ddata Dframe]; auto; try lia.
  assert (Hok : (0 <? size) && (0 + total_len ss <? k + size) = false).
  { destruct (Z.ltb_spec (0 + total_len ss) (k + size)); [lia|].
    now rewrite andb_false_r. }
  cbn zeta in Wret, Dret. rewrite Hok in Wret, Dret.
  split; [exact Wret|]. split; [exact Dret|]. split.
  - intros j Hj. rewrite Ddata by exact Hj. now apply Wdata.
  - exact Dframe.
Qed.

Lemma singlebuffer_write_then_dump_roundtrip_witness :
  let written := virtio_video_memcpy Len64 pattern_mem res_single 1 10 5 in
  let dumped := virtio_video_memdump Len64 (cr_mem written) res_single 1 600 5 in
  cr_ret written = 0 /\ cr_ret dumped = 0 /\
  (forall j, 0 <= j < 5 -> cr_mem dumped (600 + j) = pattern_mem (10 + j)) /\
  (forall a, a < 600 \/ 600 + 5 <= a -> cr_mem dumped a = cr_mem written a).
Proof.
  apply (singlebuffer_write_then_dump_roundtrip Len64 pattern_mem res_single
           1%nat 10 600 5).
  - reflexivity.
  - reflexivity.
  - reflexivity.
  - reflexivity.
  - unfold UINT32_MAX. cbn. lia.
  - cbn. lia.
  - lia.
  - cbn. lia.
  - reflexivity.
  - reflexivity.
Defined.

(** ** Per-plane write that does not fit, and per-plane dump *)

Lemma memcpy_perplane_loop_overrun ss : forall m src size,
  lens_nonneg ss = true -> slices_disjoint ss = true ->
  total_len ss < size -> size <= UINT32_MAX ->
  buffer_apart src (total_len ss) ss = true ->
  (forall j, 0 <= j < total_len ss ->
     cr_mem (memcpy_perplane_loop ss m src size) (slice_addr ss j) = m (src + j)) /\
  (forall a, in_slices ss a = false ->
     cr_mem (memcpy_perplane_loop ss m src size) a = m a).
Proof.
  induction ss as [|s ss IH]; intros m src size Hnn Hdis Hsz Hmax Hsrc;
    cbn [memcpy_perplane_loop total_len] in *.
  - split; [intros j Hj; lia | intros a _; destruct (0 <? size); reflexivity].
  - apply lens_nonneg_cons in Hnn. destruct Hnn as [Hs Hss].
    cbn [slices_disjoint] in Hdis. apply andb_true_iff in Hdis.
    destruct Hdis as [Hap Hdis].
    apply buffer_apart_cons in Hsrc. destruct Hsrc as [Hsrc_s Hsrc_ss].
    pose proof (total_len_nonneg ss Hss) as Ht.
    rewrite !MEMCPY_S_same.
    destruct (Z.leb_spec size (page_len s)) as [Hle|Hgt]; [lia|].
    rewrite (u32_small (size - page_len s)) by lia.
    destruct (IH (memcpy m (page_base s) src (page_len s))
                (src + page_len s) (size - page_len s))
      as [IHdata IHframe]; auto; try lia.
    { eapply buffer_apart_sub; eauto; lia. }
    split.
    + intros j Hj.
      destruct (Z.lt_ge_cases j (page_len s)) as [Hlt|Hge].
      * rewrite slice_addr_head by auto.
        rewrite IHframe by (apply (slice_apart_not_in s); auto; lia).
        rewrite memcpy_inside by lia. f_equal. lia.
      * rewrite slice_addr_tail by auto.
        rewrite IHdata by lia.
        rewrite memcpy_outside.
        -- f_equal. lia.
        -- assert (Hno : ~ (page_base s <= src + page_len s + (j - page_len s)
                            < page_base s + page_len s)).
           { intros Hin.
             apply (ranges_apart_spec _ _ _ _
                      (src + page_len s + (j - page_len s)) Hsrc_s); lia. }
           lia.
    + intros a Ha. apply in_slices_false_cons in Ha. destruct Ha as [Ha Hass].
      rewrite IHframe by auto. apply memcpy_outside. lia.
Qed.

(** X7.  A per-plane write of more bytes than the plane's slices hold is
    not undone: it returns -1 after filling every slice, so the whole
    plane holds the first [L] source bytes; memory outside the slices is
    unchanged. *)
Theorem perplane_write_overrun_fills_plane :
  forall w m res idx src size,
    planes_layout res = VIRTIO_VIDEO_PLANES_LAYOUT_PER_PLANE ->
    let ss := plane_slices res idx in
    let out := virtio_video_memcpy w m res idx src size in
    lens_nonneg ss = true -> slices_disjoint ss = true ->
    total_len ss < size -> size <= UINT32_MAX ->
    buffer_apart src (total_len ss) ss = true ->
    cr_ret out = -1 /\
    (forall j, 0 <= j < total_len ss ->
       cr_mem out (slice_addr ss j) = m (src + j)) /\
    (forall a, in_slices ss a = false -> cr_mem out a = m a).
Proof.
  intros w m res idx src size Hlay ss out Hnn Hdis Hsz Hmax Hsrc.
  subst out. rewrite (virtio_video_memcpy_perplane_layout _ _ _ _ _ _ Hlay).
  fold ss. pose proof (total_len_nonneg ss Hnn) as Ht.
  split.
  - rewrite memcpy_perplane_loop_ret by (auto; lia).
    destruct (Z.leb_spec size (total_len ss)); [lia|reflexivity].
  - apply memcpy_perplane_loop_overrun; auto.
Qed.

Lemma perplane_write_overrun_fills_plane_witness :
  let ss := plane_slices res_perplane 0 in
  let out := virtio_video_memcpy Len64 pattern_mem res_perplane 0 10 14 in
  cr_ret out = -1 /\
  (forall j, 0 <= j < total_len ss ->
     cr_mem out (slice_addr ss j) = pattern_mem (10 + j)) /\
  (forall a, in_slices ss a = false -> cr_mem out a = pattern_mem a).
Proof.
  apply (perplane_write_overrun_fills_plane Len64 pattern_mem res_perplane
           0%nat 10 14).
  - reflexivity.
  - reflexivity.
  - reflexivity.
  - cbn. lia.
  - unfold UINT32_MAX. lia.
  - reflexivity.
Defined.

(** X8.  In the per-plane layout a write that fits followed by a dump of
    the same plane and size returns 0 twice, reports no shortfall and
    delivers the source bytes. *)
Theorem perplane_write_then_dump_roundtrip :
  forall w m res idx src dst size,
    planes_layout res = VIRTIO_VIDEO_PLANES_LAYOUT_PER_PLANE ->
    let ss := plane_slices res idx in
    lens_nonneg ss = true -> slices_disjoint ss = true ->
    0 <= size <= total_len ss -> size <= UINT32_MAX ->
    buffer_apart src size ss = true ->
    buffer_apart dst size ss = true ->
    let written := virtio_video_memcpy w m res idx src size in
    let dumped := virtio_video_memdump w (cr_mem written) res idx dst size in
    cr_ret written = 0 /\ cr_ret dumped = 0 /\ cr_reported dumped = false /\
    forall j, 0 <= j < size -> cr_mem dumped (dst + j) = m (src + j).
Proof.
  intros w m res idx src dst size Hlay ss Hnn Hdis Hsz Hmax Hsrc Hdst
    written dumped.
  subst written dumped.
  unfold virtio_video_memcpy, virtio_video_memdump.
  rewrite Hlay. cbn [Z.eqb VIRTIO_VIDEO_PLANES_LAYOUT_PER_PLANE
                     VIRTIO_VIDEO_PLANES_LAYOUT_SINGLE_BUFFER Pos.eqb].
  unfold virtio_video_memcpy_perplane, virtio_video_memdump_perplane.
  fold ss.
  set (m1 := cr_mem (memcpy_perplane_loop ss m src size)).
  destruct (memcpy_perplane_loop_effect ss m src size) as [Wdata _]; auto.
  destruct (memcpy_perplane_r_loop_effect ss m1 dst 0 size)
    as [Rdata _]; auto; try lia.
  { now rewrite Z.add_0_r. }
  split; [|split; [|split]].
  - rewrite memcpy_perplane_loop_ret by (auto; lia).
    destruct (Z.leb_spec size (total_len ss)); [auto|lia].
  - apply memdump_perplane_loop_ret.
  - rewrite memdump_perplane_loop_reported by (auto; lia).
    destruct (Z.leb_spec size (total_len ss)); [auto|lia].
  - intros j Hj.
    pose proof (memdump_perplane_loop_as_read ss m1 m1 dst 0 size Hnn
                  ltac:(lia) ltac:(lia) ltac:(lia) (fun a => eq_refl)
                  (dst + j)) as Hsame.
    rewrite Z.add_0_r in Hsame. rewrite Hsame.
    specialize (Rdata j Hj). rewrite Z.add_0_r in Rdata.
    rewrite Rdata. now apply Wdata.
Qed.

Lemma perplane_write_then_dump_roundtrip_witness :
  let written := virtio_video_memcpy Len64 pattern_mem res_perplane 0 10 8 in
  let dumped := virtio_video_memdump Len64 (cr_mem written) res_perplane 0 600 8 in
  cr_ret written = 0 /\ cr_ret dumped = 0 /\ cr_reported dumped = false /\
  forall j, 0 <= j < 8 -> cr_mem dumped (600 + j) = pattern_mem (10 + j).
Proof.
  apply (perplane_write_then_dump_roundtrip Len64 pattern_mem res_perplane
           0%nat 10 600 8).
  - reflexivity.
  - reflexivity.
  - reflexivity.
  - cbn. lia.
  - unfold UINT32_MAX. lia.
  - reflexivity.
  - reflexivity.
Defined.

(** ** Line-strided write: result code and exhausted slices *)

Lemma u32_sub_l a b : u32 (u32 a - b) = u32 (a - b).
Proof. unfold u32. apply Zminus_mod_idemp_l. Qed.

Lemma u32_range x : 0 <= u32 x <= UINT32_MAX.
Proof.
  unfold u32, UINT32_MAX.
  pose proof (Z.mod_pos_bound x (2 ^ 32) ltac:(lia)). lia.
Qed.

Section BylineCursor.
Variable ss : list VirtIOVideoResourceSlice.
Variables src_uv width height pitch : Z.
Hypothesis Hnn : lens_nonneg ss = true.
Hypothesis Hmax : total_len ss <= UINT32_MAX.
Hypothesis Hwidth : 0 <= width <= UINT32_MAX.

Lemma byline_carry_cursor : forall fuel p s m q dg lg sz mg,
  nth_error ss p = Some s -> (length ss - p <= fuel)%nat ->
  0 < mg ->
  prefix_len ss (S p) + mg <= total_len ss ->
  exists st',
    byline_carry ss (Z.of_nat (length ss)) width pitch fuel
      (mkByline m q (Z.of_nat p) dg lg sz mg) = Done st' /\
    at_cursor ss st' (prefix_len ss (S p) + mg) /\
    bl_size st' = u32 (sz - mg).
Proof.
  induction fuel as [|fuel IH]; intros p s m q dg lg sz mg Hp Hfuel Hmg Hfit.
  - assert (p < length ss)%nat by (apply nth_error_Some; congruence). lia.
  - assert (Hplt : (p < length ss)%nat) by (apply nth_error_Some; congruence).
    cbn [byline_carry bl_margin bl_page bl_mem bl_src bl_size].
    destruct (Z.ltb_spec 0 mg); [|lia].
    destruct (Z.ltb_spec (Z.of_nat p) (Z.of_nat (length ss))); [|lia].
    cbn [andb].
    replace (Z.of_nat p + 1) with (Z.of_nat (S p)) by lia.
    rewrite slice_at_nat.
    destruct (nth_error ss (S p)) as [s'|] eqn:Hp'.
    2:{ apply nth_error_None in Hp'.
        rewrite (prefix_len_all ss (S p)) in Hfit by auto. lia. }
    destruct (slice_within_total ss (S p) s' Hnn Hp') as [Hlen' Htot'].
    pose proof (prefix_len_bounds ss (S p) Hnn) as Hpre.
    rewrite (u32_small (page_len s')) by lia.
    destruct (Z.leb_spec mg (page_len s')) as [Hle|Hgt].
    + rewrite byline_carry_no_margin by reflexivity.
      eexists. split; [reflexivity|]. cbn [bl_size]. split; [|reflexivity].
      exists (S p), s'. cbn [bl_page bl_diff bl_len].
      rewrite (u32_small (page_len s' - mg)) by lia.
      repeat split; auto; lia.
    + rewrite (u32_small (mg - page_len s')) by lia.
      destruct (IH (S p) s'
                  (MEMCPY_S m (page_base s') q (page_len s') (page_len s'))
                  (q + page_len s') 0 (page_len s')
                  (u32 (sz - page_len s')) (mg - page_len s'))
        as [st' [Hrun [Hcur Hsize]]]; auto; try lia.
      { rewrite (prefix_len_S ss (S p) s' Hp'). lia. }
      exists st'. split; [exact Hrun|]. split.
      * rewrite (prefix_len_S ss (S p) s' Hp') in Hcur.
        replace (prefix_len ss (S p) + mg)
          with (prefix_len ss (S p) + page_len s' + (mg - page_len s')) by lia.
        exact Hcur.
      * rewrite Hsize, u32_sub_l. f_equal. lia.
Qed.

Lemma byline_carry_exhausted : forall fuel p s m q dg lg sz mg,
  nth_error ss p = Some s -> (length ss - p <= fuel)%nat ->
  0 < mg <= UINT32_MAX ->
  total_len ss < prefix_len ss (S p) + mg ->
  byline_carry ss (Z.of_nat (length ss)) width pitch fuel
    (mkByline m q (Z.of_nat p) dg lg sz mg) = OutOfBounds.
Proof.
  induction fuel as [|fuel IH]; intros p s m q dg lg sz mg Hp Hfuel Hmg Hshort.
  - assert (p < length ss)%nat by (apply nth_error_Some; congruence). lia.
  - assert (Hplt : (p < length ss)%nat) by (apply nth_error_Some; congruence).
    cbn [byline_carry bl_margin bl_page bl_mem bl_src bl_size].
    destruct (Z.ltb_spec 0 mg); [|lia].
    destruct (Z.ltb_spec (Z.of_nat p) (Z.of_nat (length ss))); [|lia].
    cbn [andb].
    replace (Z.of_nat p + 1) with (Z.of_nat (S p)) by lia.
    rewrite slice_at_nat.
    destruct (nth_error ss (S p)) as [s'|] eqn:Hp'; [|reflexivity].
    destruct (slice_within_total ss (S p) s' Hnn Hp') as [Hlen' Htot'].
    rewrite (u32_small (page_len s')) by lia.
    destruct (Z.leb_spec mg (page_len s')) as [Hle|Hgt]; [lia|].
    rewrite (u32_small (mg - page_len s')) by lia.
    apply (IH (S p) s'); auto; try lia.
    rewrite (prefix_len_S ss (S p) s' Hp'). lia.
Qed.

Lemma byline_row_cursor rows i st pos :
  at_cursor ss st pos -> 0 <= pos -> pos + width <= total_len ss ->
  exists st',
    byline_rows ss (Z.of_nat (length ss)) src_uv width height pitch
      (S rows) i st
    = byline_rows ss (Z.of_nat (length ss)) src_uv width height pitch
        rows (i + 1) st' /\
    at_cursor ss st' (pos + width) /\
    bl_size st' = u32 (bl_size st - width).
Proof.
  intros [p [s [Hpage [Hp [Hdiff [Hlen [Hsum Hpos]]]]]]] Hpos0 Hfit.
  assert (Hplt : (p < length ss)%nat) by (apply nth_error_Some; congruence).
  destruct (slice_within_total ss p s Hnn Hp) as [Hslen Hstot].
  pose proof (prefix_len_bounds ss p Hnn) as Hpre.
  cbn [byline_rows]. rewrite Hpage.
  destruct (Z.ltb_spec (Z.of_nat p) (Z.of_nat (length ss))); [|lia].
  rewrite slice_at_nat, Hp.
  destruct (Z.leb_spec width (bl_len st)) as [Hle|Hgt].
  - eexists. split; [reflexivity|]. cbn [bl_size]. split; [|reflexivity].
    exists p, s. cbn [bl_page bl_diff bl_len].
    rewrite (u32_small (bl_diff st + width)), (u32_small (bl_len st - width))
      by lia.
    repeat split; auto; lia.
  - rewrite (u32_small (width - bl_len st)) by lia.
    match goal with
    | |- context [byline_carry _ _ _ _ ?f (mkByline ?m ?q _ ?dg ?lg ?sz ?mg)] =>
        destruct (byline_carry_cursor f p s m q dg lg sz mg)
          as [st' [Hrun [Hcur Hsize]]]; auto; try lia
    end.
    { rewrite (prefix_len_S ss p s Hp). lia. }
    rewrite Hrun. exists st'. split; [reflexivity|].
    rewrite (prefix_len_S ss p s Hp) in Hcur. split.
    + replace (pos + width)
        with (prefix_len ss p + page_len s + (width - bl_len st)) by lia.
      exact Hcur.
    + rewrite Hsize, u32_sub_l. f_equal. lia.
Qed.

Lemma byline_rows_cursor : forall rows i st pos,
  at_cursor ss st pos -> 0 <= pos ->
  pos + Z.of_nat rows * width <= total_len ss ->
  0 <= bl_size st <= UINT32_MAX ->
  exists st',
    byline_rows ss (Z.of_nat (length ss)) src_uv width height pitch rows i st
    = Done st' /\
    bl_size st' = u32 (bl_size st - Z.of_nat rows * width).
Proof.
  induction rows as [|rows IH]; intros i st pos Hcur Hpos Hfit Hsize.
  - exists st. split; [reflexivity|].
    cbn [Z.of_nat]. rewrite Z.mul_0_l, Z.sub_0_r. symmetry. now apply u32_small.
  - assert (Hfit1 : pos + width <= total_len ss) by nia.
    destruct (byline_row_cursor rows i st pos Hcur Hpos Hfit1)
      as [st1 [Hstep [Hcur1 Hsize1]]].
    destruct (IH (i + 1) st1 (pos + width) Hcur1 ltac:(lia)) as [st' [Hrun Hsz']].
    + nia.
    + rewrite Hsize1. apply u32_range.
    + exists st'. rewrite Hstep. split; [exact Hrun|].
      rewrite Hsz', Hsize1, u32_sub_l. f_equal. lia.
Qed.

Lemma byline_rows_exhausted : forall rows i st pos,
  at_cursor ss st pos -> 0 <= pos ->
  total_len ss < pos + Z.of_nat rows * width ->
  byline_rows ss (Z.of_nat (length ss)) src_uv width height pitch rows i st
  = OutOfBounds.
Proof.
  induction rows as [|rows IH]; intros i st pos Hcur Hpos Hshort.
  - exfalso. destruct Hcur as [p [s [_ [Hp [Hdiff [Hlen [Hsum Hpos']]]]]]].
    destruct (slice_within_total ss p s Hnn Hp) as [_ Htot]. lia.
  - destruct (Z.le_gt_cases (pos + width) (total_len ss)) as [Hfit1|Hnofit].
    + destruct (byline_row_cursor rows i st pos Hcur Hpos Hfit1)
        as [st1 [Hstep [Hcur1 _]]].
      rewrite Hstep. apply (IH (i + 1) st1 (pos + width)); auto; lia.
    + destruct Hcur as [p [s [Hpage [Hp [Hdiff [Hlen [Hsum Hpos']]]]]]].
      assert (Hplt : (p < length ss)%nat) by (apply nth_error_Some; congruence).
      destruct (slice_within_total ss p s Hnn Hp) as [Hslen Hstot].
      cbn [byline_rows]. rewrite Hpage.
      destruct (Z.ltb_spec (Z.of_nat p) (Z.of_nat (length ss))); [|lia].
      rewrite slice_at_nat, Hp.
      destruct (Z.leb_spec width (bl_len st)) as [Hle|Hgt]; [lia|].
      rewrite (u32_small (width - bl_len st)) by lia.
      rewrite (byline_carry_exhausted _ p s); auto; try lia.
      rewrite (prefix_len_S ss p s Hp). lia.
Qed.
End BylineCursor.

Lemma u32_diff_zero a b :
  0 <= a <= UINT32_MAX -> 0 <= b <= UINT32_MAX ->
  (u32 (a - b) = 0 <-> a = b).
Proof.
  unfold u32, UINT32_MAX. intros Ha Hb. split.
  - intros H. destruct (Z.le_gt_cases b a) as [Hle|Hgt].
    + rewrite Z.mod_small in H by lia. lia.
    + rewrite <- (Z.mod_add (a - b) 1 (2 ^ 32)) in H by lia.
      rewrite Z.mod_small in H by lia. lia.
  - intros ->. now rewrite Z.sub_diag.
Qed.

(** The call of [virtio_video_memcpy_byline] is its row loop started with
    the cursor at the plane offset, followed by the check on [size]. *)
Lemma byline_start w m res idx src_begin src_uv width height pitch cp_size
    cp_height :
  let ss := plane_slices res idx in
  let begin := plane_offset res idx in
  num_entries res 0 = num_entries res idx ->
  lens_nonneg ss = true ->
  total_len ss <= UINT32_MAX ->
  offset_in_first_slice begin ss = true ->
  exists st0,
    bl_size st0 = cp_size /\ at_cursor ss st0 begin /\ 0 <= begin /\
    virtio_video_memcpy_byline w m res idx src_begin src_uv width height pitch
      cp_size cp_height
    = match byline_rows ss (Z.of_nat (length ss)) src_uv width height pitch
              (Z.to_nat cp_height) 0 st0 with
      | Done st =>
          if 0 <? bl_size st then Done (mkCopy (bl_mem st) (-1) true)
          else Done (mkCopy (bl_mem st) 0 false)
      | OutOfBounds => OutOfBounds
      | OutOfFuel => OutOfFuel
      end.
Proof.
  intros ss begin Hn0 Hnn Hmax Hfirst.
  unfold virtio_video_memcpy_byline. fold ss. fold begin.
  rewrite Hn0. unfold num_entries. fold ss.
  destruct ss as [|s0 rest] eqn:Hss; [discriminate|].
  rewrite <- Hss in *.
  assert (Hp0 : nth_error ss 0 = Some s0) by (rewrite Hss; reflexivity).
  change (slice_at ss 0) with (slice_at ss (Z.of_nat 0)).
  rewrite slice_at_nat, Hp0.
  assert (Hb : 0 <= begin <= page_len s0).
  { rewrite Hss in Hfirst. cbn [offset_in_first_slice] in Hfirst.
    apply andb_true_iff in Hfirst. rewrite !Z.leb_le in Hfirst. exact Hfirst. }
  destruct (slice_within_total ss 0 s0 Hnn Hp0) as [_ Hs0].
  rewrite prefix_len_0 in Hs0.
  rewrite Z.sub_0_r, (u32_small begin) by lia.
  rewrite (ulen_small w (page_len s0 - begin)) by lia.
  rewrite (u32_small (page_len s0 - begin)) by lia.
  eexists. split; [|split; [|split; [|reflexivity]]].
  - reflexivity.
  - exists 0%nat, s0. cbn [bl_page bl_diff bl_len].
    rewrite prefix_len_0. repeat split; auto; lia.
  - lia.
Qed.

Lemma byline_result w m res idx src_begin src_uv width height pitch cp_size
    cp_height :
  let ss := plane_slices res idx in
  let begin := plane_offset res idx in
  num_entries res 0 = num_entries res idx ->
  lens_nonneg ss = true ->
  total_len ss <= UINT32_MAX ->
  offset_in_first_slice begin ss = true ->
  0 <= width -> 0 <= cp_height -> 0 <= cp_size <= UINT32_MAX ->
  begin + cp_height * width <= total_len ss ->
  exists out,
    virtio_video_memcpy_byline w m res idx src_begin src_uv width height pitch
      cp_size cp_height = Done out /\
    (cr_ret out = 0 <-> cp_size = cp_height * width) /\
    (cr_ret out = -1 <-> cp_size <> cp_height * width) /\
    (cr_reported out = true <-> cp_size <> cp_height * width).
Proof.
  intros ss begin Hn0 Hnn Hmax Hfirst Hw Hh Hsz Hfit.
  destruct (byline_start w m res idx src_begin src_uv width height pitch
              cp_size cp_height Hn0 Hnn Hmax Hfirst)
    as [st0 [Hsize0 [Hcur0 [Hb Hcall]]]].
  fold ss begin in Hcur0, Hb, Hcall.
  destruct (Z.eq_dec cp_height 0) as [Hzero|Hne].
  - subst cp_height. rewrite Hcall. cbn [Z.to_nat byline_rows].
    rewrite Hsize0. rewrite Z.mul_0_l.
    destruct (Z.ltb_spec 0 cp_size); eexists; (split; [reflexivity|]);
      cbn [cr_ret cr_reported]; repeat split; intros; try lia; congruence.
  - assert (Hwmax : 0 <= width <= UINT32_MAX) by nia.
    destruct (byline_rows_cursor ss src_uv width height pitch Hnn Hmax Hwmax
                (Z.to_nat cp_height) 0 st0 begin Hcur0 Hb)
      as [st' [Hrun Hsize]].
    + rewrite Z2Nat.id by lia. exact Hfit.
    + rewrite Hsize0. exact Hsz.
    + rewrite Z2Nat.id, Hsize0 in Hsize by lia.
      rewrite Hcall, Hrun.
      assert (Hrows : 0 <= cp_height * width <= UINT32_MAX) by nia.
      pose proof (u32_diff_zero cp_size (cp_height * width) Hsz Hrows) as Hz.
      pose proof (u32_range (cp_size - cp_height * width)) as Hr.
      rewrite Hsize.
      destruct (Z.ltb_spec 0 (u32 (cp_size - cp_height * width))) as [Hpos|Hnil].
      * assert (Hneq : cp_size <> cp_height * width)
          by (intros Heq; apply Hz in Heq; lia).
        eexists. split; [reflexivity|]. cbn [cr_ret cr_reported].
        repeat split; intros; congruence.
      * assert (Heq : cp_size = cp_height * width) by (apply Hz; lia).
        eexists. split; [reflexivity|]. cbn [cr_ret cr_reported].
        repeat split; intros; congruence.
Qed.

(** X9.  On a resource whose plane 0 has as many slices as the plane
    written, with the plane offset within the first slice of that plane:
    when all [cp_height] rows fit the slices, the line-strided write runs
    to its end and returns 0 exactly when [cp_size] equals
    [cp_height * width]; for any other [cp_size] it returns -1 and reports
    an insufficient buffer, although no row was left out. *)
Theorem byline_result_depends_on_cp_size :
  forall w m res idx src_begin src_uv width height pitch cp_size cp_height,
    let ss := plane_slices res idx in
    let begin := plane_offset res idx in
    num_entries res 0 = num_entries res idx ->
    lens_nonneg ss = true ->
    total_len ss <= UINT32_MAX ->
    offset_in_first_slice begin ss = true ->
    0 <= width -> 0 <= cp_height -> 0 <= cp_size <= UINT32_MAX ->
    begin + cp_height * width <= total_len ss ->
    exists out,
      virtio_video_memcpy_byline w m res idx src_begin src_uv width height
        pitch cp_size cp_height = Done out /\
      (cr_ret out = 0 <-> cp_size = cp_height * width) /\
      (cr_ret out = -1 <-> cp_size <> cp_height * width) /\
      (cr_reported out = true <-> cp_size <> cp_height * width).
Proof. intros. now apply byline_result. Qed.

Lemma byline_result_depends_on_cp_size_witness :
  exists out,
    virtio_video_memcpy_byline Len64 pattern_mem res_byline 0 10 40 4 2 6 13 3
    = Done out /\
    (cr_ret out = 0 <-> 13 = 3 * 4) /\
    (cr_ret out = -1 <-> 13 <> 3 * 4) /\
    (cr_reported out = true <-> 13 <> 3 * 4).
Proof.
  apply (byline_result_depends_on_cp_size Len64 pattern_mem res_byline 0%nat
           10 40 4 2 6 13 3).
  - reflexivity.
  - reflexivity.
  - unfold UINT32_MAX. cbn. lia.
  - reflexivity.
  - lia.
  - lia.
  - unfold UINT32_MAX. lia.
  - cbn. lia.
Defined.

(** X10.  On a resource whose plane 0 has as many slices as the plane
    written, with the plane offset within the first slice of that plane:
    when the rows do not all fit the slices, the line-strided write does
    not come to its check on [size]: carrying the row that does not fit,
    it steps past the last slice and reads [slices[idx][page]] with [page]
    equal to the number of slices. *)
Theorem byline_exhausted_reads_past_last_slice :
  forall w m res idx src_begin src_uv width height pitch cp_size cp_height,
    let ss := plane_slices res idx in
    let begin := plane_offset res idx in
    num_entries res 0 = num_entries res idx ->
    lens_nonneg ss = true ->
    total_len ss <= UINT32_MAX ->
    offset_in_first_slice begin ss = true ->
    0 <= width <= UINT32_MAX -> 0 <= cp_height ->
    total_len ss < begin + cp_height * width ->
    virtio_video_memcpy_byline w m res idx src_begin src_uv width height
      pitch cp_size cp_height = OutOfBounds.
Proof.
  intros w m res idx src_begin src_uv width height pitch cp_size cp_height
    ss begin Hn0 Hnn Hmax Hfirst Hw Hh Hshort.
  destruct (byline_start w m res idx src_begin src_uv width height pitch
              cp_size cp_height Hn0 Hnn Hmax Hfirst)
    as [st0 [Hsize0 [Hcur0 [Hb Hcall]]]].
  fold ss begin in Hcur0, Hb, Hcall.
  rewrite Hcall.
  rewrite (byline_rows_exhausted ss src_uv width height pitch Hnn Hmax Hw
             (Z.to_nat cp_height) 0 st0 begin Hcur0 Hb); [reflexivity|].
  rewrite Z2Nat.id by lia. exact Hshort.
Qed.

Lemma byline_exhausted_reads_past_last_slice_witness :
  virtio_video_memcpy_byline Len64 pattern_mem res_byline 0 10 40 4 2 6 16 4
  = OutOfBounds.
Proof.
  apply (byline_exhausted_reads_past_last_slice Len64 pattern_mem res_byline
           0%nat 10 40 4 2 6 16 4).
  - reflexivity.
  - reflexivity.
  - unfold UINT32_MAX. cbn. lia.
  - reflexivity.
  - unfold UINT32_MAX. lia.
  - lia.
  - cbn. lia.
Defined.

(** X11.  [virtio_video_memcpy_ARGB_byline] on a frame whose [height] rows
    of [4 * width] bytes fit the slices returns 0 and reports nothing. *)
Theorem ARGB_byline_succeeds_when_frame_fits :
  forall w m res src width height pitch,
    let ss := plane_slices res 0 in
    let begin := plane_offset res 0 in
    lens_nonneg ss = true ->
    total_len ss <= UINT32_MAX ->
    offset_in_first_slice begin ss = true ->
    0 <= width -> 0 <= height ->
    begin + height * (4 * width) <= total_len ss ->
    exists out,
      virtio_video_memcpy_ARGB_byline w m res src width height pitch
      = Done out /\
      cr_ret out = 0 /\ cr_reported out = false.
Proof.
  intros w m res src width height pitch ss begin Hnn Hmax Hfirst Hw Hh Hfit.
  unfold virtio_video_memcpy_ARGB_byline.
  assert (Hb : 0 <= begin).
  { destruct ss as [|s0 rest]; [discriminate|].
    cbn [offset_in_first_slice] in Hfirst.
    apply andb_true_iff in Hfirst. rewrite !Z.leb_le in Hfirst. lia. }
  assert (Hsize : u32 (u32 (width * height) * 4) = height * u32 (width * 4)).
  { destruct (Z.eq_dec height 0) as [->|Hne].
    - rewrite Z.mul_0_r. reflexivity.
    - assert (0 <= 4 * width <= UINT32_MAX) by nia.
      rewrite (u32_small (width * 4)) by lia.
      rewrite (u32_small (width * height)) by nia.
      rewrite u32_small by nia. lia. }
  assert (Hrows : begin + height * u32 (width * 4) <= total_len ss).
  { destruct (Z.eq_dec height 0) as [->|Hne]; [lia|].
    rewrite (u32_small (width * 4)) by nia. lia. }
  destruct (byline_result w m res 0%nat src src (u32 (width * 4)) height pitch
              (u32 (u32 (width * height) * 4)) height)
    as [out [Hrun [Hzero [_ Hrep]]]]; auto.
  - apply u32_range.
  - apply u32_range.
  - exists out. split; [exact Hrun|]. split.
    + now apply Hzero.
    + destruct (cr_reported out); [|reflexivity].
      exfalso. now apply Hrep.
Qed.

Lemma ARGB_byline_succeeds_when_frame_fits_witness :
  exists out,
    virtio_video_memcpy_ARGB_byline Len64 pattern_mem res_byline 10 1 3 6
    = Done out /\
    cr_ret out = 0 /\ cr_reported out = false.
Proof.
  apply (ARGB_byline_succeeds_when_frame_fits Len64 pattern_mem res_byline
           10 1 3 6).
  - reflexivity.
  - unfold UINT32_MAX. cbn. lia.
  - reflexivity.
  - lia.
  - lia.
  - cbn. lia.
Defined.

Lemma nv12_rows_arith width height :
  0 <= width -> 0 <= height ->
  (width * height * 3 / 2 = height * 3 / 2 * width
   <-> height mod 2 = 0 \/ width <= 1).
Proof.
  intros Hw Hh.
  pose proof (Z.div_mod height 2 ltac:(lia)) as Hh2.
  pose proof (Z.mod_pos_bound height 2 ltac:(lia)) as Hr.
  set (t := height / 2) in *. set (r := height mod 2) in *.
  assert (Hcases : r = 0 \/ r = 1) by lia.
  destruct Hcases as [Hr0|Hr1].
  - rewrite Hr0 in Hh2.
    replace (width * height * 3) with (3 * (width * t) * 2) by (rewrite Hh2; ring).
    replace (height * 3) with (3 * t * 2) by lia.
    rewrite !Z.div_mul by lia. split; [auto | intros _; ring].
  - rewrite Hr1 in Hh2.
    replace (width * height * 3) with ((3 * (width * t) + width) * 2 + width)
      by (rewrite Hh2; ring).
    replace (height * 3) with ((3 * t + 1) * 2 + 1) by lia.
    rewrite !Z.div_add_l by lia.
    change (1 / 2) with 0.
    pose proof (Z.div_small_iff width 2 ltac:(lia)) as Hsmall.
    split.
    + intros Heq. right.
      assert (Hdiv : width / 2 = 0) by nia.
      apply Hsmall in Hdiv. lia.
    + intros [Hbad|Hle]; [lia|].
      assert (Hdiv : width / 2 = 0) by (apply Hsmall; lia).
      rewrite Hdiv. ring.
Qed.

(** X12.  [virtio_video_memcpy_NV12_byline] copies [height * 3 / 2] rows
    and asks for [width * height * 3 / 2] bytes; when those rows fit, it
    returns 0 exactly when [height] is even or [width] is at most 1; for
    an odd [height] and a [width] of 2 or more the result is not 0. *)
Theorem NV12_byline_succeeds_iff_height_even :
  forall w m res Y UV width height pitch,
    let ss := plane_slices res 0 in
    let begin := plane_offset res 0 in
    lens_nonneg ss = true ->
    total_len ss <= UINT32_MAX ->
    offset_in_first_slice begin ss = true ->
    0 <= width -> 0 <= height ->
    width * height * 3 <= UINT32_MAX ->
    height * 3 <= UINT32_MAX ->
    begin + (height * 3 / 2) * width <= total_len ss ->
    exists out,
      virtio_video_memcpy_NV12_byline w m res Y UV width height pitch
      = Done out /\
      (cr_ret out = 0 <-> height mod 2 = 0 \/ width <= 1).
Proof.
  intros w m res Y UV width height pitch ss begin Hnn Hmax Hfirst Hw Hh
    Hovf Hovf' Hfit.
  unfold virtio_video_memcpy_NV12_byline.
  assert (Hwh : 0 <= width * height) by nia.
  rewrite (u32_small (width * height)) by lia.
  rewrite (u32_small (width * height * 3)) by lia.
  rewrite (u32_small (height * 3)) by lia.
  pose proof (Z.div_pos (width * height * 3) 2 ltac:(lia) ltac:(lia)) as Hq1.
  pose proof (Z.div_pos (height * 3) 2 ltac:(lia) ltac:(lia)) as Hq2.
  pose proof (Z.div_le_upper_bound (width * height * 3) 2 UINT32_MAX
                ltac:(lia) ltac:(lia)) as Hq1'.
  pose proof (Z.div_le_upper_bound (height * 3) 2 UINT32_MAX
                ltac:(lia) ltac:(lia)) as Hq2'.
  rewrite (u32_small (width * height * 3 / 2)) by lia.
  rewrite (u32_small (height * 3 / 2)) by lia.
  destruct (byline_result w m res 0%nat Y UV width height pitch
              (width * height * 3 / 2) (height * 3 / 2))
    as [out [Hrun [Hzero _]]]; auto; try lia.
  exists out. split; [exact Hrun|]. rewrite Hzero.
  now apply nv12_rows_arith.
Qed.

Lemma NV12_byline_succeeds_iff_height_even_witness :
  exists out,
    virtio_video_memcpy_NV12_byline Len64 pattern_mem res_byline 10 40 4 2 6
    = Done out /\
    (cr_ret out = 0 <-> 2 mod 2 = 0 \/ 4 <= 1).
Proof.
  apply (NV12_byline_succeeds_iff_height_even Len64 pattern_mem res_byline
           10 40 4 2 6).
  - reflexivity.
  - unfold UINT32_MAX. cbn. lia.
  - reflexivity.
  - lia.
  - lia.
  - unfold UINT32_MAX. lia.
  - unfold UINT32_MAX. lia.
  - cbn. lia.
Defined.

(** ** Two-source write *)

Lemma memcpy_NV12_loop_whole_frame_in_slice w ss :
  forall p s m src size begin end_ base UV size_UV,
    lens_nonneg ss = true ->
    nth_error ss p = Some s ->
    0 <= base -> base + total_len ss <= UINT32_MAX ->
    base + prefix_len ss p <= begin < base + prefix_len ss p + page_len s ->
    end_ <= base + prefix_len ss p + page_len s ->
    memcpy_NV12_loop w ss m src size begin end_ base UV size_UV
    = mkCopy (memcpy m (page_base s + (begin - (base + prefix_len ss p)))
                src size) 0 false.
Proof.
  induction ss as [|t ss IH]; intros p s m src size begin end_ base UV size_UV
    Hnn Hp Hbase Hmax Hbegin Hend.
  - destruct p; discriminate.
  - apply lens_nonneg_cons in Hnn. destruct Hnn as [Ht Hss].
    pose proof (total_len_nonneg ss Hss) as Htot.
    cbn [total_len] in Hmax. cbn [memcpy_NV12_loop].
    rewrite (ulen_small w (base + page_len t)) by lia.
    rewrite (u32_small (base + page_len t)) by lia.
    destruct p as [|p]; cbn [nth_error] in Hp.
    + injection Hp as ->. rewrite prefix_len_0 in *.
      destruct (Z.leb_spec (base + page_len s) begin); [lia|].
      destruct (Z.leb_spec end_ (base + page_len s)); [|lia].
      rewrite (u32_small (begin - base)) by lia.
      rewrite MEMCPY_S_same. do 3 f_equal. lia.
    + rewrite prefix_len_cons in *.
      pose proof (prefix_len_bounds ss p Hss) as Hpre.
      destruct (Z.leb_spec (base + page_len t) begin); [|lia].
      rewrite (IH p s); auto; try lia.
      do 3 f_equal. lia.
Qed.

(** X13.  When the whole frame, [size_Y + size_UV] bytes from the plane
    offset on, ends within the slice in which it starts,
    [virtio_video_memcpy_NV12] copies the [size_Y] bytes of the first
    source there and returns 0; the [size_UV] bytes of the second source
    are not copied, the bytes where they belong stay as they were. *)
Theorem memcpy_NV12_within_one_slice_drops_second_source :
  forall w m res Y size_Y UV size_UV p s,
    let ss := plane_slices res 0 in
    let k := plane_offset res 0 in
    let at_k := page_base s + (k - prefix_len ss p) in
    let out := virtio_video_memcpy_NV12 w m res Y size_Y UV size_UV in
    lens_nonneg ss = true ->
    total_len ss <= UINT32_MAX ->
    nth_error ss p = Some s ->
    0 <= size_Y -> 0 <= size_UV ->
    prefix_len ss p <= k ->
    k + size_Y + size_UV <= prefix_len ss p + page_len s ->
    k < prefix_len ss p + page_len s ->
    out = mkCopy (memcpy m at_k Y size_Y) 0 false /\
    (forall j, 0 <= j < size_Y -> cr_mem out (at_k + j) = m (Y + j)) /\
    (forall j, 0 <= j < size_UV ->
       cr_mem out (at_k + size_Y + j) = m (at_k + size_Y + j)).
Proof.
  intros w m res Y size_Y UV size_UV p s ss k at_k out Hnn Hmax Hp HsY HsUV
    Hk Hfit Hin.
  assert (Hout : out = mkCopy (memcpy m at_k Y size_Y) 0 false).
  { subst out. unfold virtio_video_memcpy_NV12. fold ss. fold k.
    destruct (slice_within_total ss p s Hnn Hp) as [Hlen Htot].
    pose proof (prefix_len_bounds ss p Hnn) as Hpre.
    rewrite (u32_small (k + size_Y)) by lia.
    rewrite (u32_small (k + size_Y + size_UV)) by lia.
    rewrite (memcpy_NV12_loop_whole_frame_in_slice w ss p s); auto; lia. }
  split; [exact Hout|]. rewrite Hout. cbn [cr_mem]. split.
  - intros j Hj. rewrite memcpy_inside by lia. f_equal. lia.
  - intros j Hj. apply memcpy_outside. lia.
Qed.

Lemma memcpy_NV12_within_one_slice_drops_second_source_witness :
  let out := virtio_video_memcpy_NV12 Len64 pattern_mem res_one_slice 10 8 40 4 in
  out = mkCopy (memcpy pattern_mem (100 + (0 - 0)) 10 8) 0 false /\
  (forall j, 0 <= j < 8 -> cr_mem out (100 + (0 - 0) + j) = pattern_mem (10 + j)) /\
  (forall j, 0 <= j < 4 ->
     cr_mem out (100 + (0 - 0) + 8 + j) = pattern_mem (100 + (0 - 0) + 8 + j)).
Proof.
  apply (memcpy_NV12_within_one_slice_drops_second_source Len64 pattern_mem
           res_one_slice 10 8 40 4 0%nat (mkSlice 100 64)).
  - reflexivity.
  - unfold UINT32_MAX. cbn. lia.
  - reflexivity.
  - lia.
  - lia.
  - cbn. lia.
  - cbn. lia.
  - cbn. lia.
Defined.

(** * Formats and parameters *)

(** X14.  [virtio_video_param_fixup] leaves format, width and height
    alone; it returns true exactly when the format is an enumerator whose
    plane count was not the valid one, and then the plane count is valid
    afterwards; when it returns false nothing was changed, plane sizes
    included; a second call on its result changes nothing. *)
Theorem param_fixup_makes_plane_count_valid :
  forall params,
    let changed := fst (virtio_video_param_fixup params) in
    let params' := snd (virtio_video_param_fixup params) in
    format params' = format params /\
    frame_width params' = frame_width params /\
    frame_height params' = frame_height params /\
    (changed = true <->
       known_format (format params) = true /\
       virtio_video_format_is_valid (format params) (num_planes params)
       = false) /\
    (known_format (format params) = true ->
       virtio_video_format_is_valid (format params') (num_planes params')
       = true) /\
    (changed = false -> params' = params) /\
    virtio_video_param_fixup params' = (false, params').
Proof.
  intros [f w h n pfs]. cbn zeta.
  unfold virtio_video_param_fixup. cbn [format frame_width frame_height
                                        num_planes plane_formats].
  destruct f; cbn [known_format virtio_video_format_is_valid];
    try (destruct (Z.eqb_spec n 1));
    try (destruct (Z.eqb_spec n 2));
    try (destruct (Z.eqb_spec n 3));
    cbn [fst snd format frame_width frame_height num_planes plane_formats
         known_format virtio_video_format_is_valid Z.eqb Pos.eqb];
    subst; cbn [Z.eqb Pos.eqb];
    repeat split; intros; try reflexivity; try discriminate; try tauto;
    try (match goal with H : _ /\ _ |- _ => destruct H; discriminate end).
Qed.

(** * Further properties of the completion pipeline *)

Lemma exec_bind {A B : Type} (c : dev A) (k : A -> dev B) v :
  exec (bind c k) v = exec (k (fst (c v))) (snd (c v)).
Proof. unfold exec, bind. destruct (c v). reflexivity. Qed.

Lemma report_then_poll v e id :
  bh_list v = [] ->
  exec (virtio_video_report_event e id ;; aio_bh_poll) v
  = exec (virtio_video_event_bh (mkEventArg e id))
      (mkDevice (refcount v + 1) (event_queue v) (event_avail v) []
         (transport v)).
Proof.
  intros Hbh. destruct v as [rc q av bhs tr]. cbn [bh_list] in Hbh. subst bhs.
  reflexivity.
Qed.

Lemma event_bh_without_buffer s v :
  event_avail v = [] ->
  exec (virtio_video_event_bh s) v
  = mkDevice (refcount v - 1)
      (event_queue v ++ [mkEvent None (arg_event_type s) (arg_event_stream_id s)])
      [] (bh_list v) (transport v).
Proof.
  intros Hav. destruct v as [rc q av bhs tr]. cbn [event_avail] in Hav.
  subst av. reflexivity.
Qed.

Lemma usable_elem_accepts_event e :
  elem_usable e = true ->
  (iov_from_buf (in_sg e) sizeof_virtio_video_event
   =? sizeof_virtio_video_event) = true.
Proof.
  unfold elem_usable. intros Hbad. apply negb_true_iff in Hbad.
  apply orb_false_iff in Hbad. destruct Hbad as [Hnum Hlen].
  apply Z.ltb_ge in Hlen. apply Z.ltb_ge in Hnum.
  unfold in_num in Hnum. unfold iov_from_buf.
  destruct (in_sg e) as [|n0 sg]; [cbn in Hnum; lia|].
  cbn [hd] in Hlen. apply Z.eqb_eq. apply Z.min_l.
  cbn [iov_size fold_right].
  pose proof (iov_size_nonneg sg) as Hrest. unfold iov_size in Hrest. lia.
Qed.

Lemma event_bh_with_buffer s v e rest :
  event_avail v = e :: rest -> elem_usable e = true ->
  exec (virtio_video_event_bh s) v
  = mkDevice (refcount v - 1) (event_queue v) rest (bh_list v)
      (transport v
       ++ [op_push event_vq e
             (virtio_video_event (arg_event_type s) (arg_event_stream_id s))
             sizeof_virtio_video_event;
           op_notify event_vq; op_free e]).
Proof.
  intros Hav Hok.
  pose proof (usable_elem_accepts_event e Hok) as Hfit.
  unfold elem_usable in Hok. apply negb_true_iff in Hok.
  unfold virtio_video_event_bh, exec, bind, virtqueue_pop_event.
  rewrite Hav, Hok. unfold virtio_video_event_complete. rewrite Hfit.
  cbn. rewrite <- !app_assoc. reflexivity.
Qed.

(** X15.  Events reported one after the other while the guest has
    supplied no buffer all go to the backlog in the order of the reports,
    behind what the backlog held; nothing is sent and after each bottom
    half the reference count is back at its value. *)
Theorem reports_without_buffer_queue_in_order :
  forall reports v,
    bh_list v = [] -> event_avail v = [] ->
    exec (report_events reports) v
    = mkDevice (refcount v)
        (event_queue v
         ++ map (fun r => mkEvent None (fst r) (snd r)) reports)
        [] [] (transport v).
Proof.
  induction reports as [|r reports IH]; intros v Hbh Hav.
  - cbn [report_events map]. unfold exec, ret. cbn [snd].
    rewrite app_nil_r. destruct v; cbn in *; subst; reflexivity.
  - cbn [report_events map].
    change (virtio_video_report_event (fst r) (snd r);; aio_bh_poll;;
            report_events reports)
      with (bind (virtio_video_report_event (fst r) (snd r))
              (fun _ => bind aio_bh_poll (fun _ => report_events reports))).
    assert (Hsplit : forall u,
               exec (bind (virtio_video_report_event (fst r) (snd r))
                       (fun _ => bind aio_bh_poll
                                   (fun _ => report_events reports))) u
               = exec (report_events reports)
                   (exec (virtio_video_report_event (fst r) (snd r);;
                          aio_bh_poll) u)).
    { intros u. unfold exec, bind.
      destruct (virtio_video_report_event (fst r) (snd r) u) as [[] u1].
      destruct (aio_bh_poll u1) as [[] u2]. reflexivity. }
    rewrite Hsplit, report_then_poll by exact Hbh.
    rewrite event_bh_without_buffer by exact Hav.
    rewrite IH by reflexivity.
    cbn [refcount event_queue transport arg_event_type arg_event_stream_id].
    rewrite <- app_assoc. cbn [app].
    f_equal. lia.
Qed.

Lemma reports_without_buffer_queue_in_order_witness :
  exec (report_events [(256, 7); (512, 7); (256, 9)]) device0
  = mkDevice (refcount device0)
      (event_queue device0
       ++ map (fun r => mkEvent None (fst r) (snd r))
            [(256, 7); (512, 7); (256, 9)])
      [] [] (transport device0).
Proof.
  apply (reports_without_buffer_queue_in_order
           [(256, 7); (512, 7); (256, 9)] device0).
  - reflexivity.
  - reflexivity.
Defined.

(** X16.  Events reported one after the other while the guest has
    supplied a usable buffer for each of them are sent in the order of the
    reports, each on the oldest buffer left: the transport sees, for the
    [i]-th report, a push of that event on the [i]-th buffer, a
    notification and the release of that buffer, and nothing else.  The
    backlog is not touched, the buffers not needed stay available and the
    reference count is back at its value. *)
Theorem reports_with_buffers_sent_in_order :
  forall reports elems rest v,
    bh_list v = [] ->
    event_avail v = elems ++ rest ->
    length elems = length reports ->
    forallb elem_usable elems = true ->
    let v' := exec (report_events reports) v in
    transport v'
    = transport v
      ++ concat (map (fun er => event_sent (fst er) (snd er))
                   (combine elems reports)) /\
    pushed event_vq (transport v')
    = pushed event_vq (transport v)
      ++ map (fun r => virtio_video_event (fst r) (snd r)) reports /\
    event_queue v' = event_queue v /\
    event_avail v' = rest /\
    refcount v' = refcount v /\
    bh_list v' = [].
Proof.
  induction reports as [|r reports IH]; intros elems rest v Hbh Hav Hlen Hok.
  - destruct elems; [|discriminate]. cbn [app] in Hav.
    cbn [report_events map combine concat]. unfold exec, ret. cbn [snd].
    rewrite !app_nil_r. repeat split; auto.
  - destruct elems as [|e elems]; [discriminate|].
    cbn [forallb] in Hok. apply andb_true_iff in Hok. destruct Hok as [He Hok].
    cbn [length] in Hlen. injection Hlen as Hlen.
    cbn [report_events map].
    assert (Hsplit : forall u,
               exec (virtio_video_report_event (fst r) (snd r);;
                     aio_bh_poll;; report_events reports) u
               = exec (report_events reports)
                   (exec (virtio_video_report_event (fst r) (snd r);;
                          aio_bh_poll) u)).
    { intros u. unfold exec, bind.
      destruct (virtio_video_report_event (fst r) (snd r) u) as [[] u1].
      destruct (aio_bh_poll u1) as [[] u2]. reflexivity. }
    cbn zeta. rewrite Hsplit, report_then_poll by exact Hbh.
    rewrite (event_bh_with_buffer _ _ e (elems ++ rest)) by (auto; exact Hav).
    cbn [refcount event_queue bh_list transport arg_event_type
         arg_event_stream_id].
    match goal with
    | |- context [exec (report_events reports) ?u] =>
        destruct (IH elems rest u) as [Ht [Hp [Hq [Ha [Hr Hb]]]]]; auto
    end.
    cbn zeta in Ht, Hp, Hq, Ha, Hr, Hb.
    cbn [refcount event_queue bh_list transport event_avail]
      in Ht, Hp, Hq, Ha, Hr.
    rewrite Hp, Ht, Hq, Ha, Hr, Hb. rewrite pushed_app. cbn [pushed app].
    cbn [combine map concat fst snd]. unfold event_sent at 1.
    rewrite <- !app_assoc. cbn [app]. repeat split; auto. lia.
Qed.

Lemma reports_with_buffers_sent_in_order_witness :
  let v := mkDevice 1 [mkEvent None 256 3] [elem_ok; mkElem 5 [16%N]; elem_short]
             [] [] in
  let v' := exec (report_events [(256, 7); (512, 7)]) v in
  transport v'
  = transport v
    ++ concat (map (fun er => event_sent (fst er) (snd er))
                 (combine [elem_ok; mkElem 5 [16%N]] [(256, 7); (512, 7)])) /\
  pushed event_vq (transport v')
  = pushed event_vq (transport v)
    ++ map (fun r => virtio_video_event (fst r) (snd r)) [(256, 7); (512, 7)] /\
  event_queue v' = event_queue v /\
  event_avail v' = [elem_short] /\
  refcount v' = refcount v /\
  bh_list v' = [].
Proof.
  apply (reports_with_buffers_sent_in_order [(256, 7); (512, 7)]
           [elem_ok; mkElem 5 [16%N]] [elem_short]
           (mkDevice 1 [mkEvent None 256 3]
              [elem_ok; mkElem 5 [16%N]; elem_short] [] [])).
  - reflexivity.
  - reflexivity.
  - reflexivity.
  - reflexivity.
Defined.

(** X17.  One resolution of the in-flight command (done or cancel) with
    the task it schedules run afterwards: when the reply element accepts
    the command header, the response is pushed, the queue notified, the
    element freed and the reference count is back at its value; when it
    does not, the element is detached and freed, nothing is pushed, and
    the count stays one higher than it was. *)
Theorem resolution_then_task_balance :
  forall stream v success,
    bh_list v = [] ->
    let elem := cmd_elem (inflight_cmd stream) in
    let id := stream_ident stream in
    let accepted := sizeof_virtio_video_cmd_hdr <=? iov_size (in_sg elem) in
    let v' := run_pending (snd (resolve_inflight success stream v)) in
    bh_list v' = [] /\
    refcount v' = (if accepted then refcount v else refcount v + 1) /\
    transport v'
    = transport v
      ++ (if accepted then
            [op_push cmd_vq elem
               (virtio_video_cmd_hdr (resolution_resp success) id)
               sizeof_virtio_video_cmd_hdr;
             op_notify cmd_vq; op_free elem]
          else [op_error; op_detach cmd_vq elem; op_free elem]).
Proof.
  intros stream v success Hbh elem id accepted v'.
  assert (Hres : snd (resolve_inflight success stream v)
                 = mkDevice (refcount v + 1) (event_queue v) (event_avail v)
                     [resolution_bh success
                        (mkCmdArg (inflight_cmd stream) id)]
                     (transport v)).
  { destruct v as [rc q av bhs tr]. cbn [bh_list] in Hbh. subst bhs.
    destruct success; reflexivity. }
  set (u := mkDevice (refcount v + 1) (event_queue v) (event_avail v) []
              (transport v)).
  assert (Hrun : run_pending
                   (mkDevice (refcount v + 1) (event_queue v) (event_avail v)
                      [resolution_bh success
                         (mkCmdArg (inflight_cmd stream) id)]
                      (transport v))
                 = exec (virtio_video_cmd_others_complete
                           (mkCmdArg (inflight_cmd stream) id) success) u).
  { unfold run_pending. cbn [bh_list length aio_bh_poll_n].
    unfold exec, bind, aio_bh_poll.
    cbn [bh_list refcount event_queue event_avail transport]. fold u.
    destruct success;
      unfold resolution_bh, run_bh, virtio_video_cmd_done_bh,
        virtio_video_cmd_cancel_bh;
      match goal with
      | |- context [virtio_video_cmd_others_complete ?a ?b u] =>
          destruct (virtio_video_cmd_others_complete a b u) as [[] u']
      end; reflexivity. }
  subst v'. rewrite Hres, Hrun, cmd_others_complete_effect. cbn zeta.
  cbn [arg_cmd arg_stream_id]. fold elem.
  assert (Hacc : (iov_from_buf (in_sg elem) sizeof_virtio_video_cmd_hdr
                  =? sizeof_virtio_video_cmd_hdr) = accepted).
  { unfold accepted, iov_from_buf.
    destruct (Z.leb_spec sizeof_virtio_video_cmd_hdr (iov_size (in_sg elem))).
    - rewrite Z.min_l by lia. apply Z.eqb_refl.
    - rewrite Z.min_r by lia. apply Z.eqb_neq. lia. }
  rewrite Hacc.
  destruct accepted; cbn [bh_list refcount transport u]; repeat split; lia.
Qed.

Lemma resolution_then_task_balance_witness :
  let v' := run_pending (snd (resolve_inflight false
                                (mkStream 7 (mkCmd elem_short 259)) device0)) in
  bh_list v' = [] /\
  refcount v' = refcount device0 + 1 /\
  transport v' = [op_error; op_detach cmd_vq elem_short; op_free elem_short].
Proof.
  apply (resolution_then_task_balance (mkStream 7 (mkCmd elem_short 259))
           device0 false).
  reflexivity.
Defined.

(** X18.  An element that passes the test of [virtio_video_event_bh]
    (at least one writable entry, the first of at least the size of an
    event record) accepts the whole record: [virtio_video_event_complete]
    called on it returns 0, pushes the event with its type and stream id,
    notifies the queue and frees the element, and does not detach it. *)
Theorem event_complete_succeeds_on_usable_element :
  forall event e v,
    elem_usable e = true ->
    virtio_video_event_complete event e v
    = (0, mkDevice (refcount v) (event_queue v) (event_avail v) (bh_list v)
            (transport v
             ++ [op_push event_vq e
                   (virtio_video_event (ev_event_type event)
                      (ev_stream_id event))
                   sizeof_virtio_video_event;
                 op_notify event_vq; op_free e])).
Proof.
  intros event e v Hok. unfold virtio_video_event_complete.
  rewrite (usable_elem_accepts_event e Hok). cbn.
  rewrite <- !app_assoc. reflexivity.
Qed.

Lemma event_complete_succeeds_on_usable_element_witness :
  virtio_video_event_complete (mkEvent (Some elem_ok) 256 7) elem_ok device0
  = (0, mkDevice (refcount device0) (event_queue device0)
          (event_avail device0) (bh_list device0)
          (transport device0
           ++ [op_push event_vq elem_ok (virtio_video_event 256 7)
                 sizeof_virtio_video_event;
               op_notify event_vq; op_free elem_ok])).
Proof.
  apply (event_complete_succeeds_on_usable_element
           (mkEvent (Some elem_ok) 256 7) elem_ok device0).
  reflexivity.
Defined.

(** ** Two-source write across slices *)

Lemma memcpy_NV12_loop_second_source w ss :
  forall m src size begin base UV size_UV,
    lens_nonneg ss = true ->
    0 <= base <= begin -> base + total_len ss <= UINT32_MAX ->
    0 <= size -> begin + size <= UINT32_MAX ->
    memcpy_NV12_loop w ss m src size begin (begin + size) base UV size_UV
    = memcpy_singlebuffer_loop w ss m src size begin (begin + size) base.
Proof.
  induction ss as [|s ss IH]; intros m src size begin base UV size_UV Hnn
    Hbase Hfit Hsz Hend; cbn [memcpy_NV12_loop memcpy_singlebuffer_loop].
  - reflexivity.
  - apply lens_nonneg_cons in Hnn. destruct Hnn as [Hs Hss].
    pose proof (total_len_nonneg ss Hss) as Ht. cbn [total_len] in Hfit.
    rewrite (ulen_small w (base + page_len s)) by lia.
    rewrite (u32_small (base + page_len s)) by lia.
    destruct (Z.leb_spec (base + page_len s) begin) as [Hskip|Hin].
    + apply IH; auto; lia.
    + rewrite (u32_small (begin - base)) by lia.
      rewrite (ulen_small w (page_len s - (begin - base))) by lia.
      rewrite (u32_small (page_len s - (begin - base))) by lia.
      destruct (Z.leb_spec (begin + size) (base + page_len s)) as [Hlast|Hmore];
        [reflexivity|].
      set (l := page_len s - (begin - base)) in *.
      destruct (Z.leb_spec l size) as [_|Hbad]; [|unfold l in *; lia].
      cbn [nv_size nv_src nv_mem nv_begin].
      rewrite (u32_small (size - l)), (u32_small (begin + l))
        by (unfold l in *; lia).
      destruct (Z.eqb_spec (size - l) 0) as [Hz|_]; [unfold l in *; lia|].
      cbn [andb].
      replace (begin + size) with (begin + l + (size - l)) by lia.
      apply IH; auto; unfold l in *; lia.
Qed.
Lemma in_head_not_tail_addr t ss a off :
  lens_nonneg ss = true -> forallb (slice_apart t) ss = true ->
  page_base t <= a < page_base t + page_len t ->
  0 <= off < total_len ss -> a <> slice_addr ss off.
Proof.
  intros Hnn Hap Ha Hoff Heq.
  pose proof (slice_apart_not_in t ss a Hap Ha) as Hout.
  rewrite Heq, slice_addr_in_slices in Hout by auto. discriminate.
Qed.

Lemma source_not_in_slice q n t c :
  ranges_apart q n (page_base t) (page_len t) = true -> 0 <= c < n ->
  ~ (page_base t <= q + c < page_base t + page_len t).
Proof.
  intros Hap Hc Hin. apply (ranges_apart_spec _ _ _ _ (q + c) Hap); lia.
Qed.

Lemma memcpy_NV12_loop_two_sources w ss :
  forall m src size begin base UV size_UV p s,
    lens_nonneg ss = true -> slices_disjoint ss = true ->
    0 <= base <= begin -> base + total_len ss <= UINT32_MAX ->
    0 <= size -> 0 <= size_UV ->
    begin + size + size_UV <= base + total_len ss ->
    src + size <= UV ->
    buffer_apart src size ss = true -> buffer_apart UV size_UV ss = true ->
    nth_error ss p = Some s ->
    begin < base + prefix_len ss p + page_len s ->
    begin + size <= base + prefix_len ss p + page_len s ->
    base + prefix_len ss p + page_len s < begin + size + size_UV ->
    let r := memcpy_NV12_loop w ss m src size begin
               (begin + size + size_UV) base UV size_UV in
    cr_ret r = 0 /\ cr_reported r = false /\
    two_stored ss m (cr_mem r) (begin - base) size src size_UV UV.
Proof.
  induction ss as [|t ss IH];
    intros m src size begin base UV size_UV p s Hnn Hdis Hbase Hmax Hsz Hsuv
      Hfit Hord HY HUV Hp Hb1 Hb2 Hb3.
  - destruct p; discriminate.
  - apply lens_nonneg_cons in Hnn. destruct Hnn as [Ht Hss].
    cbn [slices_disjoint] in Hdis. apply andb_true_iff in Hdis.
    destruct Hdis as [Hap Hdis].
    apply buffer_apart_cons in HY. destruct HY as [HYt HY].
    apply buffer_apart_cons in HUV. destruct HUV as [HUVt HUV].
    pose proof (total_len_nonneg ss Hss) as Htot.
    pose proof (prefix_len_bounds ss) as Hpre.
    cbn [total_len] in Hmax, Hfit.
    cbn [memcpy_NV12_loop].
    rewrite (ulen_small w (base + page_len t)) by lia.
    rewrite (u32_small (base + page_len t)) by lia.
    destruct (Z.leb_spec (base + page_len t) begin) as [Hskip|Hin].
    + (* the slice lies before the plane offset *)
      destruct p as [|p]; cbn [nth_error] in Hp.
      { injection Hp as ->. rewrite prefix_len_0 in Hb1. lia. }
      rewrite prefix_len_cons in Hb1, Hb2, Hb3.
      destruct (IH m src size begin (base + page_len t) UV size_UV p s)
        as (Hr & Hrep & Hst); auto; try lia.
      split; [exact Hr|]. split; [exact Hrep|].
      destruct Hst as (HsY & HsUV & Hfr).
      repeat split.
      * intros j Hj. rewrite slice_addr_tail by lia.
        replace (begin - base + j - page_len t)
          with (begin - (base + page_len t) + j) by lia.
        now apply HsY.
      * intros j Hj. rewrite slice_addr_tail by lia.
        replace (begin - base + size + j - page_len t)
          with (begin - (base + page_len t) + size + j) by lia.
        now apply HsUV.
      * intros a Ha. apply Hfr. intros j Hj.
        specialize (Ha j Hj). rewrite slice_addr_tail in Ha by lia.
        replace (begin - (base + page_len t) + j)
          with (begin - base + j - page_len t) by lia.
        exact Ha.
    + rewrite (u32_small (begin - base)) by lia.
      rewrite (ulen_small w (page_len t - (begin - base))) by lia.
      rewrite (u32_small (page_len t - (begin - base))) by lia.
      set (diff := begin - base) in *.
      set (l := page_len t - diff) in *.
      assert (Hl : 0 < l) by (unfold l, diff; lia).
      assert (HB : base + page_len t < begin + size + size_UV).
      { destruct p as [|p]; cbn [nth_error] in Hp.
        - injection Hp as ->. rewrite prefix_len_0 in Hb3. lia.
        - rewrite prefix_len_cons in Hb3.
          specialize (Hpre p Hss).
          assert (0 <= page_len s).
          { apply nth_error_In in Hp.
            unfold lens_nonneg in Hss. rewrite forallb_forall in Hss.
            apply Hss in Hp. now apply Z.leb_le in Hp. }
          lia. }
      destruct (Z.leb_spec (begin + size + size_UV) (base + page_len t))
        as [Hbad|_]; [lia|].
      (* addresses of the head slice and of the rest *)
      assert (Hhead : forall o, 0 <= o < page_len t ->
                slice_addr (t :: ss) o = page_base t + o).
      { intros o Ho. apply slice_addr_head. lia. }
      assert (Hrest : forall a o,
                page_base t <= a < page_base t + page_len t ->
                0 <= o < total_len ss -> a <> slice_addr ss o).
      { intros a o Ha Ho. now apply in_head_not_tail_addr with t. }
      destruct (Z.leb_spec l size) as [Hle|Hgt].
      * cbn [nv_size nv_src nv_mem nv_begin nv_diff nv_len].
        rewrite (u32_small (size - l)), (u32_small (begin + l))
          by (unfold l, diff in *; lia).
        rewrite !MEMCPY_S_same.
        destruct (Z.eqb_spec (size - l) 0) as [Hz|Hnz]; cbn [andb].
        -- (* the first source ends with the slice *)
           destruct (Z.leb_spec (src + l) UV) as [_|Hbad]; [|lia].
           rewrite Z.sub_0_r, Z.add_0_r, Z.add_0_r.
           rewrite (u32_small size_UV), (u32_small (begin + l))
             by (unfold l, diff in *; lia).
           replace (begin + size + size_UV) with (begin + l + size_UV) by lia.
           replace (begin + l) with (base + page_len t)
             by (unfold l, diff; lia).
           rewrite memcpy_NV12_loop_second_source by (auto; lia).
           set (m1 := memcpy (memcpy m (page_base t + diff) src l)
                        (page_base t + diff) UV 0).
           destruct (memcpy_singlebuffer_loop_code w ss m1 UV size_UV
                       (base + page_len t) (base + page_len t))
             as [Hr Hrep]; auto; try lia.
           pose proof (memcpy_singlebuffer_loop_effect w ss m1 UV size_UV
                       (base + page_len t) (base + page_len t)
                       Hss Hdis ltac:(lia) ltac:(lia) ltac:(lia) ltac:(lia) HUV)
             as [Hst Hfr].
           rewrite Z.sub_diag in Hst, Hfr.
           set (r := memcpy_singlebuffer_loop w ss m1 UV size_UV
                       (base + page_len t) (base + page_len t + size_UV)
                       (base + page_len t)) in *.
           assert (Hm1 : forall a, m1 a = memcpy m (page_base t + diff) src l a).
           { intros a. unfold m1. apply memcpy_empty. lia. }
           assert (Hshort : (base + page_len t + total_len ss
                             <? base + page_len t + size_UV) = false)
             by (apply Z.ltb_ge; lia).
           rewrite Hshort, andb_false_r in Hr, Hrep.
           split; [exact Hr|]. split; [exact Hrep|].
           repeat split.
           ++ intros j Hj. rewrite Hhead by (unfold l in *; lia).
              rewrite Hfr.
              ** rewrite Hm1, memcpy_inside by (unfold l in *; lia).
                 f_equal. lia.
              ** intros c Hc. apply Hrest; [unfold l in *; lia|lia].
           ++ intros j Hj. rewrite slice_addr_tail by (unfold l in *; lia).
              replace (diff + size + j - page_len t) with (0 + j)
                by (unfold l in *; lia).
              rewrite Hst by lia. rewrite Hm1, memcpy_outside; [reflexivity|].
              pose proof (source_not_in_slice UV size_UV t j HUVt Hj).
              unfold l in *; lia.
           ++ intros a Ha. rewrite Hfr.
              ** assert (Hout : ~ (page_base t + diff <= a
                                   < page_base t + page_len t)).
                 { intros Hina.
                   apply (Ha (a - (page_base t + diff)));
                     [unfold l in *; lia|].
                   rewrite Hhead by (unfold l in *; lia). lia. }
                 rewrite Hm1, memcpy_outside by (unfold l in *; lia).
                 reflexivity.
              ** intros c Hc Heq.
                 apply (Ha (l + c)); [lia|].
                 rewrite slice_addr_tail by (unfold l in *; lia).
                 replace (diff + (l + c) - page_len t) with (0 + c)
                   by (unfold l; lia).
                 exact Heq.
        -- (* the first source goes on in the next slice *)
           destruct p as [|p]; cbn [nth_error] in Hp.
           { injection Hp as ->. rewrite prefix_len_0 in Hb2.
             unfold l, diff in *; lia. }
           rewrite prefix_len_cons in Hb1, Hb2, Hb3.
           replace (begin + size + size_UV)
             with (begin + l + (size - l) + size_UV) by lia.
           replace (begin + l) with (base + page_len t)
             by (unfold l, diff; lia).
           set (m1 := memcpy m (page_base t + diff) src l).
           destruct (IH m1 (src + l) (size - l) (base + page_len t)
                       (base + page_len t) UV size_UV p s)
             as (Hr & Hrep & Hst); auto; try (unfold l, diff in *; lia).
           { apply buffer_apart_sub with src size; auto; lia. }
           split; [exact Hr|]. split; [exact Hrep|].
           destruct Hst as (HsY & HsUV & Hfr).
           rewrite Z.sub_diag in HsY, HsUV, Hfr.
           repeat split.
           ++ intros j Hj.
              destruct (Z.lt_ge_cases j l) as [Hjl|Hjl].
              ** rewrite Hhead by (unfold l in *; lia).
                 rewrite Hfr.
                 --- unfold m1. rewrite memcpy_inside by (unfold l in *; lia).
                     f_equal. lia.
                 --- intros c Hc. apply Hrest; [unfold l in *; lia|].
                     unfold l, diff in *; lia.
              ** rewrite slice_addr_tail by (unfold l in *; lia).
                 replace (diff + j - page_len t) with (0 + (j - l))
                   by (unfold l; lia).
                 rewrite HsY by lia.
                 unfold m1. rewrite memcpy_outside.
                 --- f_equal. lia.
                 --- pose proof (source_not_in_slice src size t j HYt Hj).
                     replace (src + l + (j - l)) with (src + j) by lia.
                     unfold l in *; lia.
           ++ intros j Hj. rewrite slice_addr_tail by (unfold l in *; lia).
              replace (diff + size + j - page_len t) with (0 + (size - l) + j)
                by (unfold l; lia).
              rewrite HsUV by lia.
              unfold m1. rewrite memcpy_outside; [reflexivity|].
              pose proof (source_not_in_slice UV size_UV t j HUVt Hj).
              unfold l in *; lia.
           ++ intros a Ha. rewrite Hfr.
              ** assert (Hout : ~ (page_base t + diff <= a
                                   < page_base t + page_len t)).
                 { intros Hina.
                   apply (Ha (a - (page_base t + diff)));
                     [unfold l in *; lia|].
                   rewrite Hhead by (unfold l in *; lia). lia. }
                 unfold m1. rewrite memcpy_outside by (unfold l in *; lia).
                 reflexivity.
              ** intros c Hc Heq.
                 apply (Ha (l + c)); [lia|].
                 rewrite slice_addr_tail by (unfold l in *; lia).
                 replace (diff + (l + c) - page_len t) with (0 + c)
                   by (unfold l; lia).
                 exact Heq.
      * (* the first source ends inside the slice *)
        cbn [nv_size nv_src nv_mem nv_begin nv_diff nv_len].
        rewrite Z.eqb_refl. cbn [andb].
        destruct (Z.leb_spec (src + size) UV) as [_|Hbad]; [|lia].
        rewrite !MEMCPY_S_same.
        rewrite (u32_small (l - size)), (u32_small (diff + size)),
          (u32_small (begin + size)) by (unfold l, diff in *; lia).
        rewrite (u32_small (size_UV - (l - size))),
          (u32_small (begin + size + (l - size)))
          by (unfold l, diff in *; lia).
        replace (begin + size + size_UV)
          with (begin + size + (l - size) + (size_UV - (l - size))) by lia.
        replace (begin + size + (l - size)) with (base + page_len t)
          by (unfold l, diff; lia).
        rewrite memcpy_NV12_loop_second_source
          by (auto; unfold l, diff in *; lia).
        set (m1 := memcpy m (page_base t + diff) src size).
        set (m2 := memcpy m1 (page_base t + (diff + size)) UV (l - size)).
        set (n := size_UV - (l - size)).
        assert (Hn : 0 < n) by (unfold n, l, diff in *; lia).
        assert (HUV' : buffer_apart (UV + (l - size)) n ss = true).
        { apply buffer_apart_sub with UV size_UV; auto; unfold n; lia. }
        destruct (memcpy_singlebuffer_loop_code w ss m2 (UV + (l - size)) n
                    (base + page_len t) (base + page_len t))
          as [Hr Hrep]; auto; try (unfold n, l, diff in *; lia).
        pose proof (memcpy_singlebuffer_loop_effect w ss m2 (UV + (l - size)) n
                    (base + page_len t) (base + page_len t)
                    Hss Hdis ltac:(lia) ltac:(lia) ltac:(lia)
                    ltac:(unfold n, l, diff in *; lia) HUV')
          as [Hst Hfr].
        rewrite Z.sub_diag in Hst, Hfr.
        set (r := memcpy_singlebuffer_loop w ss m2 (UV + (l - size)) n
                    (base + page_len t) (base + page_len t + n)
                    (base + page_len t)) in *.
        assert (Hshort : (base + page_len t + total_len ss
                          <? base + page_len t + n) = false)
          by (apply Z.ltb_ge; unfold n, l, diff in *; lia).
        rewrite Hshort, andb_false_r in Hr, Hrep.
        split; [exact Hr|]. split; [exact Hrep|].
        repeat split.
        -- intros j Hj. rewrite Hhead by (unfold l in *; lia).
           rewrite Hfr.
           ++ unfold m2. rewrite memcpy_outside by lia.
              unfold m1. rewrite memcpy_inside by lia. f_equal. lia.
           ++ intros c Hc. apply Hrest; [unfold l in *; lia|].
              unfold n, l, diff in *; lia.
        -- intros j Hj.
           destruct (Z.lt_ge_cases j (l - size)) as [Hjl|Hjl].
           ++ rewrite Hhead by (unfold l in *; lia).
              rewrite Hfr.
              ** unfold m2. rewrite memcpy_inside by lia.
                 replace (UV + (page_base t + (diff + size + j)
                                - (page_base t + (diff + size))))
                   with (UV + j) by lia.
                 unfold m1. rewrite memcpy_outside; [reflexivity|].
                 pose proof (source_not_in_slice UV size_UV t j HUVt Hj).
                 unfold l in *; lia.
              ** intros c Hc. apply Hrest; [unfold l in *; lia|].
                 unfold n, l, diff in *; lia.
           ++ rewrite slice_addr_tail by (unfold l in *; lia).
              replace (diff + size + j - page_len t)
                with (0 + (j - (l - size))) by (unfold l; lia).
              rewrite Hst by (unfold n; lia).
              replace (UV + (l - size) + (j - (l - size))) with (UV + j) by lia.
              pose proof (source_not_in_slice UV size_UV t j HUVt Hj).
              unfold m2. rewrite memcpy_outside by (unfold l in *; lia).
              unfold m1. rewrite memcpy_outside by (unfold l in *; lia).
              reflexivity.
        -- intros a Ha. rewrite Hfr.
           ++ assert (Hout : ~ (page_base t + diff <= a
                                < page_base t + page_len t)).
              { intros Hina.
                apply (Ha (a - (page_base t + diff))); [unfold l in *; lia|].
                rewrite Hhead by (unfold l in *; lia). lia. }
              unfold m2. rewrite memcpy_outside by (unfold l in *; lia).
              unfold m1. rewrite memcpy_outside by (unfold l in *; lia).
              reflexivity.
           ++ intros c Hc Heq.
              apply (Ha (l + c)); [unfold n in *; lia|].
              rewrite slice_addr_tail by (unfold l in *; lia).
              replace (diff + (l + c) - page_len t) with (0 + c)
                by (unfold l; lia).
              exact Heq.
Qed.

Lemma memcpy_NV12_loop_nothing_left w ss :
  forall m src begin end_ base UV size_UV,
    UV < src ->
    let r := memcpy_NV12_loop w ss m src 0 begin end_ base UV size_UV in
    cr_ret r = 0 /\ cr_reported r = false /\ forall a, cr_mem r a = m a.
Proof.
  induction ss as [|t ss IH]; intros m src begin end_ base UV size_UV Hlow;
    cbn [memcpy_NV12_loop].
  - cbn. auto.
  - destruct (ulen w (base + page_len t) <=? begin); [now apply IH|].
    destruct (end_ <=? ulen w (base + page_len t)).
    { cbn [cr_ret cr_reported cr_mem]. repeat split.
      intros a. rewrite MEMCPY_S_same. apply memcpy_empty. lia. }
    set (diff := u32 (begin - base)).
    set (l := u32 (ulen w (page_len t - diff))).
    assert (Hl : 0 <= l) by (apply u32_range).
    destruct (Z.leb_spec l 0) as [Hz|Hpos];
      cbn [nv_size nv_src nv_mem nv_begin nv_diff nv_len].
    + assert (l = 0) as -> by lia.
      cbn [Z.sub Z.eqb u32 Z.modulo Z.div_eucl andb].
      rewrite Z.add_0_r.
      destruct (Z.leb_spec src UV) as [Hbad|_]; [lia|].
      destruct (IH (MEMCPY_S m (page_base t + diff) src 0 0) src
                  (u32 (begin + 0)) end_ (u32 (base + page_len t)) UV size_UV
                  Hlow) as (Hr & Hrep & Hm).
      repeat split; auto.
      intros a. rewrite Hm, MEMCPY_S_same. apply memcpy_empty. lia.
    + cbn [Z.eqb andb]. rewrite Z.add_0_r.
      destruct (Z.leb_spec src UV) as [Hbad|_]; [lia|].
      destruct (IH (MEMCPY_S m (page_base t + diff) src 0 0) src
                  (u32 (begin + 0)) end_ (u32 (base + page_len t)) UV size_UV
                  Hlow) as (Hr & Hrep & Hm).
      repeat split; auto.
      intros a. rewrite Hm, MEMCPY_S_same. apply memcpy_empty. lia.
Qed.

Lemma memcpy_NV12_loop_second_source_below w ss :
  forall m src size begin end_ base UV size_UV,
    lens_nonneg ss = true -> slices_disjoint ss = true ->
    0 <= base <= begin -> base + total_len ss <= UINT32_MAX ->
    0 <= size -> begin + size <= base + total_len ss ->
    begin + size <= end_ ->
    UV < src + size ->
    buffer_apart src size ss = true ->
    let r := memcpy_NV12_loop w ss m src size begin end_ base UV size_UV in
    cr_ret r = 0 /\ cr_reported r = false /\
    stored ss m (cr_mem r) (begin - base) size src.
Proof.
  induction ss as [|t ss IH];
    intros m src size begin end_ base UV size_UV Hnn Hdis Hbase Hmax Hsz Hfit
      Hend Hlow HY.
  - cbn [total_len] in Hfit. assert (size = 0) as -> by lia.
    cbn. repeat split; auto. intros c Hc. lia.
  - apply lens_nonneg_cons in Hnn. destruct Hnn as [Ht Hss].
    cbn [slices_disjoint] in Hdis. apply andb_true_iff in Hdis.
    destruct Hdis as [Hap Hdis].
    apply buffer_apart_cons in HY. destruct HY as [HYt HY].
    pose proof (total_len_nonneg ss Hss) as Htot.
    cbn [total_len] in Hmax, Hfit.
    cbn [memcpy_NV12_loop].
    rewrite (ulen_small w (base + page_len t)) by lia.
    rewrite (u32_small (base + page_len t)) by lia.
    destruct (Z.leb_spec (base + page_len t) begin) as [Hskip|Hin].
    + destruct (IH m src size begin end_ (base + page_len t) UV size_UV)
        as (Hr & Hrep & Hst & Hfr); auto; try lia.
      split; [exact Hr|]. split; [exact Hrep|]. split.
      * intros c Hc. rewrite slice_addr_tail by lia.
        replace (begin - base + c - page_len t)
          with (begin - (base + page_len t) + c) by lia.
        now apply Hst.
      * intros a Ha. apply Hfr. intros c Hc.
        specialize (Ha c Hc). rewrite slice_addr_tail in Ha by lia.
        replace (begin - (base + page_len t) + c)
          with (begin - base + c - page_len t) by lia.
        exact Ha.
    + rewrite (u32_small (begin - base)) by lia.
      rewrite (ulen_small w (page_len t - (begin - base))) by lia.
      rewrite (u32_small (page_len t - (begin - base))) by lia.
      set (diff := begin - base) in *.
      set (l := page_len t - diff) in *.
      assert (Hl : 0 < l) by (unfold l, diff; lia).
      assert (Hhead : forall o, 0 <= o < page_len t ->
                slice_addr (t :: ss) o = page_base t + o).
      { intros o Ho. apply slice_addr_head. lia. }
      assert (Hrest : forall a o,
                page_base t <= a < page_base t + page_len t ->
                0 <= o < total_len ss -> a <> slice_addr ss o).
      { intros a o Ha Ho. now apply in_head_not_tail_addr with t. }
      assert (Hframe : forall n a, 0 <= n <= l ->
                (forall c, 0 <= c < n ->
                           a <> slice_addr (t :: ss) (diff + c)) ->
                memcpy m (page_base t + diff) src n a = m a).
      { intros n a Hn Ha. apply memcpy_outside.
        destruct (Z.lt_ge_cases a (page_base t + diff)) as [|Hge]; [now left|].
        destruct (Z.lt_ge_cases a (page_base t + diff + n)) as [Hlt|];
          [|now right].
        exfalso. apply (Ha (a - (page_base t + diff))); [lia|].
        rewrite Hhead by (unfold l in *; lia). lia. }
      destruct (Z.leb_spec end_ (base + page_len t)) as [Hlast|Hmore].
      * cbn [cr_ret cr_reported cr_mem]. rewrite MEMCPY_S_same.
        split; [reflexivity|]. split; [reflexivity|]. split.
        -- intros c Hc. rewrite Hhead by (unfold l, diff in *; lia).
           rewrite memcpy_inside by lia. f_equal. lia.
        -- intros a Ha. apply Hframe; [unfold l, diff in *; lia|exact Ha].
      * destruct (Z.leb_spec l size) as [Hle|Hgt];
          cbn [nv_size nv_src nv_mem nv_begin nv_diff nv_len];
          rewrite !MEMCPY_S_same.
        -- rewrite (u32_small (size - l)), (u32_small (begin + l))
             by (unfold l, diff in *; lia).
           assert (Hno : (size - l =? 0) && (src + l <=? UV) = false).
           { destruct (Z.eqb_spec (size - l) 0) as [Hz|_]; [|reflexivity].
             destruct (Z.leb_spec (src + l) UV); [lia|reflexivity]. }
           rewrite Hno.
           replace (begin + l) with (base + page_len t)
             by (unfold l, diff; lia).
           set (m1 := memcpy m (page_base t + diff) src l).
           destruct (IH m1 (src + l) (size - l) (base + page_len t) end_
                       (base + page_len t) UV size_UV)
             as (Hr & Hrep & Hst & Hfr); auto;
             try (unfold l, diff in *; lia).
           { apply buffer_apart_sub with src size; auto; lia. }
           rewrite Z.sub_diag in Hst, Hfr.
           split; [exact Hr|]. split; [exact Hrep|]. split.
           ++ intros c Hc.
              destruct (Z.lt_ge_cases c l) as [Hcl|Hcl].
              ** rewrite Hhead by (unfold l in *; lia).
                 rewrite Hfr.
                 --- unfold m1. rewrite memcpy_inside by lia. f_equal. lia.
                 --- intros j Hj. apply Hrest; [unfold l in *; lia|].
                     unfold l, diff in *; lia.
              ** rewrite slice_addr_tail by (unfold l in *; lia).
                 replace (diff + c - page_len t) with (0 + (c - l))
                   by (unfold l; lia).
                 rewrite Hst by lia.
                 unfold m1. rewrite memcpy_outside.
                 --- f_equal. lia.
                 --- pose proof (source_not_in_slice src size t c HYt Hc).
                     replace (src + l + (c - l)) with (src + c) by lia.
                     unfold l in *; lia.
           ++ intros a Ha. rewrite Hfr.
              ** unfold m1. apply Hframe; [lia|].
                 intros c Hc. apply Ha. lia.
              ** intros c Hc Heq.
                 apply (Ha (l + c)); [lia|].
                 rewrite slice_addr_tail by (unfold l in *; lia).
                 replace (diff + (l + c) - page_len t) with (0 + c)
                   by (unfold l; lia).
                 exact Heq.
        -- rewrite Z.eqb_refl. cbn [andb].
           destruct (Z.leb_spec (src + size) UV) as [Hbad|_]; [lia|].
           set (m1 := memcpy m (page_base t + diff) src size).
           destruct (memcpy_NV12_loop_nothing_left w ss m1 (src + size)
                       (u32 (begin + size)) end_ (base + page_len t) UV
                       size_UV ltac:(lia)) as (Hr & Hrep & Hm).
           split; [exact Hr|]. split; [exact Hrep|]. split.
           ++ intros c Hc. rewrite Hhead by (unfold l in *; lia).
              rewrite Hm. unfold m1. rewrite memcpy_inside by lia.
              f_equal. lia.
           ++ intros a Ha. rewrite Hm. unfold m1.
              apply Hframe; [lia|exact Ha].
Qed.

(** X19.  When some slice ends at a cumulative offset [B] with
    [k + size_Y <= B < k + size_Y + size_UV] and [k < B] (the first source
    ends in or with a slice that the frame outgrows), the second source
    does not lie below the end of the first, and the frame fits the
    slices, [virtio_video_memcpy_NV12] returns 0 without an error report
    and stores the [size_Y] bytes of [Y] at the offsets from [k] on, the
    [size_UV] bytes of [UV] right behind them, and nothing else. *)
Theorem memcpy_NV12_stores_both_sources :
  forall w m res Y size_Y UV size_UV p s,
    let ss := plane_slices res 0 in
    let k := plane_offset res 0 in
    let out := virtio_video_memcpy_NV12 w m res Y size_Y UV size_UV in
    lens_nonneg ss = true -> slices_disjoint ss = true ->
    total_len ss <= UINT32_MAX ->
    0 <= k -> 0 <= size_Y -> 0 <= size_UV ->
    k + size_Y + size_UV <= total_len ss ->
    Y + size_Y <= UV ->
    buffer_apart Y size_Y ss = true -> buffer_apart UV size_UV ss = true ->
    nth_error ss p = Some s ->
    k < prefix_len ss p + page_len s ->
    k + size_Y <= prefix_len ss p + page_len s ->
    prefix_len ss p + page_len s < k + size_Y + size_UV ->
    cr_ret out = 0 /\ cr_reported out = false /\
    (forall j, 0 <= j < size_Y ->
       cr_mem out (slice_addr ss (k + j)) = m (Y + j)) /\
    (forall j, 0 <= j < size_UV ->
       cr_mem out (slice_addr ss (k + size_Y + j)) = m (UV + j)) /\
    (forall a, (forall j, 0 <= j < size_Y + size_UV ->
                          a <> slice_addr ss (k + j)) ->
       cr_mem out a = m a).
Proof.
  intros w m res Y size_Y UV size_UV p s ss k out Hnn Hdis HL Hk HsY HsUV Hfit
    Hord HY HUV Hp Hb1 Hb2 Hb3.
  subst out. unfold virtio_video_memcpy_NV12. fold ss. fold k.
  rewrite (u32_small (k + size_Y)) by lia.
  rewrite (u32_small (k + size_Y + size_UV)) by lia.
  destruct (memcpy_NV12_loop_two_sources w ss m Y size_Y k 0 UV size_UV p s)
    as (Hr & Hrep & Hst); auto; try lia.
  rewrite Z.sub_0_r in Hst. destruct Hst as (H1 & H2 & H3). auto.
Qed.

Lemma memcpy_NV12_stores_both_sources_witness :
  let ss := plane_slices res_nv12 0 in
  let out := virtio_video_memcpy_NV12 Len64 pattern_mem res_nv12 10 6 20 4 in
  cr_ret out = 0 /\ cr_reported out = false /\
  (forall j, 0 <= j < 6 ->
     cr_mem out (slice_addr ss (1 + j)) = pattern_mem (10 + j)) /\
  (forall j, 0 <= j < 4 ->
     cr_mem out (slice_addr ss (1 + 6 + j)) = pattern_mem (20 + j)) /\
  (forall a, (forall j, 0 <= j < 6 + 4 -> a <> slice_addr ss (1 + j)) ->
     cr_mem out a = pattern_mem a).
Proof.
  apply (memcpy_NV12_stores_both_sources Len64 pattern_mem res_nv12 10 6 20 4
           1%nat (mkSlice 200 4)).
  - reflexivity.
  - reflexivity.
  - unfold UINT32_MAX. cbn. lia.
  - cbn. lia.
  - lia.
  - lia.
  - cbn. lia.
  - lia.
  - reflexivity.
  - reflexivity.
  - reflexivity.
  - cbn. lia.
  - cbn. lia.
  - cbn. lia.
Defined.

(** X20.  When the second source lies below the end of the first in
    memory ([UV < Y + size_Y]), [virtio_video_memcpy_NV12] never turns to
    it: with the first source fitting the slices it returns 0 without an
    error report, stores the [size_Y] bytes of [Y] at the offsets from [k]
    on and changes nothing else, so no byte of [UV] is stored. *)
Theorem memcpy_NV12_skips_second_source_below_first :
  forall w m res Y size_Y UV size_UV,
    let ss := plane_slices res 0 in
    let k := plane_offset res 0 in
    let out := virtio_video_memcpy_NV12 w m res Y size_Y UV size_UV in
    lens_nonneg ss = true -> slices_disjoint ss = true ->
    total_len ss <= UINT32_MAX ->
    0 <= k -> 0 <= size_Y -> 0 <= size_UV ->
    k + size_Y <= total_len ss ->
    k + size_Y + size_UV <= UINT32_MAX ->
    UV < Y + size_Y ->
    buffer_apart Y size_Y ss = true ->
    cr_ret out = 0 /\ cr_reported out = false /\
    (forall j, 0 <= j < size_Y ->
       cr_mem out (slice_addr ss (k + j)) = m (Y + j)) /\
    (forall a, (forall j, 0 <= j < size_Y -> a <> slice_addr ss (k + j)) ->
       cr_mem out a = m a).
Proof.
  intros w m res Y size_Y UV size_UV ss k out Hnn Hdis HL Hk HsY HsUV Hfit
    Hmax Hlow HY.
  subst out. unfold virtio_video_memcpy_NV12. fold ss. fold k.
  rewrite (u32_small (k + size_Y)) by lia.
  rewrite (u32_small (k + size_Y + size_UV)) by lia.
  destruct (memcpy_NV12_loop_second_source_below w ss m Y size_Y k
              (k + size_Y + size_UV) 0 UV size_UV)
    as (Hr & Hrep & Hst); auto; try lia.
  rewrite Z.sub_0_r in Hst. destruct Hst as (H1 & H2). auto.
Qed.

Lemma memcpy_NV12_skips_second_source_below_first_witness :
  let ss := plane_slices res_nv12 0 in
  let out := virtio_video_memcpy_NV12 Len64 pattern_mem res_nv12 20 6 10 4 in
  cr_ret out = 0 /\ cr_reported out = false /\
  (forall j, 0 <= j < 6 ->
     cr_mem out (slice_addr ss (1 + j)) = pattern_mem (20 + j)) /\
  (forall a, (forall j, 0 <= j < 6 -> a <> slice_addr ss (1 + j)) ->
     cr_mem out a = pattern_mem a).
Proof.
  apply (memcpy_NV12_skips_second_source_below_first Len64 pattern_mem
           res_nv12 20 6 10 4).
  - reflexivity.
  - reflexivity.
  - unfold UINT32_MAX. cbn. lia.
  - cbn. lia.
  - lia.
  - lia.
  - cbn. lia.
  - unfold UINT32_MAX. cbn. lia.
  - lia.
  - reflexivity.
Defined.
